(** * photos_dedupe: the deduplication engine

    A shallow embedding of [photos_dedupe/hashing.py], the parts of
    [photos_dedupe/utils.py] it uses, and [photos_dedupe/dedupe.py],
    followed by the properties of the engine.

    Python objects are modelled as follows.
    - [str] is [string]; comparison of strings is the lexicographic order on
      character codes ([String_as_OT.compare]).
    - [int] is [Z]; [Optional[int]] is [option Z].
    - An exception is a value [Raise e] of the type [result]; a method that
      mutates [self] is a function from the object's state to a result and
      the new state (the monad [M]).  A raised exception keeps the mutations
      made before it, as in Python.
    - The caches of [HashCalculator] are finite maps ([gmap]); the
      dictionaries whose iteration order the code relies on
      ([hash_to_files], [file_hashes]) are insertion-ordered association
      lists.
    - The file system, PIL, hashlib, pathlib and imagehash are not part of
      the repository: what the engine observes of them is gathered in the
      record [World], fixed for the duration of a run.

    After the engine come [config.py], the file processing of [cli.py]
    with [safe_copy] and [safe_move], [scanner.py] and the rows of the CSV
    report of [reporters.py], each in a module of its own, with the
    operations of the operating system they call as variables of a
    section. *)

From Stdlib Require Import ZArith String Ascii List Bool Lia.
From Stdlib Require Import DecimalString OrdersEx Sorted Permutation.
From stdpp Require Import base tactics option list gmap strings.

#[local] Set Warnings "-clear-no-such-hyp".

Local Open Scope string_scope.
Local Open Scope list_scope.
Local Open Scope Z_scope.

(** ** Exceptions and results *)

Inductive exn : Type :=
| OSError
| IndexError
| KeyError
| TypeError
| ValueError.

Inductive result (A : Type) : Type :=
| Ok (a : A)
| Raise (e : exn).

Arguments Ok {A} a.
Arguments Raise {A} e.

Definition is_Ok {A} (r : result A) : bool :=
  match r with Ok _ => true | Raise _ => false end.

(** ** Methods: state passing with exceptions *)

Module Method.

Definition M (S A : Type) : Type := S -> result A * S.

Definition ret {S A} (a : A) : M S A := fun s => (Ok a, s).

Definition raise {S A} (e : exn) : M S A := fun s => (Raise e, s).

Definition bind {S A B} (m : M S A) (k : A -> M S B) : M S B :=
  fun s =>
    match m s with
    | (Ok a, s') => k a s'
    | (Raise e, s') => (Raise e, s')
    end.

Definition get {S} : M S S := fun s => (Ok s, s).

Definition put {S} (s : S) : M S unit := fun _ => (Ok tt, s).

Definition lift {S A} (r : result A) : M S A := fun s => (r, s).

(** [try: m except Exception: h] *)
Definition try_except {S A} (m : M S A) (h : exn -> M S A) : M S A :=
  fun s =>
    match m s with
    | (Ok a, s') => (Ok a, s')
    | (Raise e, s') => h e s'
    end.

(** A method of an attribute object run on the enclosing object. *)
Definition zoom {S T A} (proj : S -> T) (upd : T -> S -> S) (m : M T A)
  : M S A :=
  fun s => let (r, t') := m (proj s) in (r, upd t' s).

(** [for x in l: body x], the loop variable [acc] threaded through. *)
Fixpoint for_fold {S A B} (body : B -> A -> M S B) (l : list A) (acc : B)
  : M S B :=
  match l with
  | [] => ret acc
  | x :: l' => bind (body acc x) (fun acc' => for_fold body l' acc')
  end.

(** [[f x for x in l]] *)
Fixpoint for_list {S A B} (f : A -> M S B) (l : list A) : M S (list B) :=
  match l with
  | [] => ret []
  | x :: l' =>
      bind (f x) (fun y => bind (for_list f l') (fun ys => ret (y :: ys)))
  end.

End Method.

Import Method.

Declare Scope method_scope.
Delimit Scope method_scope with method.
Notation "x <- m ;; k" := (bind m (fun x => k))
  (at level 100, m at next level, right associativity) : method_scope.
Notation "m ;;; k" := (bind m (fun _ => k))
  (at level 100, right associativity) : method_scope.

(** The same for code that raises but has no state. *)
Definition rbind {A B} (r : result A) (k : A -> result B) : result B :=
  match r with
  | Ok a => k a
  | Raise e => Raise e
  end.

(** ** The world outside the repository *)

Record World : Type := {
  (** [hashlib.sha256] folded over the bytes of the file, as a hex digest;
      raises when the file cannot be opened or read. *)
  file_sha256 : string -> result string;
  (** [os.path.getsize] *)
  os_path_getsize : string -> result Z;
  (** [(img.width, img.height)] of [Image.open(path)], when it opens. *)
  Image_size : string -> result (Z * Z);
  (** [Path(path).suffix] *)
  Path_suffix : string -> string;
  (** [str.lower] *)
  str_lower : string -> string;
  (** whether [import imagehash] and [from PIL import Image] succeeded *)
  IMAGEHASH_AVAILABLE : bool;
  (** [str(imagehash.phash(img))] of the decoded and converted image;
      raises when the image cannot be decoded. *)
  Image_phash : string -> result string;
  (** [imagehash.hex_to_hash], the bit array flattened. *)
  imagehash_hex_to_hash : string -> result (list bool);
}.

(** [ImageHash.__sub__]: the count of differing positions of two bit arrays
    of the same size; [TypeError] when the sizes differ. *)
Fixpoint count_nonzero_ne (h1 h2 : list bool) : Z :=
  match h1, h2 with
  | b1 :: h1', b2 :: h2' =>
      (if Bool.eqb b1 b2 then 0 else 1) + count_nonzero_ne h1' h2'
  | _, _ => 0
  end.

Definition ImageHash_sub (h1 h2 : list bool) : result Z :=
  if negb (length h1 =? length h2)%nat then Raise TypeError
  else Ok (count_nonzero_ne h1 h2).

(** ** Python built-ins *)

(** Truth value of an [Optional[int]] and of an [Optional[str]]. *)
Definition truthy_int (x : option Z) : bool :=
  match x with
  | Some n => negb (n =? 0)
  | None => false
  end.

Definition truthy_str (x : option string) : bool :=
  match x with
  | Some s => negb (String.eqb s "")
  | None => false
  end.

(** [str(n)] and the rendering of an [Optional[int]] in an f-string. *)
Definition str_int (n : Z) : string := NilZero.string_of_int (Z.to_int n).

Definition str_opt_int (x : option Z) : string :=
  match x with
  | Some n => str_int n
  | None => "None"
  end.

(** [s1 < s2] on [str]. *)
Definition str_lt (s1 s2 : string) : bool :=
  match String_as_OT.compare s1 s2 with
  | Lt => true
  | _ => false
  end.

(** [list.sort] and [sorted] are stable and compare with [<] only.  A stable
    sort is determined by its order, so insertion from the right, each
    element placed before the first one that is not smaller, gives the list
    Python gives. *)
Section Sort.
Context {A : Type} (lt : A -> A -> bool).

Fixpoint insort (x : A) (l : list A) : list A :=
  match l with
  | [] => [x]
  | y :: l' => if lt y x then y :: insort x l' else x :: y :: l'
  end.

Fixpoint sort_with (l : list A) : list A :=
  match l with
  | [] => []
  | x :: l' => insort x (sort_with l')
  end.
End Sort.

Definition sorted (l : list string) : list string := sort_with str_lt l.

(** [l[i]] *)
Definition list_getitem {A} (l : list A) (i : nat) : result A :=
  match l !! i with
  | Some x => Ok x
  | None => Raise IndexError
  end.

(** Insertion-ordered dictionaries with [str] keys. *)
Abbreviation dict V := (list (string * V)).

Section Dict.
Context {V : Type}.

(** [d[k] = v]: a present key keeps its position. *)
Fixpoint dict_setitem (k : string) (v : V) (d : dict V) : dict V :=
  match d with
  | [] => [(k, v)]
  | (k', v') :: d' =>
      if String.eqb k' k then (k', v) :: d'
      else (k', v') :: dict_setitem k v d'
  end.

(** [d[k]] *)
Fixpoint dict_getitem (k : string) (d : dict V) : result V :=
  match d with
  | [] => Raise KeyError
  | (k', v') :: d' =>
      if String.eqb k' k then Ok v' else dict_getitem k d'
  end.

Definition dict_keys (d : dict V) : list string := fst <$> d.

Definition dict_values (d : dict V) : list V := snd <$> d.
End Dict.

(** [d[k].append(x)] on a [defaultdict(list)]. *)
Fixpoint defaultdict_append {X} (k : string) (x : X) (d : dict (list X))
  : dict (list X) :=
  match d with
  | [] => [(k, [x])]
  | (k', xs) :: d' =>
      if String.eqb k' k then (k', xs ++ [x]) :: d'
      else (k', xs) :: defaultdict_append k x d'
  end.

(** [enumerate(l)] *)
Definition enumerate {A} (l : list A) : list (nat * A) := imap pair l.

(** ** utils.py *)

Section Utils.
Variable w : World.

Definition get_file_size (file_path : string) : result Z :=
  os_path_getsize w file_path.

Definition get_image_dimensions (file_path : string)
  : option Z * option Z :=
  match Image_size w file_path with
  | Ok (width, height) => (Some width, Some height)
  | Raise _ => (None, None)
  end.

Definition calculate_sha256 (file_path : string) : result string :=
  file_sha256 w file_path.

Definition supported_extensions : list string :=
  [".jpg"; ".jpeg"; ".png"; ".webp"; ".gif";
   ".heic"; ".heif"; ".tif"; ".tiff"].

Definition is_supported_image (file_path : string) : bool :=
  bool_decide (str_lower w (Path_suffix w file_path) ∈ supported_extensions).
End Utils.

(** ** hashing.py *)

Record HashCalculator : Type := {
  sha256_cache : gmap string string;
  phash_cache : gmap string string;
}.

Definition HashCalculator_init : HashCalculator :=
  {| sha256_cache := ∅; phash_cache := ∅ |}.

Section Hashing.
Variable w : World.

Definition get_sha256 (file_path : string) (use_cache : bool)
  : M HashCalculator string :=
  (self <- get ;;
   match (if use_cache then sha256_cache self !! file_path else None) with
   | Some cached => ret cached
   | None =>
       try_except
         (hash_value <- lift (calculate_sha256 w file_path) ;;
          put {| sha256_cache := <[file_path := hash_value]> (sha256_cache self);
                 phash_cache := phash_cache self |} ;;;
          ret hash_value)
         (fun e => raise e)
   end)%method.

Definition get_phash (file_path : string) (use_cache : bool)
  : M HashCalculator (option string) :=
  (if negb (IMAGEHASH_AVAILABLE w) then ret None
   else if negb (is_supported_image w file_path) then ret None
   else
     self <- get ;;
     match (if use_cache then phash_cache self !! file_path else None) with
     | Some cached => ret (Some cached)
     | None =>
         try_except
           (hash_str <- lift (Image_phash w file_path) ;;
            put {| sha256_cache := sha256_cache self;
                   phash_cache := <[file_path := hash_str]> (phash_cache self) |} ;;;
            ret (Some hash_str))
           (fun _ => ret None)
     end)%method.

(** The body of the [try] of [hamming_distance]. *)
Definition hamming_distance_try (hash1 hash2 : string) : result Z :=
  rbind (imagehash_hex_to_hash w hash1) (fun h1 =>
  rbind (imagehash_hex_to_hash w hash2) (fun h2 =>
  ImageHash_sub h1 h2)).

Definition hamming_distance (hash1 hash2 : string) : Z :=
  if negb (IMAGEHASH_AVAILABLE w) then 0
  else
    match hamming_distance_try hash1 hash2 with
    | Ok distance => distance
    | Raise _ => 999
    end.
End Hashing.

(** ** dedupe.py *)

(** The dictionary built by [_get_file_metadata]. *)
Record FileMetadata : Type := {
  md_path : string;
  md_sha256 : string;
  md_width : option Z;
  md_height : option Z;
  md_size : Z;
}.

Record DuplicateGroup : Type := {
  group_id : Z;
  detection_type : string;
  winner : option string;
  duplicates : list string;
  (** [None] is the empty dictionary of a group not yet filled in. *)
  winner_metadata : option FileMetadata;
  duplicate_metadata : list FileMetadata;
  reason : string;
  phash_distance : option Z;
}.

Definition DuplicateGroup_init (group_id : Z) (detection_type : string)
  : DuplicateGroup :=
  {| group_id := group_id;
     detection_type := detection_type;
     winner := None;
     duplicates := [];
     winner_metadata := None;
     duplicate_metadata := [];
     reason := "";
     phash_distance := None |}.

Record Deduplicator : Type := {
  mode : string;
  phash_threshold : Z;
  hash_calc : HashCalculator;
  duplicate_groups : list DuplicateGroup;
}.

Definition Deduplicator_init (mode : string) (phash_threshold : Z)
  : Deduplicator :=
  {| mode := mode;
     phash_threshold := phash_threshold;
     hash_calc := HashCalculator_init;
     duplicate_groups := [] |}.

Definition set_hash_calc (hc : HashCalculator) (self : Deduplicator)
  : Deduplicator :=
  {| mode := mode self;
     phash_threshold := phash_threshold self;
     hash_calc := hc;
     duplicate_groups := duplicate_groups self |}.

Definition set_duplicate_groups (gs : list DuplicateGroup)
  (self : Deduplicator) : Deduplicator :=
  {| mode := mode self;
     phash_threshold := phash_threshold self;
     hash_calc := hash_calc self;
     duplicate_groups := gs |}.

(** The dictionary [select_winner] builds for each candidate. *)
Record Candidate : Type := {
  c_path : string;
  c_width : option Z;
  c_height : option Z;
  c_resolution : Z;
  c_size : Z;
}.

(** [(-x['resolution'], -x['size'], x['path'])] and [<] on such tuples. *)
Definition sort_key (x : Candidate) : Z * Z * string :=
  (- c_resolution x, - c_size x, c_path x).

Definition key_lt (k1 k2 : Z * Z * string) : bool :=
  let '(r1, s1, p1) := k1 in
  let '(r2, s2, p2) := k2 in
  if negb (r1 =? r2) then r1 <? r2
  else if negb (s1 =? s2) then s1 <? s2
  else str_lt p1 p2.

Definition candidate_lt (x y : Candidate) : bool :=
  key_lt (sort_key x) (sort_key y).

(** [for]-loops and comprehensions of code that has no state. *)
Fixpoint rfor_fold {A B} (body : B -> A -> result B) (l : list A) (acc : B)
  : result B :=
  match l with
  | [] => Ok acc
  | x :: l' => rbind (body acc x) (fun acc' => rfor_fold body l' acc')
  end.

Fixpoint rfor_list {A B} (f : A -> result B) (l : list A) : result (list B) :=
  match l with
  | [] => Ok []
  | x :: l' =>
      rbind (f x) (fun y => rbind (rfor_list f l') (fun ys => Ok (y :: ys)))
  end.

Section Dedupe.
Variable w : World.

(** The methods of [self.hash_calc] called on a [Deduplicator]. *)
Definition on_hash_calc {A} (m : M HashCalculator A) : M Deduplicator A :=
  zoom hash_calc set_hash_calc m.

Definition find_exact_duplicates (files : list string)
  : M Deduplicator (list (list string)) :=
  (hash_to_files <-
     for_fold
       (fun (hash_to_files : dict (list string)) file_path =>
          try_except
            (file_hash <- on_hash_calc (get_sha256 w file_path true) ;;
             ret (defaultdict_append file_hash file_path hash_to_files))
            (fun _ => ret hash_to_files))
       files [] ;;
   ret (filter (fun group => (1 <? length group)%nat)
          (dict_values hash_to_files)))%method.

(** [if min_distance is None or distance < min_distance:
    min_distance = distance] *)
Definition min_step (min_distance : option Z) (distance : Z) : option Z :=
  match min_distance with
  | None => Some distance
  | Some m => if distance <? m then Some distance else Some m
  end.

(** The inner loop of the clustering: [file2] against the seed. *)
Definition cluster_scan (file_hashes : dict string) (threshold : Z)
  (processed : gset string) (hash1 : string)
  (acc : list string * option Z) (file2 : string)
  : result (list string * option Z) :=
  let '(group, min_distance) := acc in
  if bool_decide (file2 ∈ processed) then Ok acc
  else
    rbind (dict_getitem file2 file_hashes) (fun hash2 =>
    let distance := hamming_distance w hash1 hash2 in
    if distance <=? threshold then
      Ok (group ++ [file2], min_step min_distance distance)
    else Ok acc).

(** [min_distance or 0] *)
Definition or_zero (min_distance : option Z) : Z :=
  match min_distance with
  | Some m => if m =? 0 then 0 else m
  | None => 0
  end.

(** The outer loop of the clustering. *)
Definition cluster_step (file_hashes : dict string) (threshold : Z)
  (files_list : list string)
  (acc : gset string * list (list string * Z)) (entry : nat * string)
  : result (gset string * list (list string * Z)) :=
  let '(processed, duplicate_groups) := acc in
  let '(i, file1) := entry in
  if bool_decide (file1 ∈ processed) then Ok acc
  else
    rbind (dict_getitem file1 file_hashes) (fun hash1 =>
    rbind (rfor_fold (cluster_scan file_hashes threshold processed hash1)
             (drop (i + 1) files_list) ([file1], None))
      (fun '(group, min_distance) =>
         if (1 <? length group)%nat then
           Ok (processed ∪ list_to_set group,
               duplicate_groups ++ [(group, or_zero min_distance)])
         else Ok acc)).

Definition cluster (file_hashes : dict string) (threshold : Z)
  : result (list (list string * Z)) :=
  let files_list := dict_keys file_hashes in
  rbind (rfor_fold (cluster_step file_hashes threshold files_list)
           (enumerate files_list) (∅, []))
    (fun '(_, duplicate_groups) => Ok duplicate_groups).

Definition find_perceptual_duplicates (files : list string)
  : M Deduplicator (list (list string * Z)) :=
  (let image_files := filter (fun f => is_supported_image w f) files in
   file_hashes <-
     for_fold
       (fun (file_hashes : dict string) file_path =>
          phash <- on_hash_calc (get_phash w file_path true) ;;
          match phash with
          | Some h =>
              if truthy_str phash then ret (dict_setitem file_path h file_hashes)
              else ret file_hashes
          | None => ret file_hashes
          end)
       image_files [] ;;
   self <- get ;;
   lift (cluster file_hashes (phash_threshold self)))%method.

(** [(width * height) if (width and height) else 0] *)
Definition resolution_of (width height : option Z) : Z :=
  if truthy_int width && truthy_int height then
    match width, height with
    | Some wd, Some ht => wd * ht
    | _, _ => 0
    end
  else 0.

(** The entry of [file_metadata] for one file. *)
Definition candidate_of (file_path : string) : result Candidate :=
  let '(width, height) := get_image_dimensions w file_path in
  rbind (get_file_size w file_path) (fun size =>
  let resolution := resolution_of width height in
  Ok {| c_path := file_path;
        c_width := width;
        c_height := height;
        c_resolution := resolution;
        c_size := size |}).

Definition select_winner (files : list string) : result (string * string) :=
  match files with
  | [only] => Ok (only, "only file in group")
  | _ =>
      let sorted_files := sorted files in
      rbind (rfor_list candidate_of sorted_files) (fun file_metadata =>
      let file_metadata := sort_with candidate_lt file_metadata in
      rbind (list_getitem file_metadata 0) (fun winner =>
      rbind (list_getitem file_metadata 1) (fun second =>
      let reason :=
        if c_resolution winner >? c_resolution second then
          "highest resolution (" +:+ str_opt_int (c_width winner) +:+ "x"
            +:+ str_opt_int (c_height winner) +:+ ")"
        else if c_size winner >? c_size second then
          "largest file size (" +:+ str_int (c_size winner) +:+ " bytes)"
        else "alphabetically first path" in
      Ok (c_path winner, reason))))
  end.

Definition _get_file_metadata (file_path : string)
  : M Deduplicator FileMetadata :=
  (let '(width, height) := get_image_dimensions w file_path in
   size <- lift (get_file_size w file_path) ;;
   sha256 <- on_hash_calc (get_sha256 w file_path true) ;;
   ret {| md_path := file_path;
          md_sha256 := sha256;
          md_width := width;
          md_height := height;
          md_size := size |})%method.

(** [self.duplicate_groups.append(group)] *)
Definition append_group (group : DuplicateGroup) : M Deduplicator unit :=
  (self <- get ;;
   put (set_duplicate_groups (duplicate_groups self ++ [group]) self))%method.

(** The body of the two [for] loops of [create_duplicate_groups]:
    [distance] is [None] in the exact pass, which leaves
    [phash_distance] as initialised. *)
Definition emit_group (dtype : string) (next_id : Z)
  (group_files : list string) (distance : option Z) : M Deduplicator Z :=
  (let group := DuplicateGroup_init next_id dtype in
   let next_id := next_id + 1 in
   selected <- lift (select_winner group_files) ;;
   let '(winner_path, reason_text) := selected in
   let dups := filter (fun f => f ≠ winner_path) group_files in
   winner_md <- _get_file_metadata winner_path ;;
   dup_md <- for_list _get_file_metadata dups ;;
   append_group
     {| group_id := group_id group;
        detection_type := detection_type group;
        winner := Some winner_path;
        duplicates := dups;
        winner_metadata := Some winner_md;
        duplicate_metadata := dup_md;
        reason := reason_text;
        phash_distance :=
          match distance with
          | Some d => Some d
          | None => phash_distance group
          end |} ;;;
   ret next_id)%method.

Definition create_duplicate_groups (files : list string)
  : M Deduplicator (list DuplicateGroup) :=
  (self <- get ;;
   put (set_duplicate_groups [] self) ;;;
   let next_id := 0 in
   next_id <-
     (if bool_decide (mode self ∈ ["exact"; "exact+perceptual"]) then
        exact_groups <- find_exact_duplicates files ;;
        for_fold
          (fun next_id group_files =>
             emit_group "exact" next_id group_files None)
          exact_groups next_id
      else ret next_id) ;;
   _ <-
     (if bool_decide (mode self ∈ ["perceptual"; "exact+perceptual"]) then
        self <- get ;;
        let processed_files : gset (option string) :=
          foldl
            (fun processed_files group =>
               processed_files ∪ {[ winner group ]}
                 ∪ list_to_set (Some <$> duplicates group))
            ∅ (duplicate_groups self) in
        let remaining_files :=
          filter (fun f => Some f ∉ processed_files) files in
        perceptual_groups <- find_perceptual_duplicates remaining_files ;;
        for_fold
          (fun next_id '(group_files, distance) =>
             emit_group "perceptual" next_id group_files (Some distance))
          perceptual_groups next_id
      else ret next_id) ;;
   self <- get ;;
   ret (duplicate_groups self))%method.

Definition get_all_winners (self : Deduplicator) : list (option string) :=
  winner <$> duplicate_groups self.

Definition get_all_duplicates (self : Deduplicator) : list string :=
  foldl (fun dups group => dups ++ duplicates group) []
    (duplicate_groups self).

Definition get_unique_files (self : Deduplicator) (all_files : list string)
  : list string :=
  let all_dupes : gset (option string) :=
    list_to_set (get_all_winners self ++ (Some <$> get_all_duplicates self)) in
  filter (fun f => Some f ∉ all_dupes) all_files.
End Dedupe.

(** ** What a run computes

    A run reads the file system only through [get_sha256] and [get_phash]
    with the caches on, [get_file_size] and [get_image_dimensions].  What
    the first two return from a given [HashCalculator] is its view of the
    world; the functions below give, for a fixed view [sha], [ph], the
    values the methods of [Deduplicator] compute; that they do is proved
    below ([create_duplicate_groups_run]). *)

Section Views.
Variable w : World.

Definition sha_view (hc : HashCalculator) (file_path : string)
  : result string :=
  match sha256_cache hc !! file_path with
  | Some cached => Ok cached
  | None => calculate_sha256 w file_path
  end.

Definition phash_view (hc : HashCalculator) (file_path : string)
  : option string :=
  if negb (IMAGEHASH_AVAILABLE w) then None
  else if negb (is_supported_image w file_path) then None
  else
    match phash_cache hc !! file_path with
    | Some cached => Some cached
    | None =>
        match Image_phash w file_path with
        | Ok hash_str => Some hash_str
        | Raise _ => None
        end
    end.
End Views.

Section Functional.
Variable w : World.
Variable sha : string -> result string.
Variable ph : string -> option string.

Definition bucket_step (hash_to_files : dict (list string))
  (file_path : string) : dict (list string) :=
  match sha file_path with
  | Ok file_hash => defaultdict_append file_hash file_path hash_to_files
  | Raise _ => hash_to_files
  end.

Definition exact_buckets (files : list string) : dict (list string) :=
  foldl bucket_step [] files.

Definition exact_groups (files : list string) : list (list string) :=
  filter (fun group => (1 <? length group)%nat)
    (dict_values (exact_buckets files)).

Definition fingerprint_step (file_hashes : dict string)
  (file_path : string) : dict string :=
  match ph file_path with
  | Some h =>
      if truthy_str (Some h) then dict_setitem file_path h file_hashes
      else file_hashes
  | None => file_hashes
  end.

Definition fingerprints (files : list string) : dict string :=
  foldl fingerprint_step []
    (filter (fun f => is_supported_image w f) files).

Definition perceptual_groups (threshold : Z) (files : list string)
  : result (list (list string * Z)) :=
  cluster w (fingerprints files) threshold.

Definition file_metadata (file_path : string) : result FileMetadata :=
  let '(width, height) := get_image_dimensions w file_path in
  rbind (get_file_size w file_path) (fun size =>
  rbind (sha file_path) (fun sha256 =>
  Ok {| md_path := file_path;
        md_sha256 := sha256;
        md_width := width;
        md_height := height;
        md_size := size |})).

Definition build_group (dtype : string) (next_id : Z)
  (group_files : list string) (distance : option Z)
  : result DuplicateGroup :=
  rbind (select_winner w group_files) (fun '(winner_path, reason_text) =>
  let dups := filter (fun f => f ≠ winner_path) group_files in
  rbind (file_metadata winner_path) (fun winner_md =>
  rbind (rfor_list file_metadata dups) (fun dup_md =>
  Ok {| group_id := next_id;
        detection_type := dtype;
        winner := Some winner_path;
        duplicates := dups;
        winner_metadata := Some winner_md;
        duplicate_metadata := dup_md;
        reason := reason_text;
        phash_distance := distance |}))).

(** The groups appended by one of the two loops of
    [create_duplicate_groups] up to its end or to the first exception,
    with the next identifier or that exception. *)
Fixpoint build_groups (dtype : string) (next_id : Z)
  (candidates : list (list string * option Z))
  : list DuplicateGroup * result Z :=
  match candidates with
  | [] => ([], Ok next_id)
  | (group_files, distance) :: rest =>
      match build_group dtype next_id group_files distance with
      | Ok group =>
          let '(groups, r) := build_groups dtype (next_id + 1) rest in
          (group :: groups, r)
      | Raise e => ([], Raise e)
      end
  end.

Definition processed_files_of (groups : list DuplicateGroup)
  : gset (option string) :=
  foldl
    (fun processed_files group =>
       processed_files ∪ {[ winner group ]}
         ∪ list_to_set (Some <$> duplicates group))
    ∅ groups.

Definition remaining_files_of (groups : list DuplicateGroup)
  (files : list string) : list string :=
  filter (fun f => Some f ∉ processed_files_of groups) files.

Definition exact_pass (mode : string) (files : list string)
  : list DuplicateGroup * result Z :=
  if bool_decide (mode ∈ ["exact"; "exact+perceptual"]) then
    build_groups "exact" 0 ((fun g => (g, None)) <$> exact_groups files)
  else ([], Ok 0).

Definition perceptual_pass (mode : string) (threshold : Z)
  (files : list string) (groups : list DuplicateGroup) (next_id : Z)
  : list DuplicateGroup * result Z :=
  if bool_decide (mode ∈ ["perceptual"; "exact+perceptual"]) then
    match perceptual_groups threshold (remaining_files_of groups files) with
    | Ok clusters =>
        build_groups "perceptual" next_id
          ((fun '(g, d) => (g, Some d)) <$> clusters)
    | Raise e => ([], Raise e)
    end
  else ([], Ok next_id).

(** The value of [self.duplicate_groups] when [create_duplicate_groups]
    ends, and how it ends. *)
Definition engine (mode : string) (threshold : Z) (files : list string)
  : list DuplicateGroup * result unit :=
  let '(exact, r1) := exact_pass mode files in
  match r1 with
  | Ok next_id =>
      let '(perceptual, r2) :=
        perceptual_pass mode threshold files exact next_id in
      (exact ++ perceptual, rbind r2 (fun _ => Ok tt))
  | Raise e => (exact, Raise e)
  end.

Definition engine_result (mode : string) (threshold : Z)
  (files : list string) : result (list DuplicateGroup) :=
  let '(groups, r) := engine mode threshold files in
  rbind r (fun _ => Ok groups).
End Functional.

(** ** The specification's reading of clustering and ranking *)

Section Specification.
(** The distance between two fingerprints and the threshold. *)
Variable distance : string -> string -> Z.
Variable threshold : Z.

Definition minimum (d : Z) (ds : list Z) : Z := foldl Z.min d ds.

(** Greedy clustering around seeds as the specification words it: the
    items are (file, fingerprint) pairs in iteration order; an assigned
    file is skipped; another one opens a cluster and takes every later
    unassigned file within [threshold] of it; a cluster of one file is
    not reported. *)
Fixpoint greedy_clusters (assigned : gset string)
  (items : list (string * string)) : list (list string * Z) :=
  match items with
  | [] => []
  | (seed, fp) :: later =>
      if bool_decide (seed ∈ assigned) then greedy_clusters assigned later
      else
        let near :=
          filter
            (fun x => (fst x ∉ assigned) ∧ (distance fp (snd x) <= threshold))
            later in
        match near with
        | [] => greedy_clusters (assigned ∪ {[ seed ]}) later
        | first :: others =>
            (seed :: near.*1,
             minimum (distance fp (snd first)) (distance fp <$> others.*2))
              :: greedy_clusters
                   (assigned ∪ {[ seed ]} ∪ list_to_set near.*1) later
        end
  end.
End Specification.

(** [a] is ranked no later than [b]: higher resolution first, then larger
    size, then the smaller path. *)
Definition ranked_before (a b : Candidate) : Prop :=
  c_resolution a > c_resolution b
  ∨ (c_resolution a = c_resolution b
     ∧ (c_size a > c_size b
        ∨ (c_size a = c_size b
           ∧ (c_path a = c_path b
              ∨ String_as_OT.lt (c_path a) (c_path b))))).

(** The reason given for [first] in view of the runner-up [second]. *)
Definition reason_for (first second : Candidate) : string :=
  if bool_decide (c_resolution first > c_resolution second) then
    "highest resolution (" +:+ str_opt_int (c_width first) +:+ "x"
      +:+ str_opt_int (c_height first) +:+ ")"
  else if bool_decide (c_size first > c_size second) then
    "largest file size (" +:+ str_int (c_size first) +:+ " bytes)"
  else "alphabetically first path".

(** The files of a group: its winner and its duplicates. *)
Definition group_files_of (g : DuplicateGroup) : list (option string) :=
  winner g :: (Some <$> duplicates g).

(** ** A concrete world

    A file system given by a table, for the examples. *)

Module Example.

Record File : Type := {
  f_path : string;
  f_sha256 : result string;
  f_size : result Z;
  f_dims : result (Z * Z);
  f_phash : result string;
}.

Fixpoint lookup_file (table : list File) (p : string) : option File :=
  match table with
  | [] => None
  | f :: table' =>
      if String.eqb (f_path f) p then Some f else lookup_file table' p
  end.

Definition field {A} (table : list File) (get : File -> result A)
  (p : string) : result A :=
  match lookup_file table p with
  | Some f => get f
  | None => Raise OSError
  end.

(** The part of a name from its last dot on, when the dot is neither the
    first nor the last character. *)
Fixpoint after_last_dot (name : string) (seen : option string) (first : bool)
  : option string :=
  match name with
  | EmptyString => seen
  | String c rest =>
      if Ascii.eqb c "."%char then
        after_last_dot rest (if first then None else Some name) false
      else after_last_dot rest seen false
  end.

Fixpoint last_component (p : string) (current : string) : string :=
  match p with
  | EmptyString => current
  | String c rest =>
      if Ascii.eqb c "/"%char then last_component rest rest
      else last_component rest current
  end.

Definition suffix (p : string) : string :=
  match after_last_dot (last_component p p) None true with
  | Some s => if (String.length s =? 1)%nat then "" else s
  | None => ""
  end.

Definition lower_char (c : ascii) : ascii :=
  let n := nat_of_ascii c in
  if ((65 <=? n) && (n <=? 90))%nat then ascii_of_nat (n + 32) else c.

Fixpoint lower (s : string) : string :=
  match s with
  | EmptyString => EmptyString
  | String c rest => String (lower_char c) (lower rest)
  end.

Definition hex_digit (c : ascii) : result (list bool) :=
  let n := nat_of_ascii c in
  let bits (v : nat) :=
    Ok [Nat.testbit v 3; Nat.testbit v 2; Nat.testbit v 1; Nat.testbit v 0] in
  if ((48 <=? n) && (n <=? 57))%nat then bits (n - 48)%nat
  else if ((97 <=? n) && (n <=? 102))%nat then bits (n - 87)%nat
  else if ((65 <=? n) && (n <=? 70))%nat then bits (n - 55)%nat
  else Raise ValueError.

(** Four bits for each hexadecimal digit. *)
Fixpoint hex_bits (s : string) : result (list bool) :=
  match s with
  | EmptyString => Ok []
  | String c rest =>
      rbind (hex_digit c) (fun b =>
      rbind (hex_bits rest) (fun bs => Ok (b ++ bs)))
  end.

Definition world (table : list File) (available : bool) : World :=
  {| file_sha256 := field table f_sha256;
     os_path_getsize := field table f_size;
     Image_size := field table f_dims;
     Path_suffix := suffix;
     str_lower := lower;
     IMAGEHASH_AVAILABLE := available;
     Image_phash := field table f_phash;
     imagehash_hex_to_hash := hex_bits |}.

(** An image file that can be read and decoded. *)
Definition image (p digest : string) (size width height : Z)
  (fingerprint : string) : File :=
  {| f_path := p;
     f_sha256 := Ok digest;
     f_size := Ok size;
     f_dims := Ok (width, height);
     f_phash := Ok fingerprint |}.

(** Four photographs: [a.jpg] and [b.jpg] are the same bytes, [c.jpg] and
    [d.jpg] differ in one bit of their fingerprints. *)
Definition photos : list File :=
  [image "a.jpg" "d1" 50000 100 100 "0000000000000000";
   image "b.jpg" "d1" 50000 100 100 "0000000000000007";
   image "c.jpg" "d2" 10000 200 200 "f000000000000000";
   image "d.jpg" "d3" 10000 200 200 "f000000000000001"].

Definition photo_paths : list string := ["a.jpg"; "b.jpg"; "c.jpg"; "d.jpg"].

(** Three images: the fingerprints of [y.png] and [z.png] are 3 and 4 bits
    away from that of [x.png], and 7 bits away from each other. *)
Definition similar : list File :=
  [image "x.png" "e1" 700 10 10 "0000000000000000";
   image "y.png" "e2" 700 10 10 "0000000000000007";
   image "z.png" "e3" 700 10 10 "f000000000000000"].

(** Two readable copies and a file that can be neither read nor decoded. *)
Definition damaged : list File :=
  [image "a.jpg" "d1" 50000 100 100 "0000000000000000";
   {| f_path := "bad.jpg";
      f_sha256 := Raise OSError;
      f_size := Raise OSError;
      f_dims := Raise OSError;
      f_phash := Raise OSError |};
   image "b.jpg" "d1" 50000 100 100 "0000000000000007"].

(** The run of a fresh engine. *)
Definition run (table : list File) (mode : string) (threshold : Z)
  (files : list string) : result (list DuplicateGroup) * Deduplicator :=
  create_duplicate_groups (world table true) files
    (Deduplicator_init mode threshold).

End Example.

(** ** Methods that only fill the caches *)

Section Agreement.
Variable w : World.
Variable sha : string -> result string.
Variable ph : string -> option string.

(** The caches [hc] show the world as [sha] and [ph] do. *)
Definition agrees (hc : HashCalculator) : Prop :=
  (∀ f, sha_view w hc f = sha f) ∧ (∀ f, phash_view w hc f = ph f).

(** From every state that agrees with the view, [m] ends with [r] and
    changes nothing of the engine but its caches, which still agree. *)
Definition computes {A} (m : M Deduplicator A) (r : result A) : Prop :=
  ∀ d, agrees (hash_calc d) →
    ∃ hc', agrees hc' ∧ m d = (r, set_hash_calc hc' d).
End Agreement.

(** ** Vocabulary of the properties *)

(** [g] has its winner among [group_files] and the other files of
    [group_files] as duplicates. *)
Definition built_from (group_files : list string) (g : DuplicateGroup)
  : Prop :=
  ∃ winner_path,
    winner g = Some winner_path
    ∧ winner_path ∈ group_files
    ∧ duplicates g = filter (fun f => f ≠ winner_path) group_files.

(** No file occurs in two lists of [ls]. *)
Fixpoint pairwise_disjoint (ls : list (list string)) : Prop :=
  match ls with
  | [] => True
  | l :: ls' =>
      Forall (fun l' => ∀ f, f ∈ l → f ∉ l') ls' ∧ pairwise_disjoint ls'
  end.

(** The content digest of [f] is [k]. *)
Definition has_digest (sha : string -> result string) (k f : string) : bool :=
  match sha f with
  | Ok h => String.eqb h k
  | Raise _ => false
  end.

(** The buckets after the files [l]: one for each digest met, holding the
    files of that digest in the order of [l]. *)
Definition bucket_inv (sha : string -> result string) (l : list string)
  (D : dict (list string)) : Prop :=
  NoDup (dict_keys D)
  ∧ (∀ k fs, (k, fs) ∈ D → fs = filter (fun f => has_digest sha k f) l)
  ∧ (∀ f k, f ∈ l → sha f = Ok k → k ∈ dict_keys D).

(** The number of positions at which two bit arrays differ. *)
Definition differing_bits (h1 h2 : list bool) : Z :=
  Z.of_nat (length (filter (fun p => fst p ≠ snd p) (zip h1 h2))).

(** The entry of [file_hashes] a file gives rise to, if any: the file is a
    supported image and its perceptual hash is available and not empty. *)
Definition fingerprint_entry (w : World) (ph : string -> option string)
  (f : string) : option (string * string) :=
  if is_supported_image w f then
    match ph f with
    | Some h => if truthy_str (Some h) then Some (f, h) else None
    | None => None
    end
  else None.

(** [m] is the least element of the non-empty list [ds]. *)
Definition is_minimum (m : Z) (ds : list Z) : Prop :=
  m ∈ ds ∧ ∀ d, d ∈ ds → m <= d.


(** ** More of utils.py *)

Section MoreUtils.
Variable w : World.

Definition video_extensions : list string :=
  [".mp4"; ".mov"; ".m4v"; ".avi"; ".mkv"].

Definition is_supported_video (file_path : string) : bool :=
  bool_decide (str_lower w (Path_suffix w file_path) ∈ video_extensions).

Definition is_supported_media (file_path : string) : bool :=
  is_supported_image w file_path || is_supported_video file_path.
End MoreUtils.

(** ** More vocabulary *)

(** [md] is what [_get_file_metadata] builds for [f] when [get_sha256]
    answers as [sha] does. *)
Definition describes (w : World) (sha : string -> result string)
  (f : string) (md : FileMetadata) : Prop :=
  md_path md = f
  ∧ sha f = Ok (md_sha256 md)
  ∧ get_file_size w f = Ok (md_size md)
  ∧ get_image_dimensions w f = (md_width md, md_height md).


(** ** More of hashing.py *)

Section MoreHashing.
Variable w : World.

Definition are_perceptually_similar (file1 file2 : string) (threshold : Z)
  : M HashCalculator (bool * Z) :=
  (if negb (IMAGEHASH_AVAILABLE w) then ret (false, -1)
   else
     phash1 <- get_phash w file1 true ;;
     phash2 <- get_phash w file2 true ;;
     match phash1, phash2 with
     | Some h1, Some h2 =>
         let distance := hamming_distance w h1 h2 in
         let is_similar := distance <=? threshold in
         ret (is_similar, distance)
     | _, _ => ret (false, -1)
     end)%method.
End MoreHashing.

Definition clear_cache : M HashCalculator unit :=
  (self <- get ;;
   put {| sha256_cache := ∅; phash_cache := phash_cache self |} ;;;
   self <- get ;;
   put {| sha256_cache := sha256_cache self; phash_cache := ∅ |})%method.


(** ** config.py

    The attributes of [Config] with the types of their annotations, as
    the command line and a well-typed configuration file give them. *)

Module config.

Record Config : Type := {
  inputs : list string;
  out_dir : string;
  mode : string;
  action : string;
  phash_threshold : Z;
  workers : Z;
  keep_structure : bool;
  ignore_json : bool;
  photos_subpath : option string;
  group_by_year : bool;
  unknown_year_dir : string;
  date_source_priority : list string;
  timezone_mode : string;
  reports_csv : bool;
  reports_json : bool;
  reports_xlsx : bool;
}.

(** [Config()] *)
Definition Config_init : Config :=
  {| inputs := [];
     out_dir := "output_consolidado";
     mode := "exact";
     action := "dry-run";
     phash_threshold := 6;
     workers := 4;
     keep_structure := false;
     ignore_json := true;
     photos_subpath := None;
     group_by_year := false;
     unknown_year_dir := "_UNKNOWN";
     date_source_priority := ["takeout_json"; "exif"; "mtime"];
     timezone_mode := "local";
     reports_csv := true;
     reports_json := true;
     reports_xlsx := true |}.

(** The namespace [parse_arguments] returns: an option that was not given
    is [None], except the [store_true] flags, which are [False]. *)
Record Namespace : Type := {
  args_config : option string;
  args_inputs : option (list string);
  args_out_dir : option string;
  args_mode : option string;
  args_action : option string;
  args_phash_threshold : option Z;
  args_workers : option Z;
  args_keep_structure : bool;
  args_verbose : bool;
}.

(** [hasattr(args, name) and args.name] for a list and for a string. *)
Definition given_list (x : option (list string)) : option (list string) :=
  match x with
  | Some (a :: l) => Some (a :: l)
  | _ => None
  end.

Definition given_str (x : option string) : option string :=
  if truthy_str x then x else None.

Definition merge_args (args : Namespace) (self : Config) : Config :=
  {| inputs := default (inputs self) (given_list (args_inputs args));
     out_dir := default (out_dir self) (given_str (args_out_dir args));
     mode := default (mode self) (given_str (args_mode args));
     action := default (action self) (given_str (args_action args));
     phash_threshold :=
       default (phash_threshold self) (args_phash_threshold args);
     workers := default (workers self) (args_workers args);
     keep_structure := args_keep_structure args;
     ignore_json := ignore_json self;
     photos_subpath := photos_subpath self;
     group_by_year := group_by_year self;
     unknown_year_dir := unknown_year_dir self;
     date_source_priority := date_source_priority self;
     timezone_mode := timezone_mode self;
     reports_csv := reports_csv self;
     reports_json := reports_json self;
     reports_xlsx := reports_xlsx self |}.

(** The exceptions of [validate] with their messages. *)
Inductive error : Type :=
| ValueError (message : string)
| FileNotFoundError (message : string).

Definition valid_modes : list string :=
  ["exact"; "perceptual"; "exact+perceptual"].

Definition valid_actions : list string := ["copy"; "move"; "dry-run"].

Definition valid_date_sources : list string :=
  ["takeout_json"; "exif"; "mtime"].

Definition valid_timezone_modes : list string := ["local"; "UTC"].

(** [for x in l: if bad(x): raise error(x)] *)
Fixpoint for_raise {A} (bad : A -> bool) (err : A -> error) (l : list A)
  : option error :=
  match l with
  | [] => None
  | x :: l' => if bad x then Some (err x) else for_raise bad err l'
  end.

Section Validate.
(** [Path(p).exists()] *)
Variable Path_exists : string -> bool.

(** The exception [validate] raises; [None] when it returns. *)
Definition validate (self : Config) : option error :=
  if negb (bool_decide (inputs self ≠ [])) then
    Some (ValueError "At least one input directory must be specified")
  else if negb (truthy_str (Some (out_dir self))) then
    Some (ValueError "Output directory must be specified")
  else if negb (bool_decide (mode self ∈ valid_modes)) then
    Some (ValueError
            ("Invalid mode: " +:+ mode self
             +:+ ". Must be 'exact', 'perceptual', or 'exact+perceptual'"))
  else if negb (bool_decide (action self ∈ valid_actions)) then
    Some (ValueError
            ("Invalid action: " +:+ action self
             +:+ ". Must be 'copy', 'move', or 'dry-run'"))
  else if phash_threshold self <? 0 then
    Some (ValueError "phash_threshold must be non-negative")
  else if workers self <? 1 then
    Some (ValueError "workers must be at least 1")
  else
    match
      for_raise
        (fun source => negb (bool_decide (source ∈ valid_date_sources)))
        (fun source =>
           ValueError
             ("Invalid date source: " +:+ source
              +:+ ". Must be one of ['takeout_json', 'exif', 'mtime']"))
        (date_source_priority self)
    with
    | Some e => Some e
    | None =>
        if negb (bool_decide (timezone_mode self ∈ valid_timezone_modes))
        then
          Some (ValueError
                  ("Invalid timezone_mode: " +:+ timezone_mode self
                   +:+ ". Must be 'local' or 'UTC'"))
        else
          for_raise
            (fun input_dir => negb (Path_exists input_dir))
            (fun input_dir =>
               FileNotFoundError
                 ("Input directory not found: " +:+ input_dir))
            (inputs self)
    end.
End Validate.

End config.

(** The constraints [validate] checks before it looks at the file
    system. *)
Definition well_formed (c : config.Config) : Prop :=
  config.inputs c ≠ []
  ∧ config.out_dir c ≠ ""
  ∧ config.mode c ∈ config.valid_modes
  ∧ config.action c ∈ config.valid_actions
  ∧ 0 <= config.phash_threshold c
  ∧ 1 <= config.workers c
  ∧ Forall (fun source => source ∈ config.valid_date_sources)
      (config.date_source_priority c)
  ∧ config.timezone_mode c ∈ config.valid_timezone_modes.

(** The values a namespace of [parse_arguments] can hold: [--mode] and
    [--action] are restricted by [choices]. *)
Definition from_choices (choices : list string) (x : option string)
  : Prop :=
  match x with
  | Some s => s ∈ choices
  | None => True
  end.

(** ** cli.py, with the file operations of utils.py

    [process_files] meets one exception the engine does not:
    [AttributeError].  Paths are the strings they are built from. *)

Module cli.

Inductive pyexn : Type :=
| AttributeError
| Builtin (e : exn).

Inductive outcome (A : Type) : Type :=
| Returned (a : A)
| Raised (e : pyexn).
Arguments Returned {A} a.
Arguments Raised {A} e.

(** Code that changes the file system and may raise. *)
Definition C (S A : Type) : Type := S -> outcome A * S.

Definition ret {S A} (a : A) : C S A := fun s => (Returned a, s).

Definition raise {S A} (e : pyexn) : C S A := fun s => (Raised e, s).

Definition bind {S A B} (m : C S A) (k : A -> C S B) : C S B :=
  fun s =>
    match m s with
    | (Returned a, s') => k a s'
    | (Raised e, s') => (Raised e, s')
    end.

Definition get {S} : C S S := fun s => (Returned s, s).

(** A computation of the engine's kind. *)
Definition lift {S A} (m : M S A) : C S A :=
  fun s =>
    match m s with
    | (Ok a, s') => (Returned a, s')
    | (Raise e, s') => (Raised (Builtin e), s')
    end.

(** [try: m except Exception as e: logger.error(...)] *)
Definition try_log {S} (m : C S unit) : C S unit :=
  fun s =>
    match m s with
    | (Returned _, s') => (Returned tt, s')
    | (Raised _, s') => (Returned tt, s')
    end.

(** [for x in l: body x] *)
Fixpoint for_each {S A} (body : A -> C S unit) (l : list A) : C S unit :=
  match l with
  | [] => ret tt
  | x :: l' => bind (body x) (fun _ => for_each body l')
  end.

(** [for x in l: acc = body acc x] *)
Fixpoint for_acc {S A B} (body : B -> A -> C S B) (l : list A) (acc : B)
  : C S B :=
  match l with
  | [] => ret acc
  | x :: l' => bind (body acc x) (fun acc' => for_acc body l' acc')
  end.

(** The objects passed as [group] to [get_capture_year_for_group]. *)
Inductive object : Type :=
| PathObject (p : string)
| GroupObject (g : DuplicateGroup).

(** [o.winner] *)
Definition getattr_winner {S} (o : object) : C S (option string) :=
  match o with
  | GroupObject g => ret (winner g)
  | PathObject _ => raise AttributeError
  end.

(** [Path(x)] *)
Definition Path {S} (x : option string) : C S string :=
  match x with
  | Some p => ret p
  | None => raise (Builtin TypeError)
  end.

(** [str(x)] *)
Definition str (x : option string) : string :=
  match x with
  | Some s => s
  | None => "None"
  end.

(** [d.get(k, default)] *)
Fixpoint dict_get {V} (k : string) (default : V) (d : dict V) : V :=
  match d with
  | [] => default
  | (k', v') :: d' => if String.eqb k' k then v' else dict_get k default d'
  end.

Section ProcessFiles.
(** The state of the file system, and the world it shows to a reader. *)
Variable FS : Type.
Variable world_of : FS -> World.
(** [Path.mkdir(parents=True, exist_ok=True)], [Path.exists],
    [shutil.copy2] and [shutil.move]; each of them can raise. *)
Variable Path_mkdir : string -> M FS unit.
Variable Path_exists : string -> FS -> result bool.
Variable shutil_copy2 : string -> string -> M FS unit.
Variable shutil_move : string -> string -> M FS unit.
(** [Path.name], [Path.stem] and [/]. *)
Variable Path_name : string -> string.
Variable Path_stem : string -> string.
Variable Path_truediv : string -> string -> string.
(** [date_utils.get_capture_year] *)
Variable get_capture_year :
  string -> list string -> string -> string -> C FS string.

(** The common part of [safe_copy] and [safe_move]: the destination. *)
Definition final_path_of (src dst : string) : C FS string :=
  bind (lift (Path_mkdir dst)) (fun _ =>
  let final_path := Path_truediv dst (Path_name src) in
  bind get (fun fs =>
  bind (lift (Method.lift (Path_exists final_path fs))) (fun found =>
  if found then
    let stem := Path_stem src in
    let suffix := Path_suffix (world_of fs) src in
    bind (lift (Method.lift (calculate_sha256 (world_of fs) src)))
      (fun digest =>
         let short_hash := String.substring 0 8 digest in
         ret (Path_truediv dst (stem +:+ "__" +:+ short_hash +:+ suffix)))
  else ret final_path))).

Definition safe_copy (src dst : string) (keep_structure : bool)
  : C FS string :=
  bind (final_path_of src dst) (fun final_path =>
  bind (lift (shutil_copy2 src final_path)) (fun _ =>
  ret final_path)).

Definition safe_move (src dst : string) (keep_structure : bool)
  : C FS string :=
  bind (final_path_of src dst) (fun final_path =>
  bind (lift (shutil_move src final_path)) (fun _ =>
  ret final_path)).

Definition get_capture_year_for_group (group : object)
  (date_priority : list string) (unknown_year_dir timezone_mode : string)
  : C FS string :=
  bind (getattr_winner group) (fun group_winner =>
  bind (Path group_winner) (fun media_path =>
  get_capture_year media_path date_priority unknown_year_dir
    timezone_mode)).

(** [if action == 'copy': safe_copy(...) elif action == 'move':
    safe_move(...)] on an element of [winners] or [duplicates]. *)
Definition copy_or_move (action : string) (file_path : option string)
  (dst : string) (keep_structure : bool) : C FS unit :=
  if String.eqb action "copy" then
    bind (Path file_path) (fun src =>
    bind (safe_copy src dst keep_structure) (fun _ => ret tt))
  else if String.eqb action "move" then
    bind (Path file_path) (fun src =>
    bind (safe_move src dst keep_structure) (fun _ => ret tt))
  else ret tt.

(** The body of the loop over the groups. *)
Definition year_of_group (config : config.Config)
  (file_to_year : dict string) (group : DuplicateGroup)
  : C FS (dict string) :=
  bind (Path (winner group)) (fun winner_path =>
  bind (get_capture_year_for_group (PathObject winner_path)
          (config.date_source_priority config)
          (config.unknown_year_dir config)
          (config.timezone_mode config)) (fun group_year =>
  let file_to_year :=
    dict_setitem (str (winner group)) group_year file_to_year in
  ret (foldl (fun d dup => dict_setitem dup group_year d) file_to_year
         (duplicates group)))).

Definition process_files (files : list string) (action : string)
  (unique_dir duplicates_dir : string) (winners : list (option string))
  (duplicates : list string) (keep_structure : bool)
  (config : option config.Config)
  (duplicate_groups : option (list DuplicateGroup)) : C FS unit :=
  if String.eqb action "dry-run" then ret tt
  else
    let plain :=
      bind
        (for_each
           (fun file_path =>
              try_log
                (copy_or_move action file_path unique_dir keep_structure))
           winners) (fun _ =>
      for_each
        (fun file_path =>
           try_log
             (copy_or_move action (Some file_path) duplicates_dir
                keep_structure))
        duplicates) in
    match config, duplicate_groups with
    | Some config, Some (group :: groups) =>
        if config.group_by_year config then
          bind (for_acc (year_of_group config) (group :: groups) [])
            (fun file_to_year =>
          bind
            (for_each
               (fun file_path =>
                  try_log
                    (let year :=
                       dict_get (str file_path)
                         (config.unknown_year_dir config) file_to_year in
                     let year_unique_dir := Path_truediv unique_dir year in
                     copy_or_move action file_path year_unique_dir
                       keep_structure))
               winners) (fun _ =>
          for_each
            (fun file_path =>
               try_log
                 (let year :=
                    dict_get file_path (config.unknown_year_dir config)
                      file_to_year in
                  let year_duplicates_dir :=
                    Path_truediv duplicates_dir year in
                  copy_or_move action (Some file_path) year_duplicates_dir
                    keep_structure))
            duplicates))
        else plain
    | _, _ => plain
    end.
End ProcessFiles.

End cli.

(** A file system that records the copies and moves made of the four
    photographs of [Example.photos], in a year that is always 2020. *)
Module ExampleFS.

Definition FS : Type := list (string * string).

Definition world_of (fs : FS) : World := Example.world Example.photos true.

Definition Path_mkdir (p : string) : M FS unit := Method.ret tt.

Definition Path_exists (p : string) (fs : FS) : result bool :=
  Ok (bool_decide (p ∈ fs.*2)).

Definition shutil_copy2 (src dst : string) : M FS unit :=
  fun fs => (Ok tt, fs ++ [(src, dst)]).

Definition Path_name (p : string) : string := Example.last_component p p.

Definition Path_truediv (p q : string) : string := p +:+ "/" +:+ q.

Definition get_capture_year (media_path : string)
  (date_priority : list string) (unknown_year_dir timezone_mode : string)
  : cli.C FS string :=
  cli.ret "2020".

Definition process_files :=
  cli.process_files FS world_of Path_mkdir Path_exists shutil_copy2
    shutil_copy2 Path_name Path_name Path_truediv get_capture_year.

(** [Config()] with [group_by_year: true]. *)
Definition by_year : config.Config :=
  {| config.inputs := ["exports"];
     config.out_dir := "out";
     config.mode := "exact";
     config.action := "copy";
     config.phash_threshold := 6;
     config.workers := 4;
     config.keep_structure := false;
     config.ignore_json := true;
     config.photos_subpath := None;
     config.group_by_year := true;
     config.unknown_year_dir := "_UNKNOWN";
     config.date_source_priority := ["takeout_json"; "exif"; "mtime"];
     config.timezone_mode := "local";
     config.reports_csv := true;
     config.reports_json := true;
     config.reports_xlsx := true |}.

End ExampleFS.

(** ** scanner.py *)

Module scanner.

Record Scanner : Type := {
  ignore_json : bool;
  detected_roots : list string;
}.

Definition Scanner_init (ignore_json : bool) : Scanner :=
  {| ignore_json := ignore_json; detected_roots := [] |}.

(** [s.endswith(suffix)] *)
Definition endswith (s suffix : string) : bool :=
  let n := String.length s in
  let k := String.length suffix in
  (k <=? n)%nat && String.eqb (String.substring (n - k) k s) suffix.

Definition patterns : list string :=
  ["Takeout/Google Fotos"; "Takeout/Google Photos";
   "Google Fotos"; "Google Photos"].

Section Scan.
Variable w : World.
(** [os.walk(top)]: the triples [(root, dirs, files)] in its order; it
    skips what it cannot list. *)
Variable os_walk : string -> list (string * list string * list string).
(** [os.path.join], [/] and
    [len(Path(root).relative_to(dir_path).parts)]. *)
Variable os_path_join : string -> string -> string.
Variable Path_truediv : string -> string -> string.
Variable relative_depth : string -> string -> nat.
(** [Path.exists] and [Path.is_dir]: they raise the [OSError] of [stat]
    unless it says that the path is not there. *)
Variable Path_exists : string -> result bool.
Variable Path_is_dir : string -> result bool.

Definition _contains_media_files (directory : string) (max_depth : nat)
  : bool :=
  existsb
    (fun '(root, dirs, files) =>
       let depth := relative_depth root directory in
       if (max_depth <? depth)%nat then false
       else
         existsb
           (fun file =>
              let file_path := os_path_join root file in
              is_supported_media w file_path)
           files)
    (os_walk directory).

(** The loop over the patterns of [auto_detect_photos_folder]: the first
    pattern whose path exists and is a directory. *)
Fixpoint detect_pattern (input_dir : string) (patterns : list string)
  : result (option string) :=
  match patterns with
  | [] => Ok None
  | pattern :: patterns' =>
      let potential_path := Path_truediv input_dir pattern in
      rbind (Path_exists potential_path) (fun found =>
      rbind (if found then Path_is_dir potential_path else Ok false)
        (fun is_dir =>
           if is_dir then Ok (Some potential_path)
           else detect_pattern input_dir patterns'))
  end.

Definition auto_detect_photos_folder (input_dir : string)
  : result (option string) :=
  rbind (detect_pattern input_dir patterns) (fun detected =>
  match detected with
  | Some potential_path => Ok (Some potential_path)
  | None =>
      if _contains_media_files input_dir 2 then Ok (Some input_dir)
      else Ok None
  end).

Definition scan_directory (self : Scanner) (root_dir : string)
  : list string :=
  foldl
    (fun media_files '(root, dirs, files) =>
       foldl
         (fun media_files file =>
            let file_path := os_path_join root file in
            if ignore_json self && endswith (str_lower w file) ".json"
            then media_files
            else if is_supported_media w file_path
            then media_files ++ [file_path]
            else media_files)
         media_files files)
    [] (os_walk root_dir).

(** The photos folder of an input; [None] when the loop goes on to the
    next input. *)
Definition photos_folder_of (photos_subpath : option string)
  (input_dir : string) : result (option string) :=
  if truthy_str photos_subpath then
    let photos_folder :=
      Path_truediv input_dir (default "" photos_subpath) in
    rbind (Path_exists photos_folder) (fun found =>
    if found then Ok (Some photos_folder) else Ok None)
  else
    rbind (auto_detect_photos_folder input_dir) (fun photos_folder =>
    if truthy_str photos_folder then Ok photos_folder else Ok None).

(** The body of the loop of [scan_inputs]. *)
Definition scan_input (photos_subpath : option string)
  (all_files : list string) (input_dir : string)
  : M Scanner (list string) :=
  (photos_folder <- lift (photos_folder_of photos_subpath input_dir) ;;
   match photos_folder with
   | None => ret all_files
   | Some photos_folder =>
       self <- get ;;
       put {| ignore_json := ignore_json self;
              detected_roots := detected_roots self ++ [photos_folder] |} ;;;
       self <- get ;;
       let files := scan_directory self photos_folder in
       ret (all_files ++ files)
   end)%method.

Definition scan_inputs (input_dirs : list string)
  (photos_subpath : option string) : M Scanner (list string) :=
  for_fold (scan_input photos_subpath) input_dirs [].

Definition get_detected_roots : M Scanner (list string) :=
  (self <- get ;; ret (detected_roots self))%method.
End Scan.

End scanner.

(** A folder of four files, found under every name but those that start
    with [locked], whose [stat] is refused. *)
Module ExampleScan.

Definition os_walk (top : string)
  : list (string * list string * list string) :=
  [(top, [], ["a.jpg"; "a.jpg.json"; "clip.mp4"; "notes.txt"])].

Definition os_path_join (p q : string) : string := p +:+ "/" +:+ q.

Definition relative_depth (root top : string) : nat := 0.

Definition Path_exists (p : string) : result bool :=
  if String.prefix "locked" p then Raise OSError else Ok false.

Definition Path_is_dir (p : string) : result bool := Ok false.

Definition scan_inputs :=
  scanner.scan_inputs (Example.world Example.photos true) os_walk
    os_path_join os_path_join relative_depth Path_exists Path_is_dir.

End ExampleScan.

(** Two images that differ in three bits of their fingerprints; both
    decode and have a size, but the bytes of [x.png] cannot be read to
    the end, so its digest raises. *)
Definition undigested : list Example.File :=
  [{| Example.f_path := "x.png";
      Example.f_sha256 := Raise OSError;
      Example.f_size := Ok 700;
      Example.f_dims := Ok (10, 10);
      Example.f_phash := Ok "0000000000000000" |};
   Example.image "y.png" "e2" 700 10 10 "0000000000000007"].

(** ** reporters.py: the rows of the CSV report *)

Module reporters.

(** The values written to a cell: a string, an integer or [None]. *)
Inductive cell : Type :=
| Str (s : string)
| Int (n : Z)
| PyNone.

Definition of_int (x : option Z) : cell :=
  match x with
  | Some n => Int n
  | None => PyNone
  end.

(** [metadata.get(key, default)]: the dictionary of a group not yet
    filled in is empty, the others have every key. *)
Definition get (metadata : option FileMetadata)
  (key : FileMetadata -> cell) (default : cell) : cell :=
  match metadata with
  | Some md => key md
  | None => default
  end.

Record Row : Type := {
  row_group_id : Z;
  row_detection_type : string;
  winner_path : option string;
  winner_sha256 : cell;
  winner_width : cell;
  winner_height : cell;
  winner_bytes : cell;
  duplicate_path : string;
  duplicate_sha256 : cell;
  duplicate_width : cell;
  duplicate_height : cell;
  duplicate_bytes : cell;
  row_phash_distance : cell;
  row_reason : string;
}.

(** The dictionary [row] of one duplicate of a group. *)
Definition row (group : DuplicateGroup) (dup_path : string)
  (dup_meta : FileMetadata) : Row :=
  {| row_group_id := group_id group;
     row_detection_type := detection_type group;
     winner_path := winner group;
     winner_sha256 :=
       get (winner_metadata group) (fun md => Str (md_sha256 md)) (Str "");
     winner_width :=
       get (winner_metadata group) (fun md => of_int (md_width md))
         (Str "");
     winner_height :=
       get (winner_metadata group) (fun md => of_int (md_height md))
         (Str "");
     winner_bytes :=
       get (winner_metadata group) (fun md => Int (md_size md)) (Str "");
     duplicate_path := dup_path;
     duplicate_sha256 := Str (md_sha256 dup_meta);
     duplicate_width := of_int (md_width dup_meta);
     duplicate_height := of_int (md_height dup_meta);
     duplicate_bytes := Int (md_size dup_meta);
     row_phash_distance :=
       match phash_distance group with
       | Some distance => Int distance
       | None => Str ""
       end;
     row_reason := reason group |}.

(** The body of the loop over [enumerate(group.duplicates)]. *)
Definition row_of (group : DuplicateGroup) (entry : nat * string)
  : result Row :=
  let '(i, dup_path) := entry in
  rbind (list_getitem (duplicate_metadata group) i) (fun dup_meta =>
  Ok (row group dup_path dup_meta)).

(** The rows [generate_csv_report] writes after the header. *)
Definition csv_rows (groups : list DuplicateGroup) : result (list Row) :=
  rfor_fold
    (fun rows group =>
       rfor_fold
         (fun rows entry =>
            rbind (row_of group entry) (fun row => Ok (rows ++ [row])))
         (enumerate (duplicates group)) rows)
    groups [].

End reporters.


(** * Properties *)

(** ** The method monad *)

Lemma set_hash_calc_same d : set_hash_calc (hash_calc d) d = d.
Proof. by destruct d. Qed.

Lemma rfor_fold_total {A B} (g : B -> A -> B) (body : B -> A -> result B)
  (l : list A) (acc : B) :
  (∀ b x, body b x = Ok (g b x)) →
  rfor_fold body l acc = Ok (foldl g acc l).
Proof.
  intros Hbody. revert acc.
  induction l as [|x l IH]; intros acc; simpl; [done|].
  rewrite Hbody. simpl. apply IH.
Qed.

Section Runs.
Variable w : World.
Variable sha : string -> result string.
Variable ph : string -> option string.

Local Abbreviation agrees := (agrees w sha ph).
Local Abbreviation computes := (computes w sha ph).

Lemma computes_ret {A} (a : A) : computes (ret a) (Ok a).
Proof.
  intros d Hd. exists (hash_calc d).
  by rewrite set_hash_calc_same.
Qed.

Lemma computes_lift {A} (r : result A) : computes (lift r) r.
Proof.
  intros d Hd. exists (hash_calc d).
  by rewrite set_hash_calc_same.
Qed.

Lemma computes_bind {A B} (m : M Deduplicator A) (k : A -> M Deduplicator B)
  (r : result A) (k' : A -> result B) :
  computes m r →
  (∀ a, r = Ok a → computes (k a) (k' a)) →
  computes (bind m k) (rbind r k').
Proof.
  intros Hm Hk d Hd.
  destruct (Hm d Hd) as (hc1 & Hhc1 & E1).
  unfold bind. rewrite E1.
  destruct r as [a|e]; simpl.
  - destruct (Hk a eq_refl (set_hash_calc hc1 d)) as (hc2 & Hhc2 & E2);
      [done|].
    exists hc2. by rewrite E2.
  - by exists hc1.
Qed.

Lemma computes_try_except {A} (m : M Deduplicator A)
  (h : exn -> M Deduplicator A) (r : result A) (h' : exn -> result A) :
  computes m r →
  (∀ e, r = Raise e → computes (h e) (h' e)) →
  computes (try_except m h)
    (match r with Ok a => Ok a | Raise e => h' e end).
Proof.
  intros Hm Hh d Hd.
  destruct (Hm d Hd) as (hc1 & Hhc1 & E1).
  unfold try_except. rewrite E1.
  destruct r as [a|e].
  - by exists hc1.
  - destruct (Hh e eq_refl (set_hash_calc hc1 d)) as (hc2 & Hhc2 & E2);
      [done|].
    exists hc2. by rewrite E2.
Qed.

Lemma computes_for_fold {A B} (body : B -> A -> M Deduplicator B)
  (body' : B -> A -> result B) (l : list A) (acc : B) :
  (∀ b x, x ∈ l → computes (body b x) (body' b x)) →
  computes (for_fold body l acc) (rfor_fold body' l acc).
Proof.
  revert acc. induction l as [|x l IH]; intros acc Hbody; simpl.
  - apply computes_ret.
  - apply computes_bind.
    + apply Hbody. left.
    + intros b _. apply IH. intros b' y Hy. apply Hbody. by right.
Qed.

Lemma computes_for_list {A B} (f : A -> M Deduplicator B)
  (f' : A -> result B) (l : list A) :
  (∀ x, computes (f x) (f' x)) →
  computes (for_list f l) (rfor_list f' l).
Proof.
  intros Hf. induction l as [|x l IH]; simpl.
  - apply computes_ret.
  - apply computes_bind; [apply Hf|]. intros y _.
    apply computes_bind; [apply IH|]. intros ys _.
    apply computes_ret.
Qed.

(** *** hashing.py *)

Lemma get_sha256_agrees hc file_path :
  agrees hc →
  ∃ hc', agrees hc' ∧ get_sha256 w file_path true hc = (sha file_path, hc').
Proof.
  intros [Hsha Hph].
  unfold get_sha256, bind, get, try_except, lift, put, ret, raise.
  specialize (Hsha file_path) as Hf. unfold sha_view in Hf.
  destruct (sha256_cache hc !! file_path) as [cached|] eqn:Hc.
  - exists hc. by rewrite <- Hf.
  - rewrite Hf. destruct (sha file_path) as [h|e] eqn:Hs.
    + eexists. split; [|reflexivity].
      split; [|done].
      intros f. unfold sha_view. simpl.
      destruct (decide (file_path = f)) as [->|Hne].
      * rewrite lookup_insert_eq. congruence.
      * rewrite lookup_insert_ne by done. apply Hsha.
    + by exists hc.
Qed.

Lemma get_phash_agrees hc file_path :
  agrees hc →
  ∃ hc', agrees hc'
         ∧ get_phash w file_path true hc = (Ok (ph file_path), hc').
Proof.
  intros [Hsha Hph].
  unfold get_phash, bind, get, try_except, lift, put, ret.
  specialize (Hph file_path) as Hf. unfold phash_view in Hf.
  destruct (IMAGEHASH_AVAILABLE w) eqn:Hav; simpl in *;
    [|exists hc; by rewrite <- Hf].
  destruct (is_supported_image w file_path) eqn:Hsup; simpl in *;
    [|exists hc; by rewrite <- Hf].
  destruct (phash_cache hc !! file_path) as [cached|] eqn:Hc.
  - exists hc. by rewrite <- Hf.
  - destruct (Image_phash w file_path) as [h|e] eqn:Hp.
    + eexists. split; [|by rewrite <- Hf].
      split; [done|].
      intros f. unfold phash_view. simpl. rewrite Hav. simpl.
      destruct (decide (file_path = f)) as [->|Hne].
      * rewrite lookup_insert_eq, Hsup. simpl. congruence.
      * rewrite lookup_insert_ne by done.
        specialize (Hph f). unfold phash_view in Hph.
        by rewrite Hav in Hph.
    + exists hc. by rewrite <- Hf.
Qed.

Lemma computes_on_hash_calc {A} (m : M HashCalculator A) (r : result A) :
  (∀ hc, agrees hc → ∃ hc', agrees hc' ∧ m hc = (r, hc')) →
  computes (on_hash_calc m) r.
Proof.
  intros Hm d Hd. destruct (Hm _ Hd) as (hc' & Hhc' & E).
  exists hc'. unfold on_hash_calc, zoom. by rewrite E.
Qed.

Lemma computes_get_sha256 file_path :
  computes (on_hash_calc (get_sha256 w file_path true)) (sha file_path).
Proof.
  apply computes_on_hash_calc. intros hc. apply get_sha256_agrees.
Qed.

Lemma computes_get_phash file_path :
  computes (on_hash_calc (get_phash w file_path true)) (Ok (ph file_path)).
Proof.
  apply computes_on_hash_calc. intros hc. apply get_phash_agrees.
Qed.
End Runs.

(** ** The methods of [Deduplicator] compute the functional model *)

Section EngineRuns.
Variable w : World.
Variable sha : string -> result string.
Variable ph : string -> option string.

Local Abbreviation agrees := (agrees w sha ph).
Local Abbreviation computes := (computes w sha ph).

Lemma computes_find_exact_duplicates files :
  computes (find_exact_duplicates w files) (Ok (exact_groups sha files)).
Proof.
  unfold find_exact_duplicates.
  change (Ok (exact_groups sha files))
    with (rbind (Ok (exact_buckets sha files))
            (fun h => Ok (filter (fun group => (1 <? length group)%nat)
                            (dict_values h)))).
  apply computes_bind; [|intros; apply computes_ret].
  unfold exact_buckets.
  rewrite <- (rfor_fold_total (bucket_step sha)
                (fun h f => Ok (bucket_step sha h f))) by done.
  apply computes_for_fold. intros h f _.
  replace (Ok (bucket_step sha h f))
    with (match rbind (sha f) (fun file_hash =>
                  Ok (defaultdict_append file_hash f h)) with
          | Ok a => Ok a
          | Raise _ => Ok h
          end)
    by (unfold bucket_step; by destruct (sha f)).
  apply (computes_try_except w sha ph _ _ _ (fun _ => Ok h)).
  - apply computes_bind; [apply computes_get_sha256|].
    intros; apply computes_ret.
  - intros; apply computes_ret.
Qed.

Lemma computes_fingerprints files :
  computes
    (for_fold
       (fun (file_hashes : dict string) file_path =>
          bind (on_hash_calc (get_phash w file_path true)) (fun phash =>
          match phash with
          | Some h =>
              if truthy_str phash then ret (dict_setitem file_path h file_hashes)
              else ret file_hashes
          | None => ret file_hashes
          end))
       (filter (fun f => is_supported_image w f) files) [])
    (Ok (fingerprints w ph files)).
Proof.
  unfold fingerprints.
  rewrite <- (rfor_fold_total (fingerprint_step ph)
                (fun h f => Ok (fingerprint_step ph h f))) by done.
  apply computes_for_fold. intros h f _.
  replace (Ok (fingerprint_step ph h f))
    with (rbind (Ok (ph f)) (fun phash =>
          match phash with
          | Some h' =>
              if truthy_str (Some h') then Ok (dict_setitem f h' h) else Ok h
          | None => Ok h
          end)).
  - apply computes_bind; [apply computes_get_phash|].
    intros [h'|] _; [|apply computes_ret].
    destruct (truthy_str (Some h')); apply computes_ret.
  - unfold fingerprint_step. simpl.
    destruct (ph f) as [h'|]; [|done].
    by destruct (negb _).
Qed.

Lemma find_perceptual_duplicates_run files d :
  agrees (hash_calc d) →
  ∃ hc', agrees hc'
         ∧ find_perceptual_duplicates w files d
           = (perceptual_groups w ph (phash_threshold d) files,
              set_hash_calc hc' d).
Proof.
  intros Hd.
  destruct (computes_fingerprints files d Hd) as (hc' & Hhc' & E).
  exists hc'. split; [done|].
  unfold find_perceptual_duplicates, bind at 1. rewrite E.
  reflexivity.
Qed.

Lemma computes_get_file_metadata file_path :
  computes (_get_file_metadata w file_path) (file_metadata w sha file_path).
Proof.
  unfold _get_file_metadata, file_metadata.
  destruct (get_image_dimensions w file_path) as [width height].
  apply computes_bind; [apply computes_lift|]. intros size _.
  apply computes_bind; [apply computes_get_sha256|]. intros digest _.
  apply computes_ret.
Qed.

(** One turn of either loop appends the group of the model, or raises and
    appends nothing. *)
Lemma emit_group_run dtype next_id group_files distance d :
  agrees (hash_calc d) →
  ∃ hc', agrees hc'
    ∧ emit_group w dtype next_id group_files distance d
      = match build_group w sha dtype next_id group_files distance with
        | Ok g =>
            (Ok (next_id + 1),
             set_duplicate_groups (duplicate_groups d ++ [g])
               (set_hash_calc hc' d))
        | Raise e => (Raise e, set_hash_calc hc' d)
        end.
Proof.
  intros Hd. unfold emit_group, build_group.
  unfold bind at 1, lift at 1.
  destruct (select_winner w group_files) as [[winner_path reason_text]|e];
    simpl; [|exists (hash_calc d); by rewrite set_hash_calc_same].
  unfold bind at 1.
  destruct (computes_get_file_metadata winner_path d Hd)
    as (hc1 & Hhc1 & E1).
  rewrite E1.
  destruct (file_metadata w sha winner_path) as [winner_md|e]; simpl;
    [|by exists hc1].
  unfold bind at 1.
  destruct (computes_for_list w sha ph _ _
              (filter (fun f => f ≠ winner_path) group_files)
              (computes_get_file_metadata) (set_hash_calc hc1 d))
    as (hc2 & Hhc2 & E2); [done|].
  rewrite E2.
  destruct (rfor_list _ _) as [dup_md|e]; simpl; [|by exists hc2].
  exists hc2. split; [done|].
  destruct distance; reflexivity.
Qed.

(** The exact-pass loop. *)
Lemma emit_loop_run dtype (candidates : list (list string * option Z))
  next_id d :
  agrees (hash_calc d) →
  ∃ hc', agrees hc'
    ∧ for_fold
        (fun next_id (c : list string * option Z) =>
           emit_group w dtype next_id (fst c) (snd c))
        candidates next_id d
      = (snd (build_groups w sha dtype next_id candidates),
         set_duplicate_groups
           (duplicate_groups d
              ++ fst (build_groups w sha dtype next_id candidates))
           (set_hash_calc hc' d)).
Proof.
  revert next_id d.
  induction candidates as [|[group_files distance] candidates IH];
    intros next_id d Hd; simpl.
  - exists (hash_calc d). split; [done|].
    unfold ret. rewrite app_nil_r. by destruct d.
  - destruct (emit_group_run dtype next_id group_files distance d Hd)
      as (hc1 & Hhc1 & E1).
    unfold bind. rewrite E1.
    destruct (build_group w sha dtype next_id group_files distance)
      as [g|e]; simpl.
    + destruct (IH (next_id + 1)
                  (set_duplicate_groups (duplicate_groups d ++ [g])
                     (set_hash_calc hc1 d)))
        as (hc2 & Hhc2 & E2); [done|].
      exists hc2. split; [done|].
      rewrite E2.
      destruct (build_groups w sha dtype (next_id + 1) candidates)
        as [groups r]; simpl.
      by rewrite <- app_assoc.
    + exists hc1. split; [done|]. by rewrite app_nil_r.
Qed.
End EngineRuns.

Lemma for_fold_fmap {S A A' B} (f : A -> A') (body1 : B -> A -> M S B)
  (body2 : B -> A' -> M S B) (l : list A) (acc : B) (s : S) :
  (∀ b x, body1 b x = body2 b (f x)) →
  for_fold body1 l acc s = for_fold body2 (f <$> l) acc s.
Proof.
  intros Hbody. revert acc s.
  induction l as [|x l IH]; intros acc s; simpl; [done|].
  unfold bind. rewrite Hbody.
  destruct (body2 acc (f x) s) as [[acc'|e] s']; [apply IH | done].
Qed.

Section WholeRun.
Variable w : World.
Variable sha : string -> result string.
Variable ph : string -> option string.

Local Abbreviation agrees := (agrees w sha ph).

Lemma exact_pass_run (m : string) files d :
  agrees (hash_calc d) →
  ∃ hc', agrees hc'
    ∧ (if bool_decide (m ∈ ["exact"; "exact+perceptual"]) then
         bind (find_exact_duplicates w files) (fun exact_groups =>
         for_fold
           (fun next_id group_files =>
              emit_group w "exact" next_id group_files None)
           exact_groups 0)
       else ret 0) d
      = (snd (exact_pass w sha m files),
         set_duplicate_groups
           (duplicate_groups d ++ fst (exact_pass w sha m files))
           (set_hash_calc hc' d)).
Proof.
  intros Hd. unfold exact_pass.
  destruct (bool_decide (m ∈ ["exact"; "exact+perceptual"])).
  - destruct (computes_find_exact_duplicates w sha ph files d Hd)
      as (hc1 & Hhc1 & E1).
    unfold bind. rewrite E1.
    rewrite (for_fold_fmap (fun g => (g, None)) _
               (fun next_id (c : list string * option Z) =>
                  emit_group w "exact" next_id (fst c) (snd c)))
      by done.
    destruct (emit_loop_run w sha ph "exact"
                ((fun g => (g, None)) <$> exact_groups sha files) 0
                (set_hash_calc hc1 d))
      as (hc2 & Hhc2 & E2); [done|].
    exists hc2. split; [done|]. by rewrite E2.
  - exists (hash_calc d). split; [done|]. simpl. unfold ret.
    rewrite app_nil_r. by destruct d.
Qed.

Lemma perceptual_pass_run (m : string) files next_id d :
  agrees (hash_calc d) →
  ∃ hc', agrees hc'
    ∧ (if bool_decide (m ∈ ["perceptual"; "exact+perceptual"]) then
         bind get (fun self =>
         let processed_files : gset (option string) :=
           foldl
             (fun processed_files group =>
                processed_files ∪ {[ winner group ]}
                  ∪ list_to_set (Some <$> duplicates group))
             ∅ (duplicate_groups self) in
         let remaining_files :=
           filter (fun f => Some f ∉ processed_files) files in
         bind (find_perceptual_duplicates w remaining_files)
           (fun perceptual_groups =>
         for_fold
           (fun next_id '(group_files, distance) =>
              emit_group w "perceptual" next_id group_files (Some distance))
           perceptual_groups next_id))
       else ret next_id) d
      = (snd (perceptual_pass w sha ph m (phash_threshold d) files
                (duplicate_groups d) next_id),
         set_duplicate_groups
           (duplicate_groups d
              ++ fst (perceptual_pass w sha ph m (phash_threshold d) files
                        (duplicate_groups d) next_id))
           (set_hash_calc hc' d)).
Proof.
  intros Hd. unfold perceptual_pass.
  destruct (bool_decide (m ∈ ["perceptual"; "exact+perceptual"])).
  - unfold bind at 1, get. cbv zeta.
    fold (processed_files_of (duplicate_groups d)).
    fold (remaining_files_of (duplicate_groups d) files).
    destruct (find_perceptual_duplicates_run w sha ph
                (remaining_files_of (duplicate_groups d) files) d Hd)
      as (hc1 & Hhc1 & E1).
    unfold bind. rewrite E1.
    destruct (perceptual_groups w ph (phash_threshold d)
                (remaining_files_of (duplicate_groups d) files))
      as [clusters|e]; simpl.
    + rewrite (for_fold_fmap (fun '(g, dist) => (g, Some dist)) _
                 (fun next_id (c : list string * option Z) =>
                    emit_group w "perceptual" next_id (fst c) (snd c)))
        by (by intros b [g dist]).
      destruct (emit_loop_run w sha ph "perceptual"
                  ((fun '(g, dist) => (g, Some dist)) <$> clusters) next_id
                  (set_hash_calc hc1 d))
        as (hc2 & Hhc2 & E2); [done|].
      exists hc2. split; [done|]. by rewrite E2.
    + exists hc1. split; [done|]. by rewrite app_nil_r.
  - exists (hash_calc d). split; [done|]. simpl. unfold ret.
    rewrite app_nil_r. by destruct d.
Qed.

(** [create_duplicate_groups], from caches that agree with the view, ends as
    the functional model says and leaves [self.duplicate_groups] as it
    says, the caches still in agreement. *)
Lemma create_duplicate_groups_run files d :
  agrees (hash_calc d) →
  ∃ hc', agrees hc'
    ∧ create_duplicate_groups w files d
      = (engine_result w sha ph (mode d) (phash_threshold d) files,
         set_duplicate_groups
           (fst (engine w sha ph (mode d) (phash_threshold d) files))
           (set_hash_calc hc' d)).
Proof.
  intros Hd. unfold create_duplicate_groups, engine_result, engine.
  unfold bind at 1, get at 1. unfold bind at 1, put at 1.
  unfold bind at 1.
  destruct (exact_pass_run (mode d) files (set_duplicate_groups [] d) Hd)
    as (hc1 & Hhc1 & E1).
  rewrite E1. simpl duplicate_groups. rewrite app_nil_l.
  destruct (exact_pass w sha (mode d) files) as [exact r1]; simpl.
  destruct r1 as [next_id|e]; [|by exists hc1].
  unfold bind at 1.
  destruct (perceptual_pass_run (mode d) files next_id
              (set_duplicate_groups exact (set_hash_calc hc1 d)))
    as (hc2 & Hhc2 & E2); [done|].
  cbv zeta in E2.
  change (set_duplicate_groups exact
            (set_hash_calc hc1 (set_duplicate_groups [] d)))
    with (set_duplicate_groups exact (set_hash_calc hc1 d)).
  rewrite E2. simpl duplicate_groups. simpl phash_threshold.
  destruct (perceptual_pass w sha ph (mode d) (phash_threshold d) files
              exact next_id) as [perceptual r2]; simpl.
  exists hc2. split; [done|].
  destruct r2 as [n|e]; reflexivity.
Qed.
End WholeRun.

(** ** Sorting *)

Section SortFacts.
Context {A : Type} (lt : A -> A -> bool).

Lemma insort_perm x l : insort lt x l ≡ₚ x :: l.
Proof.
  induction l as [|y l IH]; simpl; [done|].
  destruct (lt y x); [|done].
  rewrite IH. apply Permutation_swap.
Qed.

Lemma sort_with_perm l : sort_with lt l ≡ₚ l.
Proof.
  induction l as [|x l IH]; simpl; [done|].
  by rewrite insort_perm, IH.
Qed.

Lemma sort_with_length l : length (sort_with lt l) = length l.
Proof. apply Permutation_length, sort_with_perm. Qed.

Hypothesis lt_asym : ∀ x y, lt x y = true → lt y x = false.
Hypothesis le_trans :
  ∀ x y z, lt y x = false → lt z y = false → lt z x = false.

Lemma insort_sorted x l :
  StronglySorted (fun a b => lt b a = false) l →
  StronglySorted (fun a b => lt b a = false) (insort lt x l).
Proof.
  induction 1 as [|y l Hl IH Hy]; simpl.
  - repeat constructor.
  - destruct (lt y x) eqn:Hyx.
    + constructor; [done|].
      rewrite insort_perm. constructor; [by apply lt_asym | done].
    + constructor; [by constructor|].
      constructor; [done|].
      eapply Forall_impl; [exact Hy|].
      intros z Hz. simpl in Hz. by eapply le_trans.
Qed.

Lemma sort_with_sorted l :
  StronglySorted (fun a b => lt b a = false) (sort_with lt l).
Proof.
  induction l as [|x l IH]; simpl; [constructor|].
  by apply insort_sorted.
Qed.
End SortFacts.

Lemma str_lt_false_iff s1 s2 :
  str_lt s1 s2 = false ↔ s2 = s1 ∨ String_as_OT.lt s2 s1.
Proof.
  unfold str_lt.
  destruct (String_as_OT.compare_spec s1 s2) as [->|Hlt|Hgt].
  - split; [by left | done].
  - split; [done|]. intros [->|Hgt].
    + by apply (irreflexivity String_as_OT.lt) in Hlt.
    + exfalso. apply (irreflexivity String_as_OT.lt s1).
      by etransitivity.
  - split; [by right | done].
Qed.

Lemma candidate_lt_false_iff a b :
  candidate_lt a b = false ↔ ranked_before b a.
Proof.
  unfold candidate_lt, sort_key, key_lt, ranked_before.
  destruct (Z.eqb_spec (- c_resolution a) (- c_resolution b)) as [Hr|Hr];
    simpl.
  - destruct (Z.eqb_spec (- c_size a) (- c_size b)) as [Hs|Hs]; simpl.
    + rewrite str_lt_false_iff. split.
      * intros H. right. split; [lia|]. right. split; [lia|done].
      * intros [?|[_ [?|[_ H]]]]; [lia|lia|done].
    + rewrite Z.ltb_ge. split.
      * intros H. right. split; [lia|]. left. lia.
      * intros [?|[_ [?|[? _]]]]; lia.
  - rewrite Z.ltb_ge. split.
    + intros H. left. lia.
    + intros [?|[? _]]; lia.
Qed.

Lemma ranked_before_total a b : ranked_before a b ∨ ranked_before b a.
Proof.
  unfold ranked_before.
  destruct (Z.lt_trichotomy (c_resolution a) (c_resolution b))
    as [?|[Hr|?]]; [right; left; lia| |left; left; lia].
  destruct (Z.lt_trichotomy (c_size a) (c_size b))
    as [?|[Hs|?]];
    [right; right; split; [lia|left; lia]|
    |left; right; split; [lia|left; lia]].
  destruct (String_as_OT.compare_spec (c_path a) (c_path b)) as [Hp|Hp|Hp].
  - left. right. split; [done|]. right. split; [done|]. by left.
  - left. right. split; [done|]. right. split; [done|]. by right.
  - right. right. split; [done|]. right. split; [done|]. by right.
Qed.

Lemma ranked_before_trans a b c :
  ranked_before a b → ranked_before b c → ranked_before a c.
Proof.
  unfold ranked_before.
  intros [?|[Hr1 [?|[Hs1 Hp1]]]] [?|[Hr2 [?|[Hs2 Hp2]]]];
    try (left; lia); try (right; split; [lia|]; left; lia).
  right. split; [lia|]. right. split; [lia|].
  destruct Hp1 as [->|Hp1], Hp2 as [<-|Hp2]; eauto.
  right. by etransitivity.
Qed.

Lemma candidate_lt_asym a b :
  candidate_lt a b = true → candidate_lt b a = false.
Proof.
  intros Hab. apply candidate_lt_false_iff.
  destruct (ranked_before_total a b) as [H|H]; [done|].
  apply candidate_lt_false_iff in H. congruence.
Qed.

Lemma candidate_le_trans a b c :
  candidate_lt b a = false → candidate_lt c b = false →
  candidate_lt c a = false.
Proof.
  rewrite !candidate_lt_false_iff. apply ranked_before_trans.
Qed.

Lemma sort_candidates_sorted l :
  StronglySorted ranked_before (sort_with candidate_lt l).
Proof.
  eapply StronglySorted_ind with
    (P := fun l => StronglySorted ranked_before l);
    [constructor| |apply (sort_with_sorted candidate_lt candidate_lt_asym
                            candidate_le_trans l)].
  intros a l' _ IH Ha. constructor; [done|].
  eapply Forall_impl; [exact Ha|].
  intros b Hb. by apply candidate_lt_false_iff.
Qed.

(** ** Selecting the winner *)

Lemma rfor_list_Forall2 {A B} (f : A -> result B) l ys :
  rfor_list f l = Ok ys → Forall2 (fun x y => f x = Ok y) l ys.
Proof.
  revert ys. induction l as [|x l IH]; intros ys; simpl.
  - intros [= <-]. constructor.
  - destruct (f x) as [y|] eqn:Hx; simpl; [|done].
    destruct (rfor_list f l) as [ys'|]; simpl; [|done].
    intros [= <-]. constructor; auto.
Qed.

Lemma rfor_list_length {A B} (f : A -> result B) l ys :
  rfor_list f l = Ok ys → length ys = length l.
Proof.
  intros H. apply rfor_list_Forall2 in H.
  symmetry. by eapply Forall2_length.
Qed.

Lemma rfor_list_perm {A B} (f : A -> result B) l l' ys :
  l ≡ₚ l' → rfor_list f l = Ok ys →
  ∃ ys', rfor_list f l' = Ok ys' ∧ ys ≡ₚ ys'.
Proof.
  intros Hp. revert ys.
  induction Hp as [|x l l' Hp IH|x y l|l1 l2 l3 Hp1 IH1 Hp2 IH2];
    intros ys; simpl.
  - intros [= <-]. by exists [].
  - destruct (f x) as [c|]; simpl; [|done].
    destruct (rfor_list f l) as [cs|]; simpl; [|done].
    intros [= <-]. destruct (IH cs eq_refl) as (cs' & -> & Hcs).
    exists (c :: cs'). split; [done|]. by constructor.
  - destruct (f y) as [cy|]; simpl; [|done].
    destruct (f x) as [cx|]; simpl; [|done].
    destruct (rfor_list f l) as [cs|]; simpl; [|done].
    intros [= <-]. exists (cx :: cy :: cs). split; [done|]. constructor.
  - intros H1. destruct (IH1 _ H1) as (ys2 & H2 & Hp12).
    destruct (IH2 _ H2) as (ys3 & H3 & Hp23).
    exists ys3. split; [done|]. by etransitivity.
Qed.

Lemma rfor_list_total {A B} (f : A -> result B) l :
  Forall (fun x => is_Ok (f x) = true) l → ∃ ys, rfor_list f l = Ok ys.
Proof.
  induction 1 as [|x l Hx _ [ys IH]]; simpl; [by exists []|].
  destruct (f x) as [y|]; [|done]. rewrite IH. by eexists.
Qed.

Section Winner.
Variable w : World.

Lemma candidate_of_spec file_path c :
  candidate_of w file_path = Ok c →
  c_path c = file_path
  ∧ get_file_size w file_path = Ok (c_size c)
  ∧ (c_width c, c_height c) = get_image_dimensions w file_path
  ∧ c_resolution c
    = match Image_size w file_path with
      | Ok (width, height) => width * height
      | Raise _ => 0
      end.
Proof.
  unfold candidate_of, get_image_dimensions.
  destruct (Image_size w file_path) as [[width height]|];
    destruct (get_file_size w file_path) as [size|]; simpl; try done;
    intros [= <-]; simpl; repeat split; try done.
  unfold resolution_of. simpl.
  destruct (Z.eqb_spec width 0) as [->|]; simpl; [done|].
  destruct (Z.eqb_spec height 0) as [->|]; simpl; [lia|done].
Qed.

Lemma candidate_of_total file_path :
  is_Ok (candidate_of w file_path) = is_Ok (get_file_size w file_path).
Proof.
  unfold candidate_of.
  destruct (get_image_dimensions w file_path) as [width height].
  by destruct (get_file_size w file_path).
Qed.

Lemma reason_for_eq first second :
  (if c_resolution first >? c_resolution second then
     "highest resolution (" +:+ str_opt_int (c_width first) +:+ "x"
       +:+ str_opt_int (c_height first) +:+ ")"
   else if c_size first >? c_size second then
     "largest file size (" +:+ str_int (c_size first) +:+ " bytes)"
   else "alphabetically first path")
  = reason_for first second.
Proof.
  unfold reason_for.
  rewrite !Z.gtb_ltb.
  destruct (Z.ltb_spec (c_resolution second) (c_resolution first)).
  { rewrite bool_decide_eq_true_2 by lia. done. }
  rewrite bool_decide_eq_false_2 by lia.
  destruct (Z.ltb_spec (c_size second) (c_size first)).
  { rewrite bool_decide_eq_true_2 by lia. done. }
  rewrite bool_decide_eq_false_2 by lia. done.
Qed.

(** With two files or more, the winner is the head of the candidates put in
    ranking order. *)
Lemma select_winner_sorted files cands :
  (2 <= length files)%nat →
  rfor_list (candidate_of w) files = Ok cands →
  ∃ first second rest,
    first :: second :: rest ≡ₚ cands
    ∧ StronglySorted ranked_before (first :: second :: rest)
    ∧ select_winner w files = Ok (c_path first, reason_for first second).
Proof.
  intros Hlen Hcands.
  assert (Hsel : select_winner w files
    = rbind (rfor_list (candidate_of w) (sorted files)) (fun file_metadata =>
      let file_metadata := sort_with candidate_lt file_metadata in
      rbind (list_getitem file_metadata 0) (fun winner =>
      rbind (list_getitem file_metadata 1) (fun second =>
      Ok (c_path winner, reason_for winner second))))).
  { clear Hcands.
    destruct files as [|a [|b files]]; simpl in Hlen; [lia|lia|].
    unfold select_winner.
    destruct (rfor_list _ _) as [md|]; simpl; [|done].
    destruct (list_getitem _ 0) as [c1|]; simpl; [|done].
    destruct (list_getitem _ 1) as [c2|]; simpl; [|done].
    by rewrite reason_for_eq. }
  rewrite Hsel. clear Hsel.
  destruct (rfor_list_perm (candidate_of w) files (sorted files) cands)
    as (cands' & -> & Hperm); [|done|].
  { symmetry. apply sort_with_perm. }
  simpl.
  pose proof (sort_with_perm candidate_lt cands') as Hperm'.
  pose proof (sort_candidates_sorted cands') as Hsorted.
  assert (Hl : length (sort_with candidate_lt cands') = length files).
  { rewrite sort_with_length. apply Permutation_length in Hperm.
    rewrite <- Hperm. by eapply rfor_list_length. }
  destruct (sort_with candidate_lt cands') as [|first [|second rest]];
    simpl in Hl; [lia|lia|].
  exists first, second, rest. split; [by etransitivity|]. done.
Qed.

(** The winner is one of the files. *)
Lemma select_winner_elem files winner_path reason_text :
  select_winner w files = Ok (winner_path, reason_text) →
  winner_path ∈ files.
Proof.
  unfold select_winner.
  destruct files as [|a [|b files]].
  - by simpl.
  - intros [= <- _]. by left.
  - set (l := a :: b :: files).
    destruct (rfor_list _ _) as [md|] eqn:Hmd; simpl; [|done].
    destruct (list_getitem _ 0) as [c1|] eqn:H0; simpl; [|done].
    destruct (list_getitem _ 1) as [c2|]; simpl; [|done].
    intros [= <- _].
    unfold list_getitem in H0.
    destruct (sort_with candidate_lt md !! 0%nat) as [c|] eqn:Hc;
      [|done].
    injection H0 as ->.
    apply list_elem_of_lookup_2 in Hc.
    rewrite sort_with_perm in Hc.
    apply rfor_list_Forall2 in Hmd.
    destruct (proj1 (list_elem_of_lookup _ _) Hc) as [i Hi].
    destruct (Forall2_lookup_r _ _ _ _ _ Hmd Hi) as (f & Hf & Hfc).
    apply candidate_of_spec in Hfc as [-> _].
    apply list_elem_of_lookup_2 in Hf.
    unfold sorted in Hf. by rewrite sort_with_perm in Hf.
Qed.
End Winner.

(** ** Dictionaries *)

Section DictFacts.
Context {V : Type}.
Implicit Types d : dict V.

Lemma dict_getitem_elem k v d :
  NoDup (dict_keys d) → (k, v) ∈ d → dict_getitem k d = Ok v.
Proof.
  induction d as [|[k' v'] d IH]; simpl; [by intros _ ?%elem_of_nil|].
  rewrite NoDup_cons. intros [Hk' Hd] Hin.
  apply elem_of_cons in Hin as [[= -> ->]|Hin].
  - by rewrite String.eqb_refl.
  - destruct (String.eqb_spec k' k) as [->|_]; [|by apply IH].
    exfalso. apply Hk'. apply list_elem_of_fmap. by exists (k, v).
Qed.

Lemma dict_setitem_keys k v d :
  dict_keys (dict_setitem k v d)
  = if bool_decide (k ∈ dict_keys d) then dict_keys d
    else dict_keys d ++ [k].
Proof.
  induction d as [|[k' v'] d IH]; simpl; [done|].
  destruct (String.eqb_spec k' k) as [->|Hne]; simpl.
  - rewrite bool_decide_eq_true_2; [done | by left].
  - unfold dict_keys in *. rewrite IH.
    destruct (bool_decide (k ∈ d.*1)) eqn:Hk.
    + apply bool_decide_eq_true in Hk.
      rewrite bool_decide_eq_true_2; [done | by right].
    + apply bool_decide_eq_false in Hk.
      rewrite bool_decide_eq_false_2; [done|].
      intros [?|?]%elem_of_cons; congruence.
Qed.

Lemma dict_setitem_NoDup k v d :
  NoDup (dict_keys d) → NoDup (dict_keys (dict_setitem k v d)).
Proof.
  intros Hd. rewrite dict_setitem_keys.
  case_bool_decide as Hk; [done|].
  apply NoDup_app. split_and!; [done| |apply NoDup_singleton].
  intros x Hx ?%list_elem_of_singleton. by subst.
Qed.

Lemma dict_setitem_elem k v d k' v' :
  (k', v') ∈ dict_setitem k v d →
  (k' = k ∧ v' = v) ∨ (k', v') ∈ d.
Proof.
  induction d as [|[k0 v0] d IH]; simpl.
  - intros ?%list_elem_of_singleton. left. by simplify_eq.
  - destruct (String.eqb_spec k0 k) as [->|Hne].
    + intros [[= -> ->]|?]%elem_of_cons; [by left|].
      right. by right.
    + intros [->|?]%elem_of_cons; [right; by left|].
      destruct IH as [?|?]; [done|by left|]. right. by right.
Qed.
End DictFacts.

Lemma filter_iff_elem {A} (P1 P2 : A -> Prop)
  `{!∀ x, Decision (P1 x), !∀ x, Decision (P2 x)} (l : list A) :
  (∀ x, x ∈ l → P1 x ↔ P2 x) →
  filter P1 l = filter P2 l.
Proof.
  induction l as [|a l IH]; intros Hiff; [done|].
  assert (Ha : P1 a ↔ P2 a) by (apply Hiff; by left).
  assert (Hl : filter P1 l = filter P2 l).
  { apply IH. intros x Hx. apply Hiff. by right. }
  destruct (decide (P1 a)).
  - rewrite !filter_cons_True by tauto. by rewrite Hl.
  - rewrite !filter_cons_False by tauto. done.
Qed.

(** ** Clustering *)

Section Clustering.
Variable w : World.
Variable threshold : Z.

Local Abbreviation near_seed assigned fp :=
  (fun x : string * string =>
     (fst x ∉ assigned) ∧ (hamming_distance w fp (snd x) <= threshold)).

Lemma greedy_clusters_assigned (A A' : gset string) items :
  (∀ f, f ∈ dict_keys items → f ∈ A ↔ f ∈ A') →
  greedy_clusters (hamming_distance w) threshold A items
  = greedy_clusters (hamming_distance w) threshold A' items.
Proof.
  revert A A'. induction items as [|[seed fp] later IH]; intros A A' HA;
    simpl; [done|].
  assert (Hlater : ∀ f, f ∈ dict_keys later → f ∈ A ↔ f ∈ A').
  { intros f Hf. apply HA. by right. }
  assert (Hnear : filter (near_seed A fp) later
                  = filter (near_seed A' fp) later).
  { apply filter_iff_elem. intros [f h] Hf. simpl.
    rewrite (Hlater f); [done|].
    apply list_elem_of_fmap. by exists (f, h). }
  rewrite (bool_decide_ext (seed ∈ A) (seed ∈ A')) by (apply HA; by left).
  case_bool_decide; [by apply IH|].
  rewrite Hnear.
  destruct (filter (near_seed A' fp) later) as [|first others].
  - apply IH. intros f Hf. specialize (Hlater f Hf). set_solver.
  - f_equal. apply IH. intros f Hf. specialize (Hlater f Hf). set_solver.
Qed.

Lemma or_zero_Some m : or_zero (Some m) = m.
Proof. simpl. destruct (Z.eqb_spec m 0); congruence. Qed.

Lemma foldl_min_step d ds :
  foldl min_step (Some d) ds = Some (minimum d ds).
Proof.
  unfold minimum. revert d. induction ds as [|d' ds IH]; intros d; [done|].
  simpl. destruct (Z.ltb_spec d' d).
  - rewrite IH. f_equal. f_equal. lia.
  - rewrite IH. f_equal. f_equal. lia.
Qed.

(** The inner loop takes the later files near the seed. *)
Lemma cluster_scan_run (fh later : dict string) (P : gset string) hash1
  group m :
  NoDup (dict_keys fh) →
  (∀ x, x ∈ later → x ∈ fh) →
  rfor_fold (cluster_scan w fh threshold P hash1) (dict_keys later) (group, m)
  = Ok (group ++ (filter (near_seed P hash1) later).*1,
        foldl min_step m
          (hamming_distance w hash1 <$> (filter (near_seed P hash1) later).*2)).
Proof.
  intros Hfh. unfold dict_keys. revert group m.
  induction later as [|[f2 h2] later IH]; intros group m Hsub.
  - simpl. by rewrite app_nil_r.
  - assert (Hlater : ∀ x, x ∈ later → x ∈ fh).
    { intros x Hx. apply Hsub. by right. }
    assert (Hget : dict_getitem f2 fh = Ok h2).
    { apply dict_getitem_elem; [done|]. apply Hsub. by left. }
    rewrite fmap_cons. cbn [rfor_fold fst]. unfold cluster_scan at 1.
    destruct (decide (near_seed P hash1 (f2, h2))) as [[HP Hd]|Hfar].
    + rewrite filter_cons_True by done. simpl in HP, Hd.
      rewrite bool_decide_eq_false_2 by done. rewrite Hget. cbn [rbind].
      destruct (Z.leb_spec (hamming_distance w hash1 h2) threshold); [|lia].
      cbn [rbind]. rewrite IH by done.
      rewrite !fmap_cons. cbn [fst snd foldl]. by rewrite <- app_assoc.
    + rewrite filter_cons_False by done. simpl in Hfar.
      case_bool_decide as HP; cbn [rbind]; [by apply IH|].
      rewrite Hget. cbn [rbind].
      destruct (Z.leb_spec (hamming_distance w hash1 h2) threshold);
        [tauto|]. cbn [rbind]. by apply IH.
Qed.

(** The outer loop, from any position in the dictionary, appends the
    clusters of the specification. *)
Lemma cluster_loop (fh pre items : dict string) (P : gset string) G :
  fh = pre ++ items →
  NoDup (dict_keys fh) →
  ∃ P',
    rfor_fold (cluster_step w fh threshold (dict_keys fh))
      (imap (fun j => pair (length pre + j)%nat) (dict_keys items)) (P, G)
    = Ok (P', G ++ greedy_clusters (hamming_distance w) threshold P items).
Proof.
  intros Hfh Hnd. revert pre P G Hfh.
  induction items as [|[seed fp] later IH]; intros pre P G Hfh.
  - exists P. simpl. by rewrite app_nil_r.
  - assert (Hpre : fh = (pre ++ [(seed, fp)]) ++ later)
      by (by rewrite <- app_assoc).
    assert (Hseed : seed ∉ dict_keys later).
    { rewrite Hfh in Hnd. unfold dict_keys in *.
      rewrite fmap_app, fmap_cons in Hnd.
      apply NoDup_app in Hnd as (_ & _ & Hnd).
      by apply NoDup_cons in Hnd as [? _]. }
    assert (Hnext : ∀ P0 G0, ∃ P',
      rfor_fold (cluster_step w fh threshold (dict_keys fh))
        (imap ((fun j => pair (length pre + j)%nat) ∘ S) (dict_keys later))
        (P0, G0)
      = Ok (P', G0 ++ greedy_clusters (hamming_distance w) threshold P0
                        later)).
    { intros P0 G0. destruct (IH (pre ++ [(seed, fp)]) P0 G0 Hpre)
        as [P' HP'].
      exists P'. rewrite <- HP'. f_equal. apply imap_ext.
      intros j x _. simpl. rewrite length_app. simpl. f_equal. lia. }
    simpl dict_keys. rewrite imap_cons.
    cbn [rfor_fold greedy_clusters]. unfold cluster_step at 1.
    case_bool_decide as HP; simpl rbind.
    { apply Hnext. }
    rewrite (dict_getitem_elem seed fp fh)
      by (auto; rewrite Hfh; apply elem_of_app; right; by left).
    simpl rbind.
    replace (drop (length pre + 0 + 1) (dict_keys fh))
      with (dict_keys later).
    2:{ rewrite Hpre. unfold dict_keys. rewrite fmap_app.
        rewrite drop_app_length'; [done|].
        rewrite length_fmap, length_app. simpl. lia. }
    rewrite (cluster_scan_run fh later P fp [seed] None Hnd).
    2:{ intros x Hx. rewrite Hfh. apply elem_of_app. right. by right. }
    simpl rbind.
    destruct (filter (near_seed P fp) later) as [|first others] eqn:Hnear.
    + simpl. destruct (Hnext P G) as [P' HP'].
      exists P'. rewrite HP'. do 3 f_equal.
      apply greedy_clusters_assigned. intros f Hf.
      rewrite elem_of_union, elem_of_singleton.
      split; [by left|]. intros [?| ->]; done.
    + rewrite fmap_cons. cbn [length Nat.ltb Nat.leb rbind].
      match goal with
      | |- context [rfor_fold _ _ (?P0, ?G0)] =>
          destruct (Hnext P0 G0) as [P' HP']
      end.
      exists P'. rewrite HP'. f_equal. rewrite <- app_assoc. f_equal.
      f_equal. cbn [app]. f_equal.
      * f_equal. rewrite !fmap_cons. cbn [foldl min_step].
        by rewrite foldl_min_step, or_zero_Some.
      * apply greedy_clusters_assigned. intros f Hf.
        rewrite !elem_of_union, elem_of_singleton. tauto.
Qed.

(** [cluster] computes the clusters of the specification. *)
Lemma cluster_greedy (fh : dict string) :
  NoDup (dict_keys fh) →
  cluster w fh threshold
  = Ok (greedy_clusters (hamming_distance w) threshold ∅ fh).
Proof.
  intros Hnd. unfold cluster, enumerate.
  destruct (cluster_loop fh [] fh ∅ [] eq_refl Hnd) as [P' HP'].
  assert (E : rfor_fold (cluster_step w fh threshold (dict_keys fh))
                (imap pair (dict_keys fh)) (∅, [])
              = Ok (P', greedy_clusters (hamming_distance w) threshold ∅ fh))
    by exact HP'.
  by rewrite E.
Qed.
End Clustering.

(** ** What the clusters are *)

Lemma minimum_is_minimum d ds : is_minimum (minimum d ds) (d :: ds).
Proof.
  unfold minimum. revert d. induction ds as [|d' ds IH]; intros d; simpl.
  - split; [by left|]. intros x ?%list_elem_of_singleton. lia.
  - destruct (IH (Z.min d d')) as [Hin Hle]. split.
    + apply elem_of_cons in Hin as [Hin|Hin]; [|by do 2 right].
      rewrite Hin. destruct (Z.min_spec d d') as [[_ ->]|[_ ->]];
        [by left | right; by left].
    + intros x Hx.
      assert (foldl Z.min (Z.min d d') ds <= Z.min d d')
        by (apply Hle; by left).
      apply elem_of_cons in Hx as [->|Hx]; [lia|].
      apply elem_of_cons in Hx as [->|Hx]; [lia|].
      apply Hle. by right.
Qed.

Section Clusters.
Variable distance : string -> string -> Z.
Variable threshold : Z.

Local Abbreviation greedy := (greedy_clusters distance threshold).

(** A cluster holds unassigned files of the dictionary. *)
Lemma greedy_clusters_elem (A : gset string) items c f :
  c ∈ greedy A items → f ∈ c.1 → f ∈ dict_keys items ∧ f ∉ A.
Proof.
  revert A. induction items as [|[seed fp] later IH]; intros A; simpl.
  { by intros ?%elem_of_nil. }
  assert (Hrec : ∀ A', c ∈ greedy A' later → f ∈ c.1 →
                       f ∈ seed :: dict_keys later ∧ f ∉ A').
  { intros A' Hc Hf. destruct (IH A' Hc Hf). split; [by right | done]. }
  case_bool_decide as Hseed; [by apply Hrec|].
  destruct (filter _ later) as [|first others] eqn:Hnear.
  - intros Hc Hf. destruct (Hrec _ Hc Hf) as [? Hn].
    split; [done|]. intros ?. apply Hn. apply elem_of_union. by left.
  - intros [->|Hc]%elem_of_cons Hf.
    + cbn [fst] in Hf.
      apply elem_of_cons in Hf as [->|Hf]; [by split; [left|]|].
      apply list_elem_of_fmap in Hf as (x & -> & Hx).
      rewrite <- Hnear in Hx. apply list_elem_of_filter in Hx as [[Hx _] Hin].
      split; [|done]. right. apply list_elem_of_fmap. by exists x.
    + destruct (Hrec _ Hc Hf) as [? Hn].
      split; [done|]. intros ?. apply Hn.
      rewrite !elem_of_union. by do 2 left.
Qed.

(** No file is in two clusters. *)
Lemma greedy_clusters_disjoint (A : gset string) items :
  pairwise_disjoint (fst <$> greedy A items).
Proof.
  revert A. induction items as [|[seed fp] later IH]; intros A; simpl;
    [done|].
  case_bool_decide as Hseed; [apply IH|].
  destruct (filter _ later) as [|first others] eqn:Hnear; [apply IH|].
  rewrite fmap_cons. cbn [fst pairwise_disjoint]. split; [|apply IH].
  apply Forall_forall. intros g Hg f Hf Hfg.
  apply list_elem_of_fmap in Hg as (c & -> & Hc).
  destruct (greedy_clusters_elem _ _ _ _ Hc Hfg) as [_ Hn].
  apply Hn. rewrite !elem_of_union, elem_of_singleton, elem_of_list_to_set.
  apply elem_of_cons in Hf as [->|Hf]; [left; by right | by right].
Qed.

(** A cluster lists no file twice. *)
Lemma greedy_clusters_NoDup (A : gset string) items c :
  NoDup (dict_keys items) → c ∈ greedy A items → NoDup c.1.
Proof.
  revert A. induction items as [|[seed fp] later IH]; intros A; simpl.
  { by intros _ ?%elem_of_nil. }
  rewrite NoDup_cons. intros [Hseed Hnd].
  case_bool_decide as HA; [by apply IH|].
  destruct (filter _ later) as [|first others] eqn:Hnear; [by apply IH|].
  intros [->|Hc]%elem_of_cons; [|by eapply IH].
  cbn [fst]. rewrite <- Hnear.
  assert (Hsub : (filter (fun x => (x.1 ∉ A)
                            ∧ (distance fp x.2 <= threshold)) later).*1
                 `sublist_of` dict_keys later).
  { apply fmap_sublist, sublist_filter. }
  apply NoDup_cons. split.
  - intros Hin. apply Hseed. by eapply elem_of_sublist.
  - by eapply sublist_NoDup.
Qed.

(** A cluster is a seed followed by the later files within the threshold
    of it, recorded with the least of their distances to the seed. *)
Lemma greedy_clusters_seed (A : gset string) items g d :
  (g, d) ∈ greedy A items →
  ∃ seed fp near,
    g = seed :: near.*1
    ∧ near ≠ []
    ∧ (seed, fp) ∈ items
    ∧ (∀ x, x ∈ near → x ∈ items ∧ distance fp x.2 <= threshold)
    ∧ is_minimum d (distance fp <$> near.*2).
Proof.
  revert A. induction items as [|[seed fp] later IH]; intros A; simpl.
  { by intros ?%elem_of_nil. }
  assert (Hrec : ∀ A', (g, d) ∈ greedy A' later →
    ∃ seed' fp' near,
      g = seed' :: near.*1 ∧ near ≠ []
      ∧ (seed', fp') ∈ (seed, fp) :: later
      ∧ (∀ x, x ∈ near →
           x ∈ (seed, fp) :: later ∧ distance fp' x.2 <= threshold)
      ∧ is_minimum d (distance fp' <$> near.*2)).
  { intros A' Hc.
    destruct (IH A' Hc) as (seed' & fp' & near & ? & ? & ? & Hnear & ?).
    exists seed', fp', near. split_and!; try done; [by right|].
    intros x Hx. destruct (Hnear x Hx). split; [by right | done]. }
  case_bool_decide as HA; [by apply Hrec|].
  destruct (filter _ later) as [|first others] eqn:Hnear; [by apply Hrec|].
  intros [[= -> ->]|Hc]%elem_of_cons; [|by eapply Hrec].
  exists seed, fp, (first :: others). split_and!; try done; [by left| |].
  - intros x Hx. rewrite <- Hnear in Hx.
    apply list_elem_of_filter in Hx as [[_ ?] ?]. split; [by right | done].
  - apply minimum_is_minimum.
Qed.
End Clusters.

Lemma filter_none {A} (P : A -> Prop) `{!∀ x, Decision (P x)} (l : list A) :
  (∀ x, x ∈ l → ¬ P x) → filter P l = [].
Proof.
  induction l as [|a l IH]; intros Hl; [done|].
  rewrite filter_cons_False by (apply Hl; by left).
  apply IH. intros x Hx. apply Hl. by right.
Qed.

(** ** Lists of pairwise disjoint lists *)

Lemma pairwise_disjoint_sublist ls ls' :
  ls' `sublist_of` ls → pairwise_disjoint ls → pairwise_disjoint ls'.
Proof.
  induction 1 as [|l ls1 ls2 Hsub IH|l ls1 ls2 Hsub IH]; simpl; [done| |].
  - intros [Hl Hls]. split; [|by apply IH].
    rewrite Forall_forall in Hl. apply Forall_forall.
    intros l' Hl'. apply Hl. by eapply elem_of_sublist.
  - intros [_ Hls]. by apply IH.
Qed.

Lemma pairwise_disjoint_app ls1 ls2 :
  pairwise_disjoint ls1 → pairwise_disjoint ls2 →
  (∀ l1 l2 f, l1 ∈ ls1 → l2 ∈ ls2 → f ∈ l1 → f ∉ l2) →
  pairwise_disjoint (ls1 ++ ls2).
Proof.
  induction ls1 as [|l ls1 IH]; simpl; [done|].
  intros [Hl Hls1] Hls2 Hcross. split.
  - apply Forall_app. split; [done|].
    apply Forall_forall. intros l2 Hl2 f Hf.
    eapply Hcross; [by left | done | done].
  - apply IH; [done | done |].
    intros l1 l2 f Hl1. apply Hcross. by right.
Qed.

Lemma pairwise_disjoint_lookup ls i j li lj f :
  pairwise_disjoint ls →
  ls !! i = Some li → ls !! j = Some lj → f ∈ li → f ∈ lj → i = j.
Proof.
  revert i j. induction ls as [|l ls IH]; intros i j; simpl; [done|].
  intros [Hl Hls] Hi Hj Hfi Hfj.
  destruct i as [|i], j as [|j]; simpl in *; simplify_eq.
  - done.
  - exfalso. rewrite Forall_forall in Hl.
    eapply Hl; [by eapply list_elem_of_lookup_2 | done | done].
  - exfalso. rewrite Forall_forall in Hl.
    eapply Hl; [by eapply list_elem_of_lookup_2 | done | done].
  - f_equal. by eapply IH.
Qed.

(** ** The dictionaries of the two passes *)

Section Buckets.
Variable sha : string -> result string.

Lemma has_digest_inj k k' f :
  has_digest sha k f → has_digest sha k' f → k = k'.
Proof.
  unfold has_digest. destruct (sha f) as [h|]; [|done].
  intros <-%Is_true_true%String.eqb_eq <-%Is_true_true%String.eqb_eq.
  done.
Qed.

Lemma has_digest_iff k f : has_digest sha k f ↔ sha f = Ok k.
Proof.
  unfold has_digest. destruct (sha f) as [h|]; [|done].
  rewrite Is_true_true, String.eqb_eq. split; congruence.
Qed.

Lemma defaultdict_append_keys {X} k (x : X) D :
  dict_keys (defaultdict_append k x D)
  = if bool_decide (k ∈ dict_keys D) then dict_keys D
    else dict_keys D ++ [k].
Proof.
  unfold dict_keys.
  induction D as [|[k' xs] D IH]; cbn [defaultdict_append]; [done|].
  destruct (String.eqb_spec k' k) as [->|Hne]; rewrite !fmap_cons; cbn [fst].
  - rewrite bool_decide_eq_true_2; [done | by left].
  - rewrite IH. case_bool_decide as Hk.
    + rewrite bool_decide_eq_true_2; [done | by right].
    + rewrite bool_decide_eq_false_2; [done|].
      intros [?|?]%elem_of_cons; congruence.
Qed.

Lemma defaultdict_append_elem {X} k (x : X) D k' xs' :
  NoDup (dict_keys D) →
  (k', xs') ∈ defaultdict_append k x D →
  (k' ≠ k ∧ (k', xs') ∈ D)
  ∨ (k' = k ∧ ∃ xs, xs' = xs ++ [x]
                    ∧ ((k, xs) ∈ D ∨ ((k ∉ dict_keys D) ∧ xs = []))).
Proof.
  unfold dict_keys.
  induction D as [|[k0 xs0] D IH]; cbn [defaultdict_append].
  - intros _ [= -> ->]%list_elem_of_singleton. right. split; [done|].
    exists []. split; [done|]. right. split; [|done]. by intros ?%elem_of_nil.
  - rewrite !fmap_cons. cbn [fst]. rewrite NoDup_cons. intros [Hk0 Hnd].
    destruct (String.eqb_spec k0 k) as [->|Hne].
    + intros [[= -> ->]|Hin]%elem_of_cons.
      * right. split; [done|]. exists xs0. split; [done|]. left. by left.
      * left. split; [|by right]. intros ->. apply Hk0.
        apply list_elem_of_fmap. by exists (k, xs').
    + intros [[= -> ->]|Hin]%elem_of_cons.
      * left. split; [done | by left].
      * destruct (IH Hnd Hin) as [[? ?]|[-> (xs & -> & Hxs)]].
        -- left. split; [done | by right].
        -- right. split; [done|]. exists xs. split; [done|].
           destruct Hxs as [?|[Hk ->]]; [left; by right|].
           right. split; [|done].
           intros [?|?]%elem_of_cons; [congruence | done].
Qed.

Lemma bucket_inv_nil : bucket_inv sha [] [].
Proof.
  split_and!.
  - constructor.
  - by intros k fs ?%elem_of_nil.
  - by intros f k ?%elem_of_nil.
Qed.

Lemma bucket_inv_step l D x :
  bucket_inv sha l D → bucket_inv sha (l ++ [x]) (bucket_step sha D x).
Proof.
  intros (Hnd & Hfs & Hkeys). unfold bucket_step.
  destruct (sha x) as [h|e] eqn:Hx.
  - split_and!.
    + rewrite defaultdict_append_keys. case_bool_decide; [done|].
      apply NoDup_app. split_and!; [done| |apply NoDup_singleton].
      intros k Hk ?%list_elem_of_singleton. by subst.
    + intros k fs Hin. rewrite filter_app.
      apply (defaultdict_append_elem _ _ _ _ _ Hnd) in Hin
        as [[Hne Hin]|[-> (xs & -> & Hxs)]].
      * rewrite filter_cons_False, filter_nil, app_nil_r; [by apply Hfs|].
        rewrite has_digest_iff. congruence.
      * rewrite (filter_cons_True _ x) by (by apply has_digest_iff).
        rewrite filter_nil. f_equal.
        destruct Hxs as [Hin|[Hk ->]]; [by apply Hfs|].
        symmetry. apply filter_none. intros f Hf Hd. apply Hk.
        eapply Hkeys; [done|]. by apply has_digest_iff.
    + intros f k Hf Hk. rewrite defaultdict_append_keys.
      apply elem_of_app in Hf as [Hf| ->%list_elem_of_singleton].
      * case_bool_decide; [by eapply Hkeys|].
        apply elem_of_app. left. by eapply Hkeys.
      * assert (k = h) as -> by congruence.
        case_bool_decide; [done|]. apply elem_of_app. right. by left.
  - split_and!; [done| |].
    + intros k fs Hin. rewrite filter_app.
      rewrite filter_cons_False, filter_nil, app_nil_r; [by apply Hfs|].
      rewrite has_digest_iff. congruence.
    + intros f k [Hf| ->%list_elem_of_singleton]%elem_of_app Hk;
        [by eapply Hkeys | congruence].
Qed.

Lemma exact_buckets_inv files : bucket_inv sha files (exact_buckets sha files).
Proof.
  unfold exact_buckets.
  induction files as [|x files IH] using rev_ind; [apply bucket_inv_nil|].
  rewrite foldl_snoc. by apply bucket_inv_step.
Qed.

(** An exact group is the list of the input files of one digest. *)
Lemma exact_groups_elem files g :
  g ∈ exact_groups sha files →
  ∃ k, g = filter (fun f => has_digest sha k f) files ∧ (1 < length g)%nat.
Proof.
  unfold exact_groups, dict_values.
  intros [Hlen Hg]%list_elem_of_filter.
  apply list_elem_of_fmap in Hg as ([k fs] & -> & Hin).
  destruct (exact_buckets_inv files) as (_ & Hfs & _).
  exists k. split; [by apply Hfs|].
  by apply Is_true_true, Nat.ltb_lt in Hlen.
Qed.

(** Every digest that two input files or more have gives a group. *)
Lemma exact_groups_complete files k :
  (1 < length (filter (fun f => has_digest sha k f) files))%nat →
  filter (fun f => has_digest sha k f) files ∈ exact_groups sha files.
Proof.
  intros Hlen.
  destruct (exact_buckets_inv files) as (_ & Hfs & Hkeys).
  destruct (filter (fun f => has_digest sha k f) files) as [|f fs] eqn:Hk;
    [simpl in Hlen; lia|].
  assert (Hf : f ∈ filter (fun f => has_digest sha k f) files)
    by (rewrite Hk; by left).
  apply list_elem_of_filter in Hf as [Hd Hf].
  apply has_digest_iff in Hd.
  specialize (Hkeys f k Hf Hd).
  apply list_elem_of_fmap in Hkeys as ([k' fs'] & Hk' & Hin).
  simpl in Hk'. subst k'.
  specialize (Hfs _ _ Hin). rewrite Hk in Hfs. subst fs'.
  unfold exact_groups, dict_values. apply list_elem_of_filter.
  split; [by apply Is_true_true, Nat.ltb_lt|].
  apply list_elem_of_fmap. by exists (k, f :: fs).
Qed.

Lemma bucket_values_disjoint l D :
  bucket_inv sha l D → pairwise_disjoint (dict_values D).
Proof.
  intros (Hnd & Hfs & _). unfold dict_values, dict_keys in *.
  induction D as [|[k fs] D IH]; simpl; [done|].
  apply NoDup_cons in Hnd as [Hk Hnd]. split.
  - apply Forall_forall. intros fs' Hfs' f Hf Hf'.
    apply list_elem_of_fmap in Hfs' as ([k' fs''] & -> & Hin). simpl in Hf'.
    rewrite (Hfs k fs) in Hf by (by left).
    rewrite (Hfs k' fs'') in Hf' by (by right).
    apply list_elem_of_filter in Hf as [Hf _].
    apply list_elem_of_filter in Hf' as [Hf' _].
    assert (k = k') as -> by (by eapply has_digest_inj).
    apply Hk. apply list_elem_of_fmap. by exists (k', fs'').
  - apply IH; [done|]. intros k' fs' Hin. apply Hfs. by right.
Qed.

(** No file is in two exact groups. *)
Lemma exact_groups_disjoint files :
  pairwise_disjoint (exact_groups sha files).
Proof.
  unfold exact_groups.
  eapply pairwise_disjoint_sublist; [apply sublist_filter|].
  eapply bucket_values_disjoint, exact_buckets_inv.
Qed.
End Buckets.

Section Fingerprints.
Variable w : World.
Variable ph : string -> option string.

Lemma fingerprint_fold_NoDup acc l :
  NoDup (dict_keys acc) →
  NoDup (dict_keys (foldl (fingerprint_step ph) acc l)).
Proof.
  revert acc. induction l as [|f l IH]; intros acc Hacc; simpl; [done|].
  apply IH. unfold fingerprint_step.
  destruct (ph f) as [h|]; [|done].
  destruct (truthy_str (Some h)); [|done].
  by apply dict_setitem_NoDup.
Qed.

Lemma fingerprint_fold_elem acc l f h :
  (f, h) ∈ foldl (fingerprint_step ph) acc l →
  (f, h) ∈ acc ∨ (f ∈ l ∧ ph f = Some h).
Proof.
  revert acc. induction l as [|f' l IH]; intros acc; simpl; [by left|].
  intros Hin. destruct (IH _ Hin) as [Hacc|[? ?]]; [|right; split; [by right|done]].
  unfold fingerprint_step in Hacc.
  destruct (ph f') as [h'|] eqn:Hf'; [|by left].
  destruct (truthy_str (Some h')); [|by left].
  apply dict_setitem_elem in Hacc as [[-> ->]|?]; [|by left].
  right. split; [by left | done].
Qed.

Lemma fingerprints_NoDup files : NoDup (dict_keys (fingerprints w ph files)).
Proof. apply fingerprint_fold_NoDup. constructor. Qed.

(** A fingerprinted file is a supported image of the input whose
    perceptual hash is available. *)
Lemma fingerprints_elem files f h :
  (f, h) ∈ fingerprints w ph files →
  f ∈ files ∧ is_supported_image w f ∧ ph f = Some h.
Proof.
  intros [?%elem_of_nil|[Hf Hph]]%fingerprint_fold_elem; [done|].
  apply list_elem_of_filter in Hf as [? ?]. done.
Qed.

Lemma fingerprints_key files f :
  f ∈ dict_keys (fingerprints w ph files) →
  f ∈ files ∧ ∃ h, ph f = Some h.
Proof.
  intros ([f' h] & -> & Hin)%list_elem_of_fmap.
  apply fingerprints_elem in Hin as (? & _ & ?). eauto.
Qed.
End Fingerprints.

(** ** The groups of a run *)

Lemma built_from_files group_files g f :
  built_from group_files g →
  Some f ∈ group_files_of g ↔ f ∈ group_files.
Proof.
  intros (winner_path & Hw & Hin & Hd). unfold group_files_of.
  rewrite Hw, Hd, elem_of_cons, list_elem_of_fmap. split.
  - intros [[= ->]|(f' & [= <-] & Hf)]; [done|].
    by apply list_elem_of_filter in Hf as [_ ?].
  - intros Hf. destruct (decide (f = winner_path)) as [->|Hne]; [by left|].
    right. exists f. split; [done|]. by apply list_elem_of_filter.
Qed.

Lemma built_from_winner group_files g :
  built_from group_files g →
  ∃ winner_path, winner g = Some winner_path ∧ winner_path ∉ duplicates g.
Proof.
  intros (winner_path & Hw & Hin & Hd). exists winner_path.
  split; [done|]. rewrite Hd. by intros [? _]%list_elem_of_filter.
Qed.

Lemma built_from_NoDup group_files g :
  built_from group_files g → NoDup group_files → NoDup (duplicates g).
Proof.
  intros (winner_path & Hw & Hin & ->) Hnd. by apply NoDup_filter.
Qed.

Lemma processed_files_of_elem groups x :
  x ∈ processed_files_of groups ↔ ∃ g, g ∈ groups ∧ x ∈ group_files_of g.
Proof.
  unfold processed_files_of.
  assert (Hgen : ∀ (acc : gset (option string)),
    x ∈ foldl
          (fun processed_files group =>
             processed_files ∪ {[ winner group ]}
               ∪ list_to_set (Some <$> duplicates group))
          acc groups
    ↔ x ∈ acc ∨ ∃ g, g ∈ groups ∧ x ∈ group_files_of g).
  { induction groups as [|g groups IH]; intros acc; simpl.
    - split; [by left|]. intros [?|(g & ?%elem_of_nil & _)]; done.
    - rewrite IH. rewrite !elem_of_union, elem_of_singleton.
      rewrite elem_of_list_to_set. unfold group_files_of.
      split.
      + intros [[[?| ->]|?]|(g' & ? & ?)].
        * by left.
        * right. exists g. split; [by left|]. by left.
        * right. exists g. split; [by left|]. by right.
        * right. exists g'. split; [by right | done].
      + intros [?|(g' & [->|?]%elem_of_cons & Hx)].
        * by do 3 left.
        * apply elem_of_cons in Hx as [->|?];
            [left; left; by right | left; by right].
        * right. by exists g'. }
  rewrite Hgen. split; [|by right].
  intros [?%not_elem_of_empty|?]; done.
Qed.

Section Groups.
Variable w : World.
Variable sha : string -> result string.
Variable ph : string -> option string.

Lemma build_group_spec dtype next_id group_files distance g :
  build_group w sha dtype next_id group_files distance = Ok g →
  built_from group_files g
  ∧ group_id g = next_id
  ∧ detection_type g = dtype
  ∧ phash_distance g = distance
  ∧ ∃ winner_path,
      winner g = Some winner_path
      ∧ select_winner w group_files = Ok (winner_path, reason g).
Proof.
  unfold build_group.
  destruct (select_winner w group_files) as [[winner_path reason_text]|]
    eqn:Hsel; simpl; [|done].
  destruct (file_metadata w sha winner_path) as [winner_md|]; simpl; [|done].
  destruct (rfor_list _ _) as [dup_md|]; simpl; [|done].
  intros [= <-]. simpl. split_and!; try done; [|by eexists].
  exists winner_path. split_and!; try done.
  by eapply select_winner_elem.
Qed.

Lemma build_groups_spec dtype next_id candidates :
  let '(groups, r) := build_groups w sha dtype next_id candidates in
  (length groups <= length candidates)%nat
  ∧ (∀ i g, groups !! i = Some g →
       ∃ c, candidates !! i = Some c
            ∧ build_group w sha dtype (next_id + Z.of_nat i) c.1 c.2 = Ok g)
  ∧ (∀ m, r = Ok m →
       length groups = length candidates
       ∧ m = next_id + Z.of_nat (length candidates)).
Proof.
  revert next_id.
  induction candidates as [|[group_files distance] candidates IH];
    intros next_id; simpl.
  - split_and!; [done| |].
    + by intros i g ?.
    + intros m [= <-]. split; [done | lia].
  - destruct (build_group w sha dtype next_id group_files distance)
      as [g0|e] eqn:Hg0.
    + specialize (IH (next_id + 1)).
      destruct (build_groups w sha dtype (next_id + 1) candidates)
        as [groups r].
      destruct IH as (Hlen & Hlook & Hend). simpl. split_and!.
      * lia.
      * intros [|i] g; simpl.
        -- intros [= <-]. exists (group_files, distance).
           split; [done|]. by rewrite Z.add_0_r.
        -- intros Hi. destruct (Hlook i g Hi) as (c & Hc & Hb).
           exists c. split; [done|]. rewrite <- Hb. f_equal. lia.
      * intros m Hm. destruct (Hend m Hm). split; [lia | lia].
    + simpl. split_and!; [lia| |done].
      by intros i g ?.
Qed.

End Groups.

Section EngineFacts.
Variable w : World.
Variable sha : string -> result string.
Variable ph : string -> option string.

Lemma build_groups_from dtype next_id candidates :
  Forall2
    (fun c g =>
       built_from c.1 g ∧ detection_type g = dtype ∧ phash_distance g = c.2)
    (take (length (build_groups w sha dtype next_id candidates).1) candidates)
    (build_groups w sha dtype next_id candidates).1.
Proof.
  pose proof (build_groups_spec w sha dtype next_id candidates) as H.
  destruct (build_groups w sha dtype next_id candidates) as [groups r].
  destruct H as (Hlen & Hlook & _). simpl.
  apply Forall2_same_length_lookup_2.
  - rewrite length_take. lia.
  - intros i c g Hc Hg. destruct (Hlook i g Hg) as (c' & Hc' & Hb).
    apply lookup_take_Some in Hc as [Hc _].
    rewrite Hc' in Hc. injection Hc as <-.
    apply build_group_spec in Hb as (? & _ & ? & ? & _). done.
Qed.

(** The groups of a run: those of the exact pass, built from exact groups,
    then those of the perceptual pass, built from clusters of the files the
    exact pass left. *)
Lemma engine_structure mode threshold files :
  ∃ gs1 gs2 (cs1 : list (list string)) (cs2 : list (list string * Z)),
    (engine w sha ph mode threshold files).1 = gs1 ++ gs2
    ∧ cs1 `sublist_of` exact_groups sha files
    ∧ Forall2
        (fun c g =>
           built_from c g ∧ detection_type g = "exact"
           ∧ phash_distance g = None)
        cs1 gs1
    ∧ cs2 `sublist_of`
        greedy_clusters (hamming_distance w) threshold ∅
          (fingerprints w ph (remaining_files_of gs1 files))
    ∧ Forall2
        (fun c g =>
           built_from c.1 g ∧ detection_type g = "perceptual"
           ∧ phash_distance g = Some c.2)
        cs2 gs2.
Proof.
  unfold engine.
  assert (Hexact : ∃ cs1,
    cs1 `sublist_of` exact_groups sha files
    ∧ Forall2
        (fun c g =>
           built_from c g ∧ detection_type g = "exact"
           ∧ phash_distance g = None)
        cs1 (exact_pass w sha mode files).1).
  { unfold exact_pass. case_bool_decide.
    - pose proof (build_groups_from "exact" 0
                    ((fun g => (g, None)) <$> exact_groups sha files)) as Hb.
      rewrite <- fmap_take in Hb. apply Forall2_fmap_l in Hb.
      eexists. split; [apply sublist_take | exact Hb].
    - exists []. split; [apply sublist_nil_l | constructor]. }
  destruct Hexact as (cs1 & Hsub1 & Hcs1).
  destruct (exact_pass w sha mode files) as [gs1 r1]. simpl in Hcs1.
  destruct r1 as [next_id|e].
  2:{ exists gs1, [], cs1, []. rewrite app_nil_r.
      split_and!; [done|done|done|apply sublist_nil_l|constructor]. }
  assert (Hperc : ∃ cs2,
    cs2 `sublist_of`
      greedy_clusters (hamming_distance w) threshold ∅
        (fingerprints w ph (remaining_files_of gs1 files))
    ∧ Forall2
        (fun c g =>
           built_from c.1 g ∧ detection_type g = "perceptual"
           ∧ phash_distance g = Some c.2)
        cs2 (perceptual_pass w sha ph mode threshold files gs1 next_id).1).
  { unfold perceptual_pass, perceptual_groups. case_bool_decide.
    - rewrite cluster_greedy by apply fingerprints_NoDup.
      set (clusters := greedy_clusters _ _ _ _).
      pose proof (build_groups_from "perceptual" next_id
                    ((fun '(g, d) => (g, Some d)) <$> clusters)) as Hb.
      rewrite <- fmap_take in Hb. apply Forall2_fmap_l in Hb.
      eexists. split; [apply sublist_take|].
      eapply Forall2_impl; [exact Hb|].
      intros [g d] g'. simpl. done.
    - exists []. split; [apply sublist_nil_l | constructor]. }
  destruct Hperc as (cs2 & Hsub2 & Hcs2).
  destruct (perceptual_pass w sha ph mode threshold files gs1 next_id)
    as [gs2 r2]. simpl in Hcs2.
  by exists gs1, gs2, cs1, cs2.
Qed.

(** The groups of a run are built from lists of input files no two of
    which share a file. *)
Lemma engine_candidates mode threshold files :
  ∃ cands,
    Forall2 built_from cands (engine w sha ph mode threshold files).1
    ∧ pairwise_disjoint cands
    ∧ (∀ c f, c ∈ cands → f ∈ c → f ∈ files)
    ∧ (NoDup files → ∀ c, c ∈ cands → NoDup c).
Proof.
  destruct (engine_structure mode threshold files)
    as (gs1 & gs2 & cs1 & cs2 & -> & Hsub1 & Hcs1 & Hsub2 & Hcs2).
  exists (cs1 ++ cs2.*1). split_and!.
  - apply Forall2_app.
    + eapply Forall2_impl; [exact Hcs1|]. by intros c g [? _].
    + apply Forall2_fmap_l. eapply Forall2_impl; [exact Hcs2|].
      by intros c g [? _].
  - apply pairwise_disjoint_app.
    + eapply pairwise_disjoint_sublist; [exact Hsub1|].
      apply exact_groups_disjoint.
    + eapply pairwise_disjoint_sublist;
        [by apply fmap_sublist|apply greedy_clusters_disjoint].
    + intros l1 l2 f Hl1 Hl2 Hf1 Hf2.
      apply list_elem_of_fmap in Hl2 as (c & -> & Hc).
      eapply elem_of_sublist in Hc; [|exact Hsub2].
      destruct (greedy_clusters_elem _ _ _ _ _ f Hc Hf2) as [Hkey _].
      apply fingerprints_key in Hkey as [Hrem _].
      apply list_elem_of_filter in Hrem as [Hnot _]. apply Hnot.
      apply processed_files_of_elem.
      apply list_elem_of_lookup in Hl1 as [i Hi].
      destruct (Forall2_lookup_l _ _ _ _ _ Hcs1 Hi) as (g & Hg & Hb & _).
      exists g. split; [by eapply list_elem_of_lookup_2|].
      by apply (built_from_files l1).
  - intros c f [Hc|Hc]%elem_of_app Hf.
    + eapply elem_of_sublist in Hc; [|exact Hsub1].
      apply exact_groups_elem in Hc as (k & -> & _).
      by apply list_elem_of_filter in Hf as [_ ?].
    + apply list_elem_of_fmap in Hc as (c' & -> & Hc).
      eapply elem_of_sublist in Hc; [|exact Hsub2].
      destruct (greedy_clusters_elem _ _ _ _ _ f Hc Hf) as [Hkey _].
      apply fingerprints_key in Hkey as [Hrem _].
      by apply list_elem_of_filter in Hrem as [_ ?].
  - intros Hnd c [Hc|Hc]%elem_of_app.
    + eapply elem_of_sublist in Hc; [|exact Hsub1].
      apply exact_groups_elem in Hc as (k & -> & _).
      by apply NoDup_filter.
    + apply list_elem_of_fmap in Hc as (c' & -> & Hc).
      eapply elem_of_sublist in Hc; [|exact Hsub2].
      eapply greedy_clusters_NoDup; [|exact Hc].
      apply fingerprints_NoDup.
Qed.
End EngineFacts.

(** ** Runs from any state of the caches *)

Lemma agrees_view w hc : agrees w (sha_view w hc) (phash_view w hc) hc.
Proof. by split. Qed.

(** The state after [create_duplicate_groups]: the groups of the functional
    model at the view of the caches the run started with. *)
Lemma duplicate_groups_after w files d :
  duplicate_groups (create_duplicate_groups w files d).2
  = (engine w (sha_view w (hash_calc d)) (phash_view w (hash_calc d))
       (mode d) (phash_threshold d) files).1.
Proof.
  destruct (create_duplicate_groups_run w _ _ files d (agrees_view w _))
    as (hc' & _ & ->).
  done.
Qed.

Lemma result_after w files d :
  (create_duplicate_groups w files d).1
  = engine_result w (sha_view w (hash_calc d)) (phash_view w (hash_calc d))
      (mode d) (phash_threshold d) files.
Proof.
  destruct (create_duplicate_groups_run w _ _ files d (agrees_view w _))
    as (hc' & _ & ->).
  done.
Qed.

(** ** The derived views *)

Lemma elem_of_get_all_winners d x :
  x ∈ get_all_winners d ↔ ∃ g, g ∈ duplicate_groups d ∧ winner g = x.
Proof.
  unfold get_all_winners. rewrite list_elem_of_fmap. naive_solver.
Qed.

Lemma elem_of_get_all_duplicates d f :
  f ∈ get_all_duplicates d ↔ ∃ g, g ∈ duplicate_groups d ∧ f ∈ duplicates g.
Proof.
  unfold get_all_duplicates.
  assert (Hgen : ∀ acc,
    f ∈ foldl (fun dups group => dups ++ duplicates group) acc
          (duplicate_groups d)
    ↔ f ∈ acc ∨ ∃ g, g ∈ duplicate_groups d ∧ f ∈ duplicates g).
  { induction (duplicate_groups d) as [|g gs IH]; intros acc; simpl.
    - split; [by left|]. intros [?|(g & ?%elem_of_nil & _)]; done.
    - rewrite IH, elem_of_app. split.
      + intros [[?|?]|(g' & ? & ?)]; [by left| |].
        * right. exists g. split; [by left | done].
        * right. exists g'. split; [by right | done].
      + intros [?|(g' & [->|?]%elem_of_cons & ?)].
        * by do 2 left.
        * left. by right.
        * right. by exists g'. }
  rewrite Hgen. split; [|by right].
  intros [?%elem_of_nil|?]; done.
Qed.

Lemma elem_of_get_unique_files d all_files f :
  f ∈ get_unique_files d all_files
  ↔ f ∈ all_files ∧ (Some f ∉ get_all_winners d) ∧ (f ∉ get_all_duplicates d).
Proof.
  unfold get_unique_files. rewrite list_elem_of_filter.
  rewrite elem_of_list_to_set, elem_of_app.
  rewrite (list_elem_of_fmap_inj Some). tauto.
Qed.

(** No file is both a winner and a duplicate, whenever the groups are built
    from pairwise disjoint lists of files. *)
Lemma winner_not_duplicate cands gs g1 g2 f :
  Forall2 built_from cands gs → pairwise_disjoint cands →
  g1 ∈ gs → g2 ∈ gs → winner g1 = Some f → f ∉ duplicates g2.
Proof.
  intros Hb Hdis [i Hi]%list_elem_of_lookup [j Hj]%list_elem_of_lookup Hw Hd.
  destruct (Forall2_lookup_r _ _ _ _ _ Hb Hi) as (c1 & Hc1 & Hb1).
  destruct (Forall2_lookup_r _ _ _ _ _ Hb Hj) as (c2 & Hc2 & Hb2).
  assert (i = j) as ->.
  { eapply (pairwise_disjoint_lookup cands i j c1 c2 f); try done.
    - apply (built_from_files c1 g1); [done|].
      unfold group_files_of. rewrite Hw. by left.
    - apply (built_from_files c2 g2); [done|].
      unfold group_files_of. right. by apply list_elem_of_fmap_2. }
  assert (g1 = g2) as -> by congruence.
  destruct (built_from_winner c2 g2 Hb2) as (wp & Hwp & Hn).
  congruence.
Qed.

(** C1.  After [create_duplicate_groups], however it ended and whatever the
    caches held before, every input file is in exactly one of the winners,
    the duplicates and the unique files, and no file at all is in two of
    these views. *)
Theorem derived_views_partition (w : World) (files : list string)
  (d : Deduplicator) :
  let d' := (create_duplicate_groups w files d).2 in
  let winners := get_all_winners d' in
  let dups := get_all_duplicates d' in
  let uniques := get_unique_files d' files in
  (∀ f, f ∈ files →
     (Some f ∈ winners ∧ (f ∉ dups) ∧ (f ∉ uniques))
     ∨ ((Some f ∉ winners) ∧ f ∈ dups ∧ (f ∉ uniques))
     ∨ ((Some f ∉ winners) ∧ (f ∉ dups) ∧ f ∈ uniques))
  ∧ (∀ f, ¬ (Some f ∈ winners ∧ f ∈ dups))
  ∧ (∀ f, ¬ (Some f ∈ winners ∧ f ∈ uniques))
  ∧ (∀ f, ¬ (f ∈ dups ∧ f ∈ uniques)).
Proof.
  intros d' winners dups uniques.
  assert (Hwd : ∀ f, ¬ (Some f ∈ winners ∧ f ∈ dups)).
  { intros f [Hw Hd].
    apply elem_of_get_all_winners in Hw as (g1 & Hg1 & Hw).
    apply elem_of_get_all_duplicates in Hd as (g2 & Hg2 & Hd).
    unfold d' in Hg1, Hg2. rewrite duplicate_groups_after in Hg1, Hg2.
    destruct (engine_candidates w (sha_view w (hash_calc d))
                (phash_view w (hash_calc d)) (mode d) (phash_threshold d)
                files) as (cands & Hb & Hdis & _).
    by eapply (winner_not_duplicate cands _ g1 g2 f). }
  assert (Hu : ∀ f, f ∈ uniques
                    ↔ f ∈ files ∧ (Some f ∉ winners) ∧ (f ∉ dups))
    by (intros f; apply elem_of_get_unique_files).
  split_and!; [|done|..].
  - intros f Hf. specialize (Hwd f). specialize (Hu f).
    destruct (decide (Some f ∈ winners)), (decide (f ∈ dups)); tauto.
  - intros f. specialize (Hu f). tauto.
  - intros f. specialize (Hu f). tauto.
Qed.

(** Two copies and a file that cannot be read: a winner, a duplicate and a
    unique file. *)
Example derived_views_of_damaged :
  let files := ["a.jpg"; "bad.jpg"; "b.jpg"] in
  let d' := (Example.run Example.damaged "exact" 6 files).2 in
  get_all_winners d' = [Some "a.jpg"]
  ∧ get_all_duplicates d' = ["b.jpg"]
  ∧ get_unique_files d' files = ["bad.jpg"].
Proof. vm_compute. done. Qed.

(** ** One group for each file *)

(** C5.  Whatever the mode, two different groups of a run share no file:
    the groups of the exact pass are lists of distinct digests, the
    perceptual pass clusters only files that are in none of them, and a
    cluster takes only files no earlier cluster took. *)
Theorem file_in_at_most_one_group (w : World) (files : list string)
  (d : Deduplicator) (i j : nat) (gi gj : DuplicateGroup) (f : string) :
  let groups := duplicate_groups (create_duplicate_groups w files d).2 in
  groups !! i = Some gi → groups !! j = Some gj → i ≠ j →
  Some f ∈ group_files_of gi → Some f ∉ group_files_of gj.
Proof.
  intros groups Hi Hj Hne Hfi Hfj. apply Hne.
  unfold groups in Hi, Hj. rewrite duplicate_groups_after in Hi, Hj.
  destruct (engine_candidates w (sha_view w (hash_calc d))
              (phash_view w (hash_calc d)) (mode d) (phash_threshold d)
              files) as (cands & Hb & Hdis & _).
  destruct (Forall2_lookup_r _ _ _ _ _ Hb Hi) as (ci & Hci & Hbi).
  destruct (Forall2_lookup_r _ _ _ _ _ Hb Hj) as (cj & Hcj & Hbj).
  eapply (pairwise_disjoint_lookup cands i j ci cj f); try done.
  - by apply (built_from_files ci gi).
  - by apply (built_from_files cj gj).
Qed.

Lemma file_in_at_most_one_group_witness :
  ∃ g0 g1,
    duplicate_groups
      (Example.run Example.photos "exact+perceptual" 6 Example.photo_paths).2
    = [g0; g1]
    ∧ Some "a.jpg" ∈ group_files_of g0
    ∧ (Some "a.jpg" ∉ group_files_of g1).
Proof.
  do 2 eexists. split; [vm_compute; reflexivity|].
  split; [by left|].
  eapply (file_in_at_most_one_group (Example.world Example.photos true)
            Example.photo_paths (Deduplicator_init "exact+perceptual" 6)
            0 1);
    [vm_compute; reflexivity | vm_compute; reflexivity | lia | by left].
Defined.

(** ** Winner and duplicates of a group *)

(** C8, as the code has it.  In every group the winner is set and is not
    among the duplicates.  The duplicates hold no path twice when the input
    list holds none twice, and in a perceptual group in any case. *)
Theorem winner_apart_from_duplicates (w : World) (files : list string)
  (d : Deduplicator) :
  Forall
    (fun g =>
       (∃ winner_path,
          winner g = Some winner_path ∧ (winner_path ∉ duplicates g))
       ∧ (NoDup files ∨ detection_type g = "perceptual" →
          NoDup (duplicates g)))
    (duplicate_groups (create_duplicate_groups w files d).2).
Proof.
  rewrite duplicate_groups_after.
  set (sha := sha_view w (hash_calc d)).
  set (ph := phash_view w (hash_calc d)).
  destruct (engine_structure w sha ph (mode d) (phash_threshold d) files)
    as (gs1 & gs2 & cs1 & cs2 & -> & Hsub1 & Hcs1 & Hsub2 & Hcs2).
  apply Forall_app. split; apply Forall_forall; intros g Hg.
  - apply list_elem_of_lookup in Hg as [i Hi].
    destruct (Forall2_lookup_r _ _ _ _ _ Hcs1 Hi)
      as (c & Hc & Hb & Hty & _).
    split; [by eapply built_from_winner|].
    intros [Hnd|Hp]; [|by rewrite Hty in Hp].
    eapply built_from_NoDup; [done|].
    apply list_elem_of_lookup_2 in Hc.
    eapply elem_of_sublist in Hc; [|done].
    apply exact_groups_elem in Hc as (k & -> & _). by apply NoDup_filter.
  - apply list_elem_of_lookup in Hg as [i Hi].
    destruct (Forall2_lookup_r _ _ _ _ _ Hcs2 Hi) as (c & Hc & Hb & _).
    split; [by eapply built_from_winner|].
    intros _. eapply built_from_NoDup; [done|].
    apply list_elem_of_lookup_2 in Hc.
    eapply elem_of_sublist in Hc; [|done].
    eapply greedy_clusters_NoDup; [|done]. apply fingerprints_NoDup.
Qed.

(** C8 as stated fails: a path listed twice in the input is listed twice
    among the duplicates of its exact group. *)
Lemma repeated_path_repeated_duplicate :
  let run :=
    Example.run Example.photos "exact" 6 ["a.jpg"; "b.jpg"; "b.jpg"] in
  is_Ok run.1 = true
  ∧ ¬ Forall (fun g => NoDup (duplicates g)) (duplicate_groups run.2).
Proof.
  split; [vm_compute; reflexivity|].
  intros H.
  assert (E : duplicates
                <$> duplicate_groups
                      (Example.run Example.photos "exact" 6
                         ["a.jpg"; "b.jpg"; "b.jpg"]).2
              = [["b.jpg"; "b.jpg"]])
    by (vm_compute; reflexivity).
  destruct (duplicate_groups _) as [|g [|g' gs]]; [done| |done].
  injection E as E. apply Forall_inv in H. rewrite E in H.
  apply NoDup_cons in H as [H _]. apply H. by left.
Qed.

(** ** Determinism *)

(** C9.  A second run of the same engine on the same list, in the same
    world, returns what the first returned and leaves the same groups:
    the same identifiers, winners, reasons and all the rest.  The second
    run starts from the caches the first one filled. *)
Theorem create_duplicate_groups_deterministic (w : World)
  (files : list string) (d : Deduplicator) :
  let first := create_duplicate_groups w files d in
  let second := create_duplicate_groups w files first.2 in
  second.1 = first.1
  ∧ duplicate_groups second.2 = duplicate_groups first.2.
Proof.
  intros first second. unfold second, first.
  set (sha := sha_view w (hash_calc d)).
  set (ph := phash_view w (hash_calc d)).
  destruct (create_duplicate_groups_run w sha ph files d (agrees_view w _))
    as (hc1 & Hhc1 & ->).
  cbn [snd fst].
  destruct (create_duplicate_groups_run w sha ph files
              (set_duplicate_groups
                 (engine w sha ph (mode d) (phash_threshold d) files).1
                 (set_hash_calc hc1 d)))
    as (hc2 & Hhc2 & ->); [done|].
  done.
Qed.

(** ** Modes *)

Lemma filter_all {A} (P : A -> Prop) `{!∀ x, Decision (P x)} (l : list A) :
  (∀ x, x ∈ l → P x) → filter P l = l.
Proof.
  induction l as [|a l IH]; intros Hl; [done|].
  rewrite filter_cons_True by (apply Hl; by left).
  f_equal. apply IH. intros x Hx. apply Hl. by right.
Qed.

(** C10.  With a mode that is none of the three, neither pass runs: the
    call returns the empty list, touches no cache, and every input file
    is unique. *)
Theorem unknown_mode_no_groups (w : World) (files : list string)
  (d : Deduplicator) :
  mode d ∉ ["exact"; "perceptual"; "exact+perceptual"] →
  create_duplicate_groups w files d = (Ok [], set_duplicate_groups [] d)
  ∧ get_unique_files (create_duplicate_groups w files d).2 files = files.
Proof.
  intros Hmode.
  assert (E : create_duplicate_groups w files d
              = (Ok [], set_duplicate_groups [] d)).
  { unfold create_duplicate_groups, bind, get, put, ret.
    rewrite !bool_decide_eq_false_2; [done| |].
    - intros Hin. apply Hmode. set_solver.
    - intros Hin. apply Hmode. set_solver. }
  split; [done|]. rewrite E.
  apply filter_all. intros f _. unfold get_all_winners, get_all_duplicates.
  simpl. set_solver.
Qed.

Lemma unknown_mode_no_groups_witness :
  create_duplicate_groups (Example.world Example.photos true)
    Example.photo_paths (Deduplicator_init "fuzzy" 6)
  = (Ok [], Deduplicator_init "fuzzy" 6)
  ∧ get_unique_files
      (create_duplicate_groups (Example.world Example.photos true)
         Example.photo_paths (Deduplicator_init "fuzzy" 6)).2
      Example.photo_paths
    = Example.photo_paths.
Proof.
  apply (unknown_mode_no_groups (Example.world Example.photos true)
           Example.photo_paths (Deduplicator_init "fuzzy" 6)).
  refine (bool_decide_unpack _ _). vm_compute. exact I.
Defined.

(** ** Hamming distance *)

Lemma count_nonzero_ne_differing h1 h2 :
  count_nonzero_ne h1 h2 = differing_bits h1 h2.
Proof.
  unfold differing_bits. revert h2.
  induction h1 as [|b1 h1 IH]; intros [|b2 h2]; try done.
  cbn [count_nonzero_ne zip zip_with]. rewrite IH, filter_cons.
  cbn [fst snd]. destruct (decide (b1 ≠ b2)) as [Hne|Heq].
  - cbn [length]. destruct b1, b2; try done; cbn [Bool.eqb]; lia.
  - assert (b1 = b2) as ->.
    { destruct b1, b2; try done; exfalso; apply Heq; done. }
    rewrite Bool.eqb_reflx. lia.
Qed.

(** C4, as the code has it.  Without the library the distance is 0.  With
    it, two hashes that decode to bit arrays of the same size are at the
    number of their differing bits, and two that decode to arrays of
    different sizes are at the sentinel 999: the library's exception is
    caught and a value is returned. *)
Theorem hamming_distance_returns (w : World) (hash1 hash2 : string) :
  (IMAGEHASH_AVAILABLE w = false → hamming_distance w hash1 hash2 = 0)
  ∧ (IMAGEHASH_AVAILABLE w = true →
     ∀ h1 h2,
       imagehash_hex_to_hash w hash1 = Ok h1 →
       imagehash_hex_to_hash w hash2 = Ok h2 →
       (length h1 = length h2 →
        hamming_distance w hash1 hash2 = differing_bits h1 h2)
       ∧ (length h1 ≠ length h2 →
          hamming_distance_try w hash1 hash2 = Raise TypeError
          ∧ hamming_distance w hash1 hash2 = 999)).
Proof.
  unfold hamming_distance, hamming_distance_try. split.
  - by intros ->.
  - intros -> h1 h2 -> ->. simpl. unfold ImageHash_sub. split.
    + intros Hlen. rewrite (proj2 (Nat.eqb_eq _ _) Hlen). simpl.
      apply count_nonzero_ne_differing.
    + intros Hlen. by rewrite (proj2 (Nat.eqb_neq _ _) Hlen).
Qed.

Lemma hamming_distance_returns_witness :
  hamming_distance (Example.world Example.photos true)
    "0000000000000000" "0000000000000007" = 3.
Proof.
  destruct (hamming_distance_returns (Example.world Example.photos true)
              "0000000000000000" "0000000000000007") as [_ H].
  destruct (H eq_refl _ _ eq_refl eq_refl) as [H3 _].
  rewrite H3 by reflexivity. vm_compute. reflexivity.
Defined.

(** C4 as stated fails: for fingerprints of different lengths
    [hamming_distance] returns 999 and does not fail. *)
Lemma hamming_distance_lengths_differ :
  let w := Example.world Example.photos true in
  let a := "0000000000000000" in
  let b := "0000" in
  String.length a ≠ String.length b
  ∧ hamming_distance_try w a b = Raise TypeError
  ∧ hamming_distance w a b = 999.
Proof. split; [by vm_compute | split; vm_compute; reflexivity]. Qed.

(** ** The distance recorded with a perceptual group *)

(** C6.  A perceptual group of a run is made of a seed and of the files
    added to its cluster, each within the threshold of the seed, and its
    [phash_distance] is the least of the distances between the seed and
    those files.  Were no distance observed, [min_distance or 0] would
    record 0; a cluster that is emitted has at least one. *)
Theorem perceptual_distance_is_minimum (w : World) (files : list string)
  (d : Deduplicator) (g : DuplicateGroup) :
  let run := create_duplicate_groups w files d in
  let fingerprint := phash_view w (hash_calc d) in
  g ∈ duplicate_groups run.2 →
  detection_type g = "perceptual" →
  or_zero None = 0
  ∧ ∃ seed fp near m,
      built_from (seed :: near.*1) g
      ∧ fingerprint seed = Some fp
      ∧ near ≠ []
      ∧ (∀ x, x ∈ near →
           fingerprint x.1 = Some x.2
           ∧ hamming_distance w fp x.2 <= phash_threshold d)
      ∧ is_minimum m (hamming_distance w fp <$> near.*2)
      ∧ phash_distance g = Some m.
Proof.
  intros run fingerprint Hg Hty. split; [done|].
  unfold run in Hg. rewrite duplicate_groups_after in Hg.
  set (sha := sha_view w (hash_calc d)) in *.
  destruct (engine_structure w sha fingerprint (mode d) (phash_threshold d)
              files)
    as (gs1 & gs2 & cs1 & cs2 & E & Hsub1 & Hcs1 & Hsub2 & Hcs2).
  fold fingerprint in Hg. rewrite E in Hg.
  apply elem_of_app in Hg as [Hg|Hg].
  { apply list_elem_of_lookup in Hg as [i Hi].
    destruct (Forall2_lookup_r _ _ _ _ _ Hcs1 Hi) as (c & _ & _ & Hex & _).
    by rewrite Hex in Hty. }
  apply list_elem_of_lookup in Hg as [i Hi].
  destruct (Forall2_lookup_r _ _ _ _ _ Hcs2 Hi)
    as ([c m] & Hc & Hb & _ & Hdist).
  apply list_elem_of_lookup_2 in Hc.
  eapply elem_of_sublist in Hc; [|done].
  apply greedy_clusters_seed in Hc
    as (seed & fp & near & -> & Hne & Hseed & Hnear & Hmin).
  exists seed, fp, near, m. split_and!; try done.
  - by apply fingerprints_elem in Hseed as (_ & _ & ?).
  - intros [f h] Hx. destruct (Hnear _ Hx) as [Hin Hle].
    split; [|done]. by apply fingerprints_elem in Hin as (_ & _ & ?).
Qed.

Lemma perceptual_distance_is_minimum_witness :
  ∃ g,
    duplicate_groups
      (Example.run Example.photos "perceptual" 6 Example.photo_paths).2
    = [g]
    ∧ phash_distance g = Some 3
    ∧ ∃ seed fp near m,
        built_from (seed :: near.*1) g
        ∧ phash_view (Example.world Example.photos true) HashCalculator_init
            seed = Some fp
        ∧ near ≠ []
        ∧ (∀ x, x ∈ near →
             phash_view (Example.world Example.photos true)
               HashCalculator_init x.1 = Some x.2
             ∧ hamming_distance (Example.world Example.photos true) fp x.2
               <= 6)
        ∧ is_minimum m
            (hamming_distance (Example.world Example.photos true) fp
               <$> near.*2)
        ∧ phash_distance g = Some m.
Proof.
  eexists. split; [vm_compute; reflexivity|].
  split; [reflexivity|].
  eapply (perceptual_distance_is_minimum
            (Example.world Example.photos true) Example.photo_paths
            (Deduplicator_init "perceptual" 6));
    [vm_compute; left | reflexivity].
Defined.

(** ** The ranking of candidates *)

(** C2.  A list of one file gives that file, "only file in group".  A
    candidate has the path and size of its file and, as resolution, width
    times height, 0 when the image cannot be opened.  For two files or more
    whose sizes are available, the winner is the first of the candidates in
    ranking order (resolution descending, then size descending, then path
    ascending) and the reason is decided against the second of them.
    Outside the contract, the empty list raises [IndexError] and a file
    whose size cannot be read raises the error of [os.path.getsize]. *)
Theorem select_winner_ranking (w : World) :
  (∀ f, select_winner w [f] = Ok (f, "only file in group"))
  ∧ (∀ f c,
       candidate_of w f = Ok c →
       c_path c = f
       ∧ get_file_size w f = Ok (c_size c)
       ∧ c_resolution c
         = match Image_size w f with
           | Ok (width, height) => width * height
           | Raise _ => 0
           end)
  ∧ (∀ files cands,
       (2 <= length files)%nat →
       rfor_list (candidate_of w) files = Ok cands →
       ∃ first second rest,
         first :: second :: rest ≡ₚ cands
         ∧ StronglySorted ranked_before (first :: second :: rest)
         ∧ select_winner w files
           = Ok (c_path first, reason_for first second))
  ∧ select_winner w [] = Raise IndexError
  ∧ (∀ files e,
       (2 <= length files)%nat →
       rfor_list (candidate_of w) (sorted files) = Raise e →
       select_winner w files = Raise e).
Proof.
  split_and!.
  - done.
  - intros f c Hc. apply candidate_of_spec in Hc as (? & ? & _ & ?). done.
  - apply select_winner_sorted.
  - done.
  - intros [|a [|b files]] e Hlen He; simpl in Hlen; [lia|lia|].
    unfold select_winner. by rewrite He.
Qed.

Lemma select_winner_ranking_witness :
  let w := Example.world Example.photos true in
  ∃ first second rest,
    first :: second :: rest
    ≡ₚ [ {| c_path := "a.jpg"; c_width := Some 100; c_height := Some 100;
            c_resolution := 10000; c_size := 50000 |};
         {| c_path := "c.jpg"; c_width := Some 200; c_height := Some 200;
            c_resolution := 40000; c_size := 10000 |} ]
    ∧ StronglySorted ranked_before (first :: second :: rest)
    ∧ select_winner w ["a.jpg"; "c.jpg"]
      = Ok (c_path first, reason_for first second).
Proof.
  apply (proj1 (proj2 (proj2 (select_winner_ranking
                                (Example.world Example.photos true)))));
    [simpl; lia | vm_compute; reflexivity].
Defined.

(** The three selections of the specification's scenarios. *)
Example select_winner_by_resolution :
  select_winner
    (Example.world
       [Example.image "p.jpg" "s1" 50000 100 100 "00";
        Example.image "q.jpg" "s2" 10000 200 200 "00"] true)
    ["p.jpg"; "q.jpg"]
  = Ok ("q.jpg", "highest resolution (200x200)").
Proof. vm_compute. reflexivity. Qed.

Example select_winner_by_size :
  select_winner
    (Example.world
       [Example.image "p.jpg" "s1" 5000 100 100 "00";
        Example.image "q.jpg" "s2" 9000 100 100 "00"] true)
    ["p.jpg"; "q.jpg"]
  = Ok ("q.jpg", "largest file size (9000 bytes)").
Proof. vm_compute. reflexivity. Qed.

Example select_winner_by_path :
  select_winner
    (Example.world
       [Example.image "q.jpg" "s1" 5000 100 100 "00";
        Example.image "p.jpg" "s2" 5000 100 100 "00"] true)
    ["q.jpg"; "p.jpg"]
  = Ok ("p.jpg", "alphabetically first path").
Proof. vm_compute. reflexivity. Qed.

(** ** Greedy clustering *)

Lemma count_nonzero_ne_triangle a b c :
  length a = length b → length a = length c →
  count_nonzero_ne b c <= count_nonzero_ne a b + count_nonzero_ne a c.
Proof.
  revert b c. induction a as [|x a IH]; intros [|y b] [|z c]; simpl;
    try done; try lia.
  intros [= Hb] [= Hc]. specialize (IH b c Hb Hc).
  destruct x, y, z; simpl; lia.
Qed.

(** Distances 3 and 4 to a common fingerprint leave at most 7 between the
    other two: the sentinels 0 and 999 are neither 3 nor 4, so the three
    hashes decode to arrays of one size. *)
Lemma hamming_distance_3_4 w hA hB hC :
  hamming_distance w hA hB = 3 → hamming_distance w hA hC = 4 →
  hamming_distance w hB hC <= 7.
Proof.
  unfold hamming_distance, hamming_distance_try, ImageHash_sub.
  destruct (IMAGEHASH_AVAILABLE w); simpl; [|done].
  destruct (imagehash_hex_to_hash w hA) as [a|]; simpl; [|done].
  destruct (imagehash_hex_to_hash w hB) as [b|]; simpl; [|done].
  destruct (imagehash_hex_to_hash w hC) as [c|]; simpl;
    [|by destruct (length a =? length b)%nat].
  destruct (Nat.eqb_spec (length a) (length b)) as [Hb|]; simpl; [|done].
  destruct (Nat.eqb_spec (length a) (length c)) as [Hc|]; simpl; [|done].
  rewrite (proj2 (Nat.eqb_eq (length b) (length c))) by congruence. simpl.
  intros H3 H4. pose proof (count_nonzero_ne_triangle a b c Hb Hc). lia.
Qed.

Lemma dict_setitem_fresh {V} k (v : V) d :
  k ∉ dict_keys d → dict_setitem k v d = d ++ [(k, v)].
Proof.
  unfold dict_keys. induction d as [|[k' v'] d IH]; simpl; [done|].
  rewrite not_elem_of_cons. intros [Hne Hk].
  destruct (String.eqb_spec k' k) as [->|_]; [done|].
  by rewrite IH.
Qed.

(** The fingerprinted files are the input files that have a fingerprint,
    in input order. *)
Lemma fingerprints_in_order w ph files :
  NoDup files →
  fingerprints w ph files = omap (fingerprint_entry w ph) files.
Proof.
  unfold fingerprints. intros Hnd.
  induction files as [|f files IH] using rev_ind; [done|].
  apply NoDup_app in Hnd as (Hnd & Hf & _).
  rewrite filter_app, foldl_app, omap_app, (IH Hnd).
  unfold fingerprint_entry at 3. simpl omap.
  rewrite filter_cons, filter_nil.
  destruct (decide (is_supported_image w f)) as [Hs|Hs].
  - apply Is_true_true in Hs. rewrite Hs. simpl.
    unfold fingerprint_step. simpl truthy_str.
    destruct (ph f) as [h|]; [|by rewrite app_nil_r].
    destruct (negb _); [|by rewrite app_nil_r].
    apply dict_setitem_fresh.
    intros ([f' h'] & -> & Hin)%list_elem_of_fmap.
    apply list_elem_of_omap in Hin as (f'' & Hin & Hentry).
    unfold fingerprint_entry in Hentry. repeat case_match; simplify_eq.
    apply (Hf f' Hin). by left.
  - apply Is_true_false in Hs. rewrite Hs. simpl. by rewrite app_nil_r.
Qed.

(** C3.  [find_perceptual_duplicates] returns the clusters of the greedy
    algorithm around seeds, run on the fingerprinted files in input order
    with the Hamming distance and the threshold of the engine.  So three
    fingerprints at distances 3 and 4 from the first of them, with
    threshold 6, end up in one group of three whatever the distance
    between the other two. *)
Theorem clustering_is_greedy (w : World) :
  (∀ files d,
     (find_perceptual_duplicates w files d).1
     = Ok (greedy_clusters (hamming_distance w) (phash_threshold d) ∅
             (fingerprints w (phash_view w (hash_calc d)) files)))
  ∧ (∀ files ph,
       NoDup files →
       fingerprints w ph files = omap (fingerprint_entry w ph) files)
  ∧ (∀ (file_hashes : dict string) threshold,
       NoDup (dict_keys file_hashes) →
       cluster w file_hashes threshold
       = Ok (greedy_clusters (hamming_distance w) threshold ∅ file_hashes))
  ∧ (∀ A B C hA hB hC,
       A ≠ B → A ≠ C → B ≠ C →
       hamming_distance w hA hB = 3 →
       hamming_distance w hA hC = 4 →
       cluster w [(A, hA); (B, hB); (C, hC)] 6 = Ok [([A; B; C], 3)]).
Proof.
  split_and!.
  - intros files d.
    destruct (find_perceptual_duplicates_run w
                (sha_view w (hash_calc d)) (phash_view w (hash_calc d))
                files d (agrees_view w _)) as (hc' & _ & ->).
    unfold perceptual_groups. simpl.
    apply cluster_greedy, fingerprints_NoDup.
  - intros files ph. apply fingerprints_in_order.
  - intros. by apply cluster_greedy.
  - intros A B C hA hB hC HAB HAC HBC H3 H4.
    rewrite cluster_greedy.
    2:{ unfold dict_keys. simpl. repeat constructor; set_solver. }
    cbn [greedy_clusters].
    rewrite bool_decide_eq_false_2 by set_solver.
    rewrite filter_cons_True by (simpl; split; [set_solver | lia]).
    rewrite filter_cons_True by (simpl; split; [set_solver | lia]).
    rewrite filter_nil. cbn [fmap list_fmap fst snd].
    rewrite !bool_decide_eq_true_2 by set_solver.
    unfold minimum. simpl. rewrite H3, H4. done.
Qed.

Lemma clustering_is_greedy_witness :
  let w := Example.world Example.similar true in
  let hx := "0000000000000000" in
  let hy := "0000000000000007" in
  let hz := "f000000000000000" in
  hamming_distance w hy hz = 7
  ∧ cluster w [("x.png", hx); ("y.png", hy); ("z.png", hz)] 6
    = Ok [(["x.png"; "y.png"; "z.png"], 3)].
Proof.
  split; [vm_compute; reflexivity|].
  apply (proj2 (proj2 (proj2 (clustering_is_greedy
                                (Example.world Example.similar true)))));
    [done | done | done | vm_compute; reflexivity | vm_compute; reflexivity].
Defined.

(** The same three files through a run: one perceptual group of three. *)
Example chained_through_seed :
  (find_perceptual_duplicates (Example.world Example.similar true)
     ["x.png"; "y.png"; "z.png"] (Deduplicator_init "perceptual" 6)).1
  = Ok [(["x.png"; "y.png"; "z.png"], 3)].
Proof. vm_compute. reflexivity. Qed.

(** ** Failures of hashing *)

Lemma get_sha256_view w hc file_path :
  (get_sha256 w file_path true hc).1 = sha_view w hc file_path.
Proof.
  destruct (get_sha256_agrees w _ _ hc file_path (agrees_view w hc))
    as (hc' & _ & ->).
  done.
Qed.

Lemma get_phash_returns w hc file_path use_cache :
  ∃ r hc', get_phash w file_path use_cache hc = (Ok r, hc').
Proof.
  unfold get_phash, bind, get, try_except, lift, put, ret.
  destruct (IMAGEHASH_AVAILABLE w); simpl; [|by eauto].
  destruct (is_supported_image w file_path); simpl; [|by eauto].
  destruct (if use_cache then _ else _); [by eauto|].
  destruct (Image_phash w file_path); by eauto.
Qed.

Lemma get_phash_unavailable w hc file_path use_cache :
  IMAGEHASH_AVAILABLE w = false →
  get_phash w file_path use_cache hc = (Ok None, hc).
Proof. unfold get_phash. by intros ->. Qed.

Lemma get_phash_undecodable w hc file_path use_cache e :
  Image_phash w file_path = Raise e →
  phash_cache hc !! file_path = None ∨ use_cache = false →
  get_phash w file_path use_cache hc = (Ok None, hc).
Proof.
  intros He Hc.
  unfold get_phash, bind, get, try_except, lift, put, ret.
  destruct (IMAGEHASH_AVAILABLE w); simpl; [|done].
  destruct (is_supported_image w file_path); simpl; [|done].
  replace (if use_cache then phash_cache hc !! file_path else None)
    with (@None string)
    by (destruct Hc as [Hc|Hc]; rewrite Hc; by destruct use_cache).
  by rewrite He.
Qed.

Section Failures.
Variable w : World.
Variable sha : string -> result string.
Variable ph : string -> option string.

Lemma exact_buckets_readable acc files :
  foldl (bucket_step sha) acc files
  = foldl (bucket_step sha) acc (filter (fun f => is_Ok (sha f)) files).
Proof.
  revert acc. induction files as [|f files IH]; intros acc; [done|].
  rewrite filter_cons. destruct (decide (is_Ok (sha f))) as [Hf|Hf].
  - simpl. apply IH.
  - simpl. rewrite <- IH. f_equal. unfold bucket_step.
    by destruct (sha f).
Qed.

Lemma exact_groups_readable files :
  exact_groups sha files
  = exact_groups sha (filter (fun f => is_Ok (sha f)) files).
Proof.
  unfold exact_groups, exact_buckets. by rewrite <- exact_buckets_readable.
Qed.

Lemma exact_groups_digest files g f :
  g ∈ exact_groups sha files → f ∈ g →
  f ∈ files ∧ is_Ok (sha f) = true.
Proof.
  intros (k & -> & _)%exact_groups_elem [Hd Hf]%list_elem_of_filter.
  split; [done|]. apply has_digest_iff in Hd. by rewrite Hd.
Qed.

Lemma select_winner_total files :
  files ≠ [] →
  (∀ f, f ∈ files → is_Ok (get_file_size w f) = true) →
  is_Ok (select_winner w files) = true.
Proof.
  intros Hne Hsize.
  destruct files as [|a [|b files]]; [done|done|].
  destruct (rfor_list_total (candidate_of w) (a :: b :: files))
    as [cands Hcands].
  { apply Forall_forall. intros f Hf.
    rewrite candidate_of_total. by apply Hsize. }
  destruct (select_winner_sorted w (a :: b :: files) cands)
    as (first & second & rest & _ & _ & ->); [simpl; lia | done | done].
Qed.

Lemma file_metadata_total f :
  is_Ok (sha f) = true → is_Ok (get_file_size w f) = true →
  is_Ok (file_metadata w sha f) = true.
Proof.
  unfold file_metadata.
  destruct (get_image_dimensions w f) as [width height].
  destruct (get_file_size w f); [|done].
  by destruct (sha f).
Qed.

Lemma build_group_total dtype next_id group_files distance :
  group_files ≠ [] →
  (∀ f, f ∈ group_files →
        is_Ok (sha f) = true ∧ is_Ok (get_file_size w f) = true) →
  is_Ok (build_group w sha dtype next_id group_files distance) = true.
Proof.
  intros Hne Hok. unfold build_group.
  assert (Hsel : is_Ok (select_winner w group_files) = true).
  { apply select_winner_total; [done|]. intros f Hf. by apply Hok. }
  destruct (select_winner w group_files) as [[winner_path reason_text]|]
    eqn:Hw; [|done].
  simpl. apply select_winner_elem in Hw.
  pose proof (file_metadata_total winner_path) as Hmd.
  destruct (file_metadata w sha winner_path) as [winner_md|];
    [|apply Hmd; by apply Hok].
  simpl.
  destruct (rfor_list_total (file_metadata w sha)
              (filter (fun f => f ≠ winner_path) group_files))
    as [dup_md ->]; [|done].
  apply Forall_forall. intros f [_ Hf]%list_elem_of_filter.
  apply file_metadata_total; by apply Hok.
Qed.

Lemma build_groups_total dtype next_id candidates :
  (∀ c, c ∈ candidates →
        c.1 ≠ []
        ∧ ∀ f, f ∈ c.1 →
               is_Ok (sha f) = true ∧ is_Ok (get_file_size w f) = true) →
  is_Ok (build_groups w sha dtype next_id candidates).2 = true.
Proof.
  revert next_id.
  induction candidates as [|[group_files distance] candidates IH];
    intros next_id Hok; simpl; [done|].
  destruct (Hok (group_files, distance)) as [Hne Hfiles]; [by left|].
  pose proof (build_group_total dtype next_id group_files distance
                Hne Hfiles) as Hg.
  destruct (build_group w sha dtype next_id group_files distance);
    [|done].
  specialize (IH (next_id + 1)).
  destruct (build_groups w sha dtype (next_id + 1) candidates)
    as [groups r].
  apply IH. intros c Hc. apply Hok. by right.
Qed.

(** The run returns when every input file that has a digest or a
    fingerprint has a digest and a size. *)
Lemma engine_total mode threshold files :
  (∀ f, f ∈ files →
        is_Ok (sha f) = true ∨ is_Some (ph f) →
        is_Ok (sha f) = true ∧ is_Ok (get_file_size w f) = true) →
  is_Ok (engine_result w sha ph mode threshold files) = true.
Proof.
  intros Hok. unfold engine_result, engine.
  assert (Hexact : is_Ok (exact_pass w sha mode files).2 = true).
  { unfold exact_pass. case_bool_decide; [|done].
    apply build_groups_total.
    intros c (g & -> & Hg)%list_elem_of_fmap. simpl. split.
    - apply exact_groups_elem in Hg as (k & _ & Hlen).
      intros ->. simpl in Hlen. lia.
    - intros f Hf. destruct (exact_groups_digest files g f Hg Hf).
      apply Hok; [done | by left]. }
  destruct (exact_pass w sha mode files) as [gs1 [next_id|]]; [|done].
  assert (Hperc :
    is_Ok (perceptual_pass w sha ph mode threshold files gs1 next_id).2
    = true).
  { unfold perceptual_pass, perceptual_groups. case_bool_decide; [|done].
    rewrite cluster_greedy by apply fingerprints_NoDup.
    apply build_groups_total.
    intros c ([g dist] & -> & Hg)%list_elem_of_fmap. simpl. split.
    - apply greedy_clusters_seed in Hg as (seed & fp & near & -> & _).
      done.
    - intros f Hf.
      destruct (greedy_clusters_elem _ _ _ _ _ f Hg Hf) as [Hkey _].
      apply fingerprints_key in Hkey as [Hrem [h Hh]].
      apply list_elem_of_filter in Hrem as [_ Hin].
      apply Hok; [done|]. right. by rewrite Hh. }
  destruct (perceptual_pass w sha ph mode threshold files gs1 next_id)
    as [gs2 [m|]]; done.
Qed.
End Failures.

(** X29.  What holds of hashing failures.  The exact pass never raises:
    it returns one group for each digest that two input files or more
    have, the same groups as on the input without the files whose digest
    cannot be computed, and such a file is in none of them.  [get_phash]
    never raises, and returns [None] when the library is missing or the
    image cannot be decoded; a file without a fingerprint is in no
    cluster and the perceptual pass returns.  The run as a whole returns
    if every input file that has a digest or a fingerprint has both a
    digest and a size; it need not return otherwise. *)
Theorem hashing_failures_are_local (w : World) (files : list string)
  (d : Deduplicator) :
  let sha := sha_view w (hash_calc d) in
  let ph := phash_view w (hash_calc d) in
  (∀ f, (get_sha256 w f true (hash_calc d)).1 = sha f)
  ∧ (∃ groups d',
       find_exact_duplicates w files d = (Ok groups, d')
       ∧ (∀ g, g ∈ groups
               ↔ ∃ k, g = filter (fun f => has_digest sha k f) files
                      ∧ (1 < length g)%nat)
       ∧ (find_exact_duplicates w
            (filter (fun f => is_Ok (sha f)) files) d).1
         = Ok groups
       ∧ (∀ f g, is_Ok (sha f) = false → g ∈ groups → f ∉ g))
  ∧ (∀ f hc use_cache,
       (∃ r hc', get_phash w f use_cache hc = (Ok r, hc'))
       ∧ (IMAGEHASH_AVAILABLE w = false →
          get_phash w f use_cache hc = (Ok None, hc))
       ∧ (∀ e, Image_phash w f = Raise e →
               phash_cache hc !! f = None ∨ use_cache = false →
               get_phash w f use_cache hc = (Ok None, hc)))
  ∧ (∀ f, (get_phash w f true (hash_calc d)).1 = Ok (ph f))
  ∧ (∃ clusters d',
       find_perceptual_duplicates w files d = (Ok clusters, d')
       ∧ ∀ f c, ph f = None → c ∈ clusters → f ∉ c.1)
  ∧ ((∀ f, f ∈ files →
           is_Ok (sha f) = true ∨ is_Some (ph f) →
           is_Ok (sha f) = true ∧ is_Ok (get_file_size w f) = true) →
     is_Ok (create_duplicate_groups w files d).1 = true).
Proof.
  intros sha ph. split_and!.
  - intros f. apply get_sha256_view.
  - destruct (computes_find_exact_duplicates w sha ph files d
                (agrees_view w _)) as (hc' & _ & ->).
    do 2 eexists. split_and!; [done| | |].
    + intros g. split; [apply exact_groups_elem|].
      intros (k & -> & Hlen). by apply exact_groups_complete.
    + destruct (computes_find_exact_duplicates w sha ph
                  (filter (fun f => is_Ok (sha f)) files) d
                  (agrees_view w _)) as (hc'' & _ & ->).
      simpl. by rewrite <- exact_groups_readable.
    + intros f g Hf Hg Hin.
      destruct (exact_groups_digest sha files g f Hg Hin). congruence.
  - intros f hc use_cache. split_and!.
    + apply get_phash_returns.
    + apply get_phash_unavailable.
    + intros e. apply get_phash_undecodable.
  - intros f.
    destruct (get_phash_agrees w sha ph (hash_calc d) f (agrees_view w _))
      as (hc' & _ & ->).
    done.
  - destruct (find_perceptual_duplicates_run w sha ph files d
                (agrees_view w _)) as (hc' & _ & ->).
    unfold perceptual_groups.
    rewrite cluster_greedy by apply fingerprints_NoDup.
    do 2 eexists. split; [done|].
    intros f c Hf Hc Hin.
    destruct (greedy_clusters_elem _ _ _ _ _ f Hc Hin) as [Hkey _].
    apply fingerprints_key in Hkey as [_ [h Hh]]. congruence.
  - intros Hok. rewrite result_after. by apply engine_total.
Qed.

Lemma hashing_failures_are_local_witness :
  let w := Example.world Example.damaged true in
  let files := ["a.jpg"; "bad.jpg"; "b.jpg"] in
  let d := Deduplicator_init "exact+perceptual" 6 in
  (get_sha256 w "bad.jpg" true (hash_calc d)).1 = Raise OSError
  ∧ (find_exact_duplicates w files d).1 = Ok [["a.jpg"; "b.jpg"]]
  ∧ (get_phash w "bad.jpg" true (hash_calc d)).1 = Ok None
  ∧ is_Ok (create_duplicate_groups w files d).1 = true.
Proof.
  intros w files d.
  split; [vm_compute; reflexivity|].
  split; [vm_compute; reflexivity|].
  split; [vm_compute; reflexivity|].
  apply (hashing_failures_are_local w files d).
  intros f Hf Hhash. unfold files in Hf.
  apply elem_of_cons in Hf as [->|Hf]; [vm_compute; done|].
  apply elem_of_cons in Hf as [->|Hf].
  { exfalso. destruct Hhash as [H|H]; vm_compute in H; [done|].
    by destruct H. }
  apply elem_of_cons in Hf as [->|Hf]; [vm_compute; done|].
  by apply elem_of_nil in Hf.
Defined.

(** C7.  A hashing failure can end the run.  The digest of [x.png]
    raises, so the exact pass leaves the file out and returns no group;
    its fingerprint is within the threshold of that of [y.png], so the
    perceptual pass clusters the two; [_get_file_metadata] then asks for
    the digest of [x.png] again, outside any [try], and
    [create_duplicate_groups] raises the [OSError], in mode perceptual
    and in mode exact+perceptual, leaving no group. *)
Theorem undigested_image_aborts_run :
  let w := Example.world undigested true in
  let files := ["x.png"; "y.png"] in
  (get_sha256 w "x.png" true HashCalculator_init).1 = Raise OSError
  ∧ (get_phash w "x.png" true HashCalculator_init).1
    = Ok (Some "0000000000000000")
  ∧ (find_exact_duplicates w files
       (Deduplicator_init "exact+perceptual" 6)).1 = Ok []
  ∧ (find_perceptual_duplicates w files
       (Deduplicator_init "exact+perceptual" 6)).1
    = Ok [(["x.png"; "y.png"], 3)]
  ∧ (create_duplicate_groups w files (Deduplicator_init "perceptual" 6)).1
    = Raise OSError
  ∧ (create_duplicate_groups w files
       (Deduplicator_init "exact+perceptual" 6)).1 = Raise OSError
  ∧ duplicate_groups
      (create_duplicate_groups w files
         (Deduplicator_init "exact+perceptual" 6)).2 = []
  ∧ (create_duplicate_groups w files (Deduplicator_init "exact" 6)).1
    = Ok [].
Proof. repeat split; vm_compute; reflexivity. Qed.

(** * Further properties of the engine *)

(** ** Every group of a run *)

Section Anatomy.
Variable w : World.
Variable sha : string -> result string.
Variable ph : string -> option string.

Lemma exact_pass_spec mode files :
  let '(gs, r) := exact_pass w sha mode files in
  (∀ i g, gs !! i = Some g →
     mode ∈ ["exact"; "exact+perceptual"]
     ∧ ∃ c, exact_groups sha files !! i = Some c
            ∧ build_group w sha "exact" (Z.of_nat i) c None = Ok g)
  ∧ (∀ m, r = Ok m →
       m = Z.of_nat (length gs)
       ∧ (mode ∈ ["exact"; "exact+perceptual"] →
          length gs = length (exact_groups sha files))).
Proof.
  unfold exact_pass. case_bool_decide as Hmode.
  - pose proof (build_groups_spec w sha "exact" 0
                  ((fun g => (g, None)) <$> exact_groups sha files)) as Hb.
    destruct (build_groups _ _ _ _ _) as [gs r].
    destruct Hb as (_ & Hlook & Hend). split.
    + intros i g Hi. split; [done|].
      destruct (Hlook i g Hi) as (c & Hc & Hg).
      rewrite list_lookup_fmap in Hc.
      destruct (exact_groups sha files !! i) as [c0|]; [|done].
      injection Hc as <-. by exists c0.
    + intros m Hm. destruct (Hend m Hm) as [Hlen ->].
      rewrite length_fmap in Hlen. rewrite length_fmap. split; [lia|done].
  - split; [by intros i g ?|]. by intros m [= <-].
Qed.

Lemma perceptual_pass_spec mode threshold files groups next_id :
  let clusters :=
    greedy_clusters (hamming_distance w) threshold ∅
      (fingerprints w ph (remaining_files_of groups files)) in
  let '(gs, r) :=
    perceptual_pass w sha ph mode threshold files groups next_id in
  (∀ i g, gs !! i = Some g →
     mode ∈ ["perceptual"; "exact+perceptual"]
     ∧ ∃ c, clusters !! i = Some c
            ∧ build_group w sha "perceptual" (next_id + Z.of_nat i)
                c.1 (Some c.2) = Ok g)
  ∧ (∀ m, r = Ok m →
       mode ∈ ["perceptual"; "exact+perceptual"] →
       length gs = length clusters).
Proof.
  intros clusters. unfold perceptual_pass, perceptual_groups.
  case_bool_decide as Hmode.
  - rewrite cluster_greedy by apply fingerprints_NoDup. fold clusters.
    pose proof (build_groups_spec w sha "perceptual" next_id
                  ((fun '(g, d) => (g, Some d)) <$> clusters)) as Hb.
    destruct (build_groups _ _ _ _ _) as [gs r].
    destruct Hb as (_ & Hlook & Hend). split.
    + intros i g Hi. split; [done|].
      destruct (Hlook i g Hi) as (c & Hc & Hg).
      rewrite list_lookup_fmap in Hc.
      destruct (clusters !! i) as [[c0 d0]|]; [|done].
      injection Hc as <-. by exists (c0, d0).
    + intros m Hm _. destruct (Hend m Hm) as [Hlen _].
      by rewrite length_fmap in Hlen.
  - split; [by intros i g ?|]. by intros m _ ?.
Qed.

(** The group at position [i]: built by [build_group] with identifier [i],
    from an exact group of the input, or from a cluster of the files the
    exact pass left. *)
Lemma engine_lookup mode threshold files i g :
  (engine w sha ph mode threshold files).1 !! i = Some g →
  (mode ∈ ["exact"; "exact+perceptual"]
   ∧ ∃ c, c ∈ exact_groups sha files
          ∧ build_group w sha "exact" (Z.of_nat i) c None = Ok g)
  ∨ (mode ∈ ["perceptual"; "exact+perceptual"]
     ∧ ∃ c,
         c ∈ greedy_clusters (hamming_distance w) threshold ∅
               (fingerprints w ph
                  (remaining_files_of (exact_pass w sha mode files).1 files))
         ∧ build_group w sha "perceptual" (Z.of_nat i) c.1 (Some c.2)
           = Ok g).
Proof.
  unfold engine.
  pose proof (exact_pass_spec mode files) as H1.
  destruct (exact_pass w sha mode files) as [gs1 r1].
  destruct H1 as [Hlook1 Hend1]. simpl.
  assert (Hleft : ∀ i g, gs1 !! i = Some g →
    mode ∈ ["exact"; "exact+perceptual"]
    ∧ ∃ c, c ∈ exact_groups sha files
           ∧ build_group w sha "exact" (Z.of_nat i) c None = Ok g).
  { intros i' g' Hi'. destruct (Hlook1 i' g' Hi') as (? & c & Hc & ?).
    split; [done|]. exists c. split; [|done].
    by eapply list_elem_of_lookup_2. }
  destruct r1 as [next_id|e]; [|intros Hi; left; by apply Hleft].
  destruct (Hend1 next_id eq_refl) as [-> _].
  pose proof (perceptual_pass_spec mode threshold files gs1
                (Z.of_nat (length gs1))) as H2.
  destruct (perceptual_pass _ _ _ _ _ _ _ _) as [gs2 r2].
  destruct H2 as [Hlook2 _]. simpl.
  intros Hi. apply lookup_app_Some in Hi as [Hi|[Hge Hi]].
  - left. by apply Hleft.
  - right. destruct (Hlook2 _ g Hi) as (? & c & Hc & Hg).
    split; [done|]. exists c. split; [by eapply list_elem_of_lookup_2|].
    rewrite <- Hg. f_equal. lia.
Qed.

(** When the run returns, every exact group of the input and every cluster
    of the files left has its group. *)
Lemma engine_complete mode threshold files groups :
  engine_result w sha ph mode threshold files = Ok groups →
  (mode ∈ ["exact"; "exact+perceptual"] →
   ∀ c, c ∈ exact_groups sha files →
     ∃ i g, groups !! i = Some g
            ∧ build_group w sha "exact" (Z.of_nat i) c None = Ok g)
  ∧ (mode ∈ ["perceptual"; "exact+perceptual"] →
     ∀ c,
       c ∈ greedy_clusters (hamming_distance w) threshold ∅
             (fingerprints w ph
                (remaining_files_of (exact_pass w sha mode files).1 files)) →
       ∃ i g, groups !! i = Some g
              ∧ build_group w sha "perceptual" (Z.of_nat i) c.1 (Some c.2)
                = Ok g).
Proof.
  unfold engine_result, engine.
  pose proof (exact_pass_spec mode files) as H1.
  destruct (exact_pass w sha mode files) as [gs1 r1].
  destruct H1 as [Hlook1 Hend1]. simpl.
  destruct r1 as [next_id|e]; [|done].
  destruct (Hend1 next_id eq_refl) as [-> Hlen1].
  pose proof (perceptual_pass_spec mode threshold files gs1
                (Z.of_nat (length gs1))) as H2.
  destruct (perceptual_pass _ _ _ _ _ _ _ _) as [gs2 r2].
  destruct H2 as [Hlook2 Hend2]. simpl.
  destruct r2 as [m|e]; [|done]. simpl. intros [= <-]. split.
  - intros Hmode c [i Hi]%list_elem_of_lookup.
    destruct (lookup_lt_is_Some_2 gs1 i) as [g Hg].
    { rewrite (Hlen1 Hmode). by eapply lookup_lt_Some. }
    exists i, g. split; [by apply lookup_app_l_Some|].
    destruct (Hlook1 i g Hg) as (_ & c' & Hc' & Hb). congruence.
  - intros Hmode c [i Hi]%list_elem_of_lookup.
    destruct (lookup_lt_is_Some_2 gs2 i) as [g Hg].
    { rewrite (Hend2 m eq_refl Hmode). by eapply lookup_lt_Some. }
    exists (length gs1 + i)%nat, g. split.
    + rewrite lookup_app_r by lia. rewrite <- Hg. f_equal. lia.
    + destruct (Hlook2 i g Hg) as (_ & c' & Hc' & Hb).
      assert (c' = c) as -> by congruence.
      rewrite <- Hb. f_equal. lia.
Qed.
End Anatomy.

(** ** Identifiers, kinds and distances *)

(** X1.  The identifier of a group is its position in
    [self.duplicate_groups]: the counter starts at 0 with the list empty
    and both grow together, through both passes and up to an exception. *)
Theorem group_ids_are_positions (w : World) (files : list string)
  (d : Deduplicator) :
  let groups := duplicate_groups (create_duplicate_groups w files d).2 in
  group_id <$> groups = Z.of_nat <$> seq 0 (length groups).
Proof.
  intros groups. unfold groups. rewrite duplicate_groups_after.
  set (sha := sha_view w (hash_calc d)).
  set (ph := phash_view w (hash_calc d)).
  apply list_eq. intros i. rewrite !list_lookup_fmap.
  destruct ((engine w sha ph (mode d) (phash_threshold d) files).1 !! i)
    as [g|] eqn:Hi; simpl.
  - rewrite lookup_seq_lt by (by eapply lookup_lt_Some). simpl. f_equal.
    apply engine_lookup in Hi as [(_ & c & _ & Hb)|(_ & c & _ & Hb)];
      apply build_group_spec in Hb as (_ & ? & _); done.
  - apply lookup_ge_None in Hi. by rewrite lookup_seq_ge.
Qed.

Lemma count_nonzero_ne_nonneg h1 h2 : 0 <= count_nonzero_ne h1 h2.
Proof.
  revert h2. induction h1 as [|b1 h1 IH]; intros [|b2 h2]; simpl; try lia.
  specialize (IH h2). destruct (Bool.eqb b1 b2); lia.
Qed.

Lemma hamming_distance_nonneg w hash1 hash2 :
  0 <= hamming_distance w hash1 hash2.
Proof.
  unfold hamming_distance, hamming_distance_try, ImageHash_sub.
  destruct (IMAGEHASH_AVAILABLE w); simpl; [|lia].
  destruct (imagehash_hex_to_hash w hash1) as [h1|]; simpl; [|lia].
  destruct (imagehash_hex_to_hash w hash2) as [h2|]; simpl; [|lia].
  destruct (length h1 =? length h2)%nat; simpl; [|lia].
  apply count_nonzero_ne_nonneg.
Qed.

(** X2.  The groups of the exact pass come first and carry no distance;
    those of the perceptual pass follow, each with a distance between 0
    and the threshold.  A pass the mode leaves out gives no group. *)
Theorem exact_groups_come_first (w : World) (files : list string)
  (d : Deduplicator) :
  ∃ gs1 gs2,
    duplicate_groups (create_duplicate_groups w files d).2 = gs1 ++ gs2
    ∧ Forall
        (fun g => detection_type g = "exact" ∧ phash_distance g = None) gs1
    ∧ Forall
        (fun g =>
           detection_type g = "perceptual"
           ∧ ∃ m, phash_distance g = Some m ∧ 0 <= m <= phash_threshold d)
        gs2
    ∧ (mode d ∉ ["exact"; "exact+perceptual"] → gs1 = [])
    ∧ (mode d ∉ ["perceptual"; "exact+perceptual"] → gs2 = []).
Proof.
  rewrite duplicate_groups_after.
  set (sha := sha_view w (hash_calc d)).
  set (ph := phash_view w (hash_calc d)).
  unfold engine.
  pose proof (exact_pass_spec w sha (mode d) files) as H1.
  destruct (exact_pass w sha (mode d) files) as [gs1 r1].
  destruct H1 as [Hlook1 Hend1].
  assert (Hgs1 : Forall
    (fun g => detection_type g = "exact" ∧ phash_distance g = None) gs1).
  { apply Forall_forall. intros g [i Hi]%list_elem_of_lookup.
    destruct (Hlook1 i g Hi) as (_ & c & _ & Hb).
    apply build_group_spec in Hb as (_ & _ & ? & ? & _). done. }
  assert (Hno1 : mode d ∉ ["exact"; "exact+perceptual"] → gs1 = []).
  { intros Hmode. destruct gs1 as [|g gs1]; [done|].
    by destruct (Hlook1 0%nat g eq_refl) as [? _]. }
  destruct r1 as [next_id|e].
  2:{ exists gs1, []. simpl. rewrite app_nil_r. by split_and!. }
  pose proof (perceptual_pass_spec w sha ph (mode d) (phash_threshold d)
                files gs1 next_id) as H2.
  destruct (perceptual_pass _ _ _ _ _ _ _ _) as [gs2 r2].
  destruct H2 as [Hlook2 _]. simpl.
  exists gs1, gs2. split_and!; [done|done| |done|].
  - apply Forall_forall. intros g [i Hi]%list_elem_of_lookup.
    destruct (Hlook2 i g Hi) as (_ & [c m] & Hc & Hb).
    apply build_group_spec in Hb as (_ & _ & ? & ? & _).
    split; [done|]. exists m. split; [done|].
    apply list_elem_of_lookup_2, greedy_clusters_seed in Hc
      as (seed & fp & near & _ & _ & _ & Hnear & [Hm _]).
    apply list_elem_of_fmap in Hm as (h & -> & Hh).
    apply list_elem_of_fmap in Hh as (x & -> & Hx).
    split; [apply hamming_distance_nonneg | by apply Hnear].
  - intros Hmode. destruct gs2 as [|g gs2]; [done|].
    by destruct (Hlook2 0%nat g eq_refl) as [? _].
Qed.

(** ** What a group records *)

Section Records.
Variable w : World.
Variable sha : string -> result string.

Lemma file_metadata_describes f md :
  file_metadata w sha f = Ok md → describes w sha f md.
Proof.
  unfold file_metadata, describes.
  destruct (get_image_dimensions w f) as [width height].
  destruct (get_file_size w f) as [size|]; simpl; [|done].
  destruct (sha f) as [h|]; simpl; [|done].
  by intros [= <-].
Qed.

Lemma build_group_metadata dtype next_id group_files distance g :
  build_group w sha dtype next_id group_files distance = Ok g →
  (∃ winner_path md,
     winner g = Some winner_path ∧ winner_metadata g = Some md
     ∧ describes w sha winner_path md)
  ∧ Forall2 (describes w sha) (duplicates g) (duplicate_metadata g).
Proof.
  unfold build_group.
  destruct (select_winner w group_files) as [[winner_path reason_text]|];
    simpl; [|done].
  destruct (file_metadata w sha winner_path) as [winner_md|] eqn:Hmd;
    simpl; [|done].
  destruct (rfor_list _ _) as [dup_md|] eqn:Hdup; simpl; [|done].
  intros [= <-]. simpl. split.
  - exists winner_path, winner_md. split_and!; try done.
    by apply file_metadata_describes.
  - apply rfor_list_Forall2 in Hdup.
    eapply Forall2_impl; [exact Hdup|]. apply file_metadata_describes.
Qed.
End Records.

(** X3.  Each group records the metadata of its winner and, position by
    position, of its duplicates: the path, the digest [get_sha256] gave,
    the size and the dimensions.  The two lists have the same length, so
    [duplicate_metadata[i]] is there for every index of [duplicates]. *)
Theorem metadata_describes_files (w : World) (files : list string)
  (d : Deduplicator) :
  let sha := sha_view w (hash_calc d) in
  Forall
    (fun g =>
       (∃ winner_path md,
          winner g = Some winner_path ∧ winner_metadata g = Some md
          ∧ describes w sha winner_path md)
       ∧ Forall2 (describes w sha) (duplicates g) (duplicate_metadata g)
       ∧ length (duplicate_metadata g) = length (duplicates g))
    (duplicate_groups (create_duplicate_groups w files d).2).
Proof.
  intros sha. rewrite duplicate_groups_after. fold sha.
  apply Forall_forall. intros g [i Hi]%list_elem_of_lookup.
  assert (∃ dtype c dist,
            build_group w sha dtype (Z.of_nat i) c dist = Ok g)
    as (dtype & c & dist & Hb).
  { apply engine_lookup in Hi as [(_ & c & _ & Hb)|(_ & c & _ & Hb)];
      by do 3 eexists. }
  apply build_group_metadata in Hb as [Hw Hd].
  split_and!; [done|done|]. symmetry. by eapply Forall2_length.
Qed.

(** ** The winner and the ranking *)

Lemma ranked_before_antisym a b :
  ranked_before a b → ranked_before b a →
  c_resolution a = c_resolution b ∧ c_size a = c_size b
  ∧ c_path a = c_path b.
Proof.
  unfold ranked_before.
  intros [?|[? [?|[? [?|Hab]]]]] [?|[? [?|[? [?|Hba]]]]]; try lia; try done.
  exfalso. eapply (StrictOrder_Irreflexive (R := String_as_OT.lt)).
  etrans; [exact Hab | exact Hba].
Qed.

Section Outranks.
Variable w : World.

Lemma candidate_of_path f c : candidate_of w f = Ok c → c_path c = f.
Proof. intros H. by apply candidate_of_spec in H as [? _]. Qed.

(** The winner of two files or more: its entry is ranked before the entry
    of every other file of the list. *)
Lemma select_winner_outranks group_files winner_path reason_text :
  (2 <= length group_files)%nat →
  select_winner w group_files = Ok (winner_path, reason_text) →
  ∃ cw,
    candidate_of w winner_path = Ok cw
    ∧ ∀ f, f ∈ group_files → f ≠ winner_path →
        ∃ cf, candidate_of w f = Ok cf
              ∧ ranked_before cw cf ∧ ¬ ranked_before cf cw.
Proof.
  intros Hlen Hsel.
  assert (∃ cands, rfor_list (candidate_of w) group_files = Ok cands)
    as [cands Hcands].
  { destruct group_files as [|f1 [|f2 fs]]; [simpl in Hlen; lia..|].
    unfold select_winner in Hsel.
    destruct (rfor_list (candidate_of w) (sorted (f1 :: f2 :: fs)))
      as [cands'|] eqn:Hc; [|done].
    destruct (rfor_list_perm (candidate_of w) (sorted (f1 :: f2 :: fs))
                (f1 :: f2 :: fs) cands') as (cands & ? & _);
      [apply sort_with_perm | done | by exists cands]. }
  destruct (select_winner_sorted w group_files cands Hlen Hcands)
    as (first & second & rest & Hperm & Hsorted & Hsel').
  rewrite Hsel' in Hsel. injection Hsel as <- _.
  apply rfor_list_Forall2 in Hcands.
  assert (Hof : ∀ c, c ∈ cands → candidate_of w (c_path c) = Ok c).
  { intros c [i Hi]%list_elem_of_lookup.
    destruct (Forall2_lookup_r _ _ _ _ _ Hcands Hi) as (f & _ & Hf).
    by rewrite (candidate_of_path f c Hf). }
  exists first. split.
  { apply Hof. rewrite <- Hperm. by left. }
  intros f [i Hi]%list_elem_of_lookup Hne.
  destruct (Forall2_lookup_l _ _ _ _ _ Hcands Hi) as (cf & Hcf & Hf).
  exists cf. split; [done|].
  pose proof (candidate_of_path f cf Hf) as Hpath.
  apply list_elem_of_lookup_2 in Hcf. rewrite <- Hperm in Hcf.
  apply elem_of_cons in Hcf as [->|Hcf]; [done|].
  apply StronglySorted_inv in Hsorted as [_ Hall].
  rewrite List.Forall_forall in Hall.
  assert (Hr : ranked_before first cf).
  { apply Hall. by apply list_elem_of_In. }
  split; [done|]. intros Hr'.
  destruct (ranked_before_antisym first cf Hr Hr') as (_ & _ & ?).
  congruence.
Qed.
End Outranks.

(** X4.  In every group the candidate entry of the winner is ranked
    before that of each duplicate, and not the other way round: no
    duplicate has a higher resolution, nor the same resolution and a
    larger size, nor both the same and a path that sorts first. *)
Theorem winner_outranks_duplicates (w : World) (files : list string)
  (d : Deduplicator) :
  Forall
    (fun g =>
       ∃ winner_path cw,
         winner g = Some winner_path
         ∧ candidate_of w winner_path = Ok cw
         ∧ ∀ f, f ∈ duplicates g →
             ∃ cf, candidate_of w f = Ok cf
                   ∧ ranked_before cw cf ∧ ¬ ranked_before cf cw)
    (duplicate_groups (create_duplicate_groups w files d).2).
Proof.
  rewrite duplicate_groups_after.
  set (sha := sha_view w (hash_calc d)).
  set (ph := phash_view w (hash_calc d)).
  apply Forall_forall. intros g [i Hi]%list_elem_of_lookup.
  assert (∃ dtype c dist,
            (2 <= length c)%nat
            ∧ build_group w sha dtype (Z.of_nat i) c dist = Ok g)
    as (dtype & c & dist & Hlen & Hb).
  { apply engine_lookup in Hi as [(_ & c & Hc & Hb)|(_ & c & Hc & Hb)].
    - exists "exact", c, None. split; [|done].
      apply exact_groups_elem in Hc as (k & _ & ?). lia.
    - exists "perceptual", c.1, (Some c.2). split; [|done].
      destruct c as [c m].
      apply greedy_clusters_seed in Hc as (seed & fp & near & -> & Hne & _).
      destruct near; [done|]. simpl. lia. }
  apply build_group_spec in Hb
    as ((wp' & Hw' & _ & Hdups) & _ & _ & _ & (wp & Hw & Hsel)).
  assert (wp' = wp) as -> by congruence.
  destruct (select_winner_outranks w c wp (reason g) Hlen Hsel)
    as (cw & Hcw & Hall).
  exists wp, cw. split_and!; [done|done|].
  intros f Hf. rewrite Hdups in Hf.
  apply list_elem_of_filter in Hf as [Hne Hf]. by apply Hall.
Qed.

(** ** Images, videos and the perceptual pass *)

Lemma image_is_not_video w file_path :
  is_supported_image w file_path = true →
  is_supported_video w file_path = false.
Proof.
  unfold is_supported_image, is_supported_video.
  intros Himg%bool_decide_eq_true. apply bool_decide_eq_false.
  unfold supported_extensions in Himg. unfold video_extensions.
  intros Hvid.
  repeat (apply elem_of_cons in Himg as [Himg|Himg];
          [rewrite Himg in Hvid;
           repeat (apply elem_of_cons in Hvid as [Hvid|Hvid]; [done|]);
           by apply elem_of_nil in Hvid|]).
  by apply elem_of_nil in Himg.
Qed.

Lemma fingerprint_fold_truthy ph acc l :
  (∀ f h, (f, h) ∈ acc → h ≠ "") →
  ∀ f h, (f, h) ∈ foldl (fingerprint_step ph) acc l → h ≠ "".
Proof.
  revert acc. induction l as [|x l IH]; intros acc Hacc; [done|].
  simpl. apply IH. unfold fingerprint_step.
  destruct (ph x) as [hx|]; [|done]. simpl.
  destruct (String.eqb hx "") eqn:Hx; simpl; [done|].
  intros f h [[_ ->]|Hin]%dict_setitem_elem; [|by eapply Hacc].
  intros ->. by rewrite String.eqb_refl in Hx.
Qed.

Lemma fingerprints_truthy w ph files f h :
  (f, h) ∈ fingerprints w ph files → h ≠ "".
Proof.
  apply fingerprint_fold_truthy. by intros ? ? ?%elem_of_nil.
Qed.

(** X5.  The files of a perceptual group are input files with an image
    extension, so none has a video extension, and [get_phash] gave each a
    fingerprint that is not the empty string. *)
Theorem perceptual_members_are_images (w : World) (files : list string)
  (d : Deduplicator) (g : DuplicateGroup) (f : string) :
  g ∈ duplicate_groups (create_duplicate_groups w files d).2 →
  detection_type g = "perceptual" →
  Some f ∈ group_files_of g →
  f ∈ files
  ∧ is_supported_image w f = true
  ∧ is_supported_video w f = false
  ∧ ∃ h, phash_view w (hash_calc d) f = Some h ∧ h ≠ "".
Proof.
  rewrite duplicate_groups_after.
  set (sha := sha_view w (hash_calc d)).
  set (ph := phash_view w (hash_calc d)).
  intros [i Hi]%list_elem_of_lookup Hty Hf.
  apply engine_lookup in Hi as [(_ & c & _ & Hb)|(_ & c & Hc & Hb)].
  { apply build_group_spec in Hb as (_ & _ & Hty' & _). congruence. }
  apply build_group_spec in Hb as (Hb & _).
  apply (built_from_files c.1 g f Hb) in Hf.
  destruct (greedy_clusters_elem _ _ _ _ _ f Hc Hf) as [Hkey _].
  apply list_elem_of_fmap in Hkey as ([f' h] & -> & Hfh). simpl.
  pose proof (fingerprints_truthy _ _ _ _ _ Hfh) as Hh.
  apply fingerprints_elem in Hfh as (Hrem & Himg & Hph).
  apply list_elem_of_filter in Hrem as [_ Hin].
  apply Is_true_true in Himg.
  split_and!; [done|done|by apply image_is_not_video|by exists h].
Qed.

Lemma perceptual_members_are_images_witness :
  ∃ g,
    g ∈ duplicate_groups
          (Example.run Example.photos "exact+perceptual" 6
             Example.photo_paths).2
    ∧ detection_type g = "perceptual"
    ∧ Some "d.jpg" ∈ group_files_of g
    ∧ is_supported_video (Example.world Example.photos true) "d.jpg" = false.
Proof.
  assert (E : ∃ g0 g1,
    duplicate_groups
      (Example.run Example.photos "exact+perceptual" 6
         Example.photo_paths).2 = [g0; g1]
    ∧ detection_type g1 = "perceptual"
    ∧ group_files_of g1 = [Some "c.jpg"; Some "d.jpg"]).
  { do 2 eexists. split; [vm_compute; reflexivity|]. by split. }
  destruct E as (g0 & g1 & E & Hty & Hfs). exists g1.
  assert (Hin : g1 ∈ duplicate_groups
                  (Example.run Example.photos "exact+perceptual" 6
                     Example.photo_paths).2)
    by (rewrite E; set_solver).
  assert (Hf : Some "d.jpg" ∈ group_files_of g1)
    by (rewrite Hfs; set_solver).
  split_and!; [done|done|done|].
  by destruct (perceptual_members_are_images
                 (Example.world Example.photos true) Example.photo_paths
                 (Deduplicator_init "exact+perceptual" 6) g1 "d.jpg"
                 Hin Hty Hf) as (_ & _ & ? & _).
Defined.

(** ** Groups without duplicates *)

Lemma filter_ne_nonempty (l : list string) x :
  NoDup l → (2 <= length l)%nat → filter (fun f => f ≠ x) l ≠ [].
Proof.
  destruct l as [|a [|b l]]; simpl; [lia|lia|]. intros Hnd _.
  apply NoDup_cons in Hnd as [Ha _].
  destruct (decide (a = x)) as [->|Hne].
  - rewrite filter_cons_False by (by intros ?).
    rewrite filter_cons_True; [done|]. intros ->. apply Ha. by left.
  - by rewrite filter_cons_True.
Qed.

(** X6.  A group has at least one duplicate when the input lists no path
    twice, and a perceptual group in any case. *)
Theorem duplicates_not_empty (w : World) (files : list string)
  (d : Deduplicator) (g : DuplicateGroup) :
  g ∈ duplicate_groups (create_duplicate_groups w files d).2 →
  NoDup files ∨ detection_type g = "perceptual" →
  duplicates g ≠ [].
Proof.
  rewrite duplicate_groups_after.
  set (sha := sha_view w (hash_calc d)).
  set (ph := phash_view w (hash_calc d)).
  intros [i Hi]%list_elem_of_lookup Hor.
  apply engine_lookup in Hi as [(_ & c & Hc & Hb)|(_ & c & Hc & Hb)].
  - apply build_group_spec in Hb as ((wp & _ & _ & ->) & _ & Hty & _).
    destruct Hor as [Hnd|Hp]; [|congruence].
    apply exact_groups_elem in Hc as (k & -> & Hlen).
    apply filter_ne_nonempty; [by apply NoDup_filter | lia].
  - apply build_group_spec in Hb as ((wp & _ & _ & ->) & _).
    apply filter_ne_nonempty.
    + eapply greedy_clusters_NoDup; [|exact Hc]. apply fingerprints_NoDup.
    + destruct c as [c m].
      apply greedy_clusters_seed in Hc as (seed & fp & near & -> & Hne & _).
      destruct near; [done|]. simpl. lia.
Qed.

Lemma duplicates_not_empty_witness :
  ∃ g,
    duplicate_groups
      (Example.run Example.photos "exact" 6 Example.photo_paths).2 = [g]
    ∧ duplicates g ≠ [].
Proof.
  assert (E : ∃ g,
    duplicate_groups
      (Example.run Example.photos "exact" 6 Example.photo_paths).2 = [g])
    by (eexists; vm_compute; reflexivity).
  destruct E as [g E]. exists g. split; [done|].
  apply (duplicates_not_empty (Example.world Example.photos true)
           Example.photo_paths (Deduplicator_init "exact" 6)).
  - unfold Example.run in E. rewrite E. by left.
  - left. refine (bool_decide_unpack _ _). vm_compute. exact I.
Defined.

(** ** Exact groups and digests *)

(** X7.  An exact group is a digest class of the input: there is a digest
    such that the files of the group are exactly the input files for which
    [get_sha256] gave it. *)
Theorem exact_group_is_digest_class (w : World) (files : list string)
  (d : Deduplicator) (g : DuplicateGroup) :
  g ∈ duplicate_groups (create_duplicate_groups w files d).2 →
  detection_type g = "exact" →
  ∃ h, ∀ f,
    Some f ∈ group_files_of g
    ↔ f ∈ files ∧ sha_view w (hash_calc d) f = Ok h.
Proof.
  rewrite duplicate_groups_after.
  set (sha := sha_view w (hash_calc d)).
  set (ph := phash_view w (hash_calc d)).
  intros [i Hi]%list_elem_of_lookup Hty.
  apply engine_lookup in Hi as [(_ & c & Hc & Hb)|(_ & c & _ & Hb)].
  2:{ apply build_group_spec in Hb as (_ & _ & Hty' & _). congruence. }
  apply build_group_spec in Hb as (Hb & _).
  apply exact_groups_elem in Hc as (k & -> & _).
  exists k. intros f. rewrite (built_from_files _ g f Hb).
  rewrite list_elem_of_filter, has_digest_iff. tauto.
Qed.

Lemma exact_group_is_digest_class_witness :
  ∃ g,
    duplicate_groups
      (Example.run Example.photos "exact" 6 Example.photo_paths).2 = [g]
    ∧ ∃ h, ∀ f,
        Some f ∈ group_files_of g
        ↔ f ∈ Example.photo_paths
          ∧ sha_view (Example.world Example.photos true)
              HashCalculator_init f = Ok h.
Proof.
  assert (E : ∃ g,
    duplicate_groups
      (Example.run Example.photos "exact" 6 Example.photo_paths).2 = [g]
    ∧ detection_type g = "exact")
    by (eexists; split; vm_compute; reflexivity).
  destruct E as (g & E & Hty). exists g. split; [done|].
  apply (exact_group_is_digest_class (Example.world Example.photos true)
           Example.photo_paths (Deduplicator_init "exact" 6) g);
    [|done].
  unfold Example.run in E. rewrite E. by left.
Defined.

Lemma two_elements_length {A} (l : list A) x y :
  x ∈ l → y ∈ l → x ≠ y → (1 < length l)%nat.
Proof.
  intros Hx Hy Hne. destruct l as [|a [|b l]]; simpl; [|exfalso|lia].
  - by apply elem_of_nil in Hx.
  - apply list_elem_of_singleton in Hx, Hy. congruence.
Qed.

(** X8.  When a run in a mode with the exact pass returns, two different
    input files with the same digest are in the same exact group. *)
Theorem same_digest_same_group (w : World) (files : list string)
  (d : Deduplicator) (groups : list DuplicateGroup) (f1 f2 h : string) :
  (create_duplicate_groups w files d).1 = Ok groups →
  mode d ∈ ["exact"; "exact+perceptual"] →
  f1 ∈ files → f2 ∈ files → f1 ≠ f2 →
  sha_view w (hash_calc d) f1 = Ok h →
  sha_view w (hash_calc d) f2 = Ok h →
  ∃ g, g ∈ groups ∧ detection_type g = "exact"
       ∧ Some f1 ∈ group_files_of g ∧ Some f2 ∈ group_files_of g.
Proof.
  rewrite result_after.
  set (sha := sha_view w (hash_calc d)).
  set (ph := phash_view w (hash_calc d)).
  intros Hrun Hmode Hf1 Hf2 Hne Hh1 Hh2.
  destruct (engine_complete w sha ph _ _ _ _ Hrun) as [Hex _].
  set (c := filter (fun f => has_digest sha h f) files).
  assert (Hc1 : f1 ∈ c)
    by (apply list_elem_of_filter; by rewrite has_digest_iff).
  assert (Hc2 : f2 ∈ c)
    by (apply list_elem_of_filter; by rewrite has_digest_iff).
  destruct (Hex Hmode c) as (i & g & Hi & Hb).
  { apply exact_groups_complete. exact (two_elements_length c f1 f2 Hc1 Hc2 Hne). }
  apply build_group_spec in Hb as (Hb & _ & Hty & _).
  exists g. split_and!; [by eapply list_elem_of_lookup_2|done|..];
    by apply (built_from_files c g).
Qed.

Lemma same_digest_same_group_witness :
  ∃ groups g,
    (Example.run Example.photos "exact" 6 Example.photo_paths).1 = Ok groups
    ∧ g ∈ groups
    ∧ Some "a.jpg" ∈ group_files_of g ∧ Some "b.jpg" ∈ group_files_of g.
Proof.
  assert (E : ∃ groups,
    (Example.run Example.photos "exact" 6 Example.photo_paths).1 = Ok groups)
    by (eexists; vm_compute; reflexivity).
  destruct E as [groups E].
  destruct (same_digest_same_group (Example.world Example.photos true)
              Example.photo_paths (Deduplicator_init "exact" 6) groups
              "a.jpg" "b.jpg" "d1")
    as (g & Hg & _ & H1 & H2);
    [exact E | by left | by left | right; by left | done
    | vm_compute; reflexivity | vm_compute; reflexivity |].
  by exists groups, g.
Defined.

(** ** A path listed twice *)

Lemma str_lt_irrefl s : str_lt s s = false.
Proof. apply str_lt_false_iff. by left. Qed.

Lemma candidate_lt_irrefl c : candidate_lt c c = false.
Proof.
  apply candidate_lt_false_iff. unfold ranked_before.
  right. split; [done|]. right. split; [done|]. by left.
Qed.

Section Twice.
Variable w : World.
Variable sha : string -> result string.
Variable ph : string -> option string.

Lemma select_winner_twice f s :
  os_path_getsize w f = Ok s →
  select_winner w [f; f] = Ok (f, "alphabetically first path").
Proof.
  intros Hs. unfold select_winner, sorted. simpl.
  rewrite str_lt_irrefl. simpl.
  unfold candidate_of, get_file_size. rewrite Hs.
  destruct (get_image_dimensions w f) as [width height]. simpl.
  rewrite candidate_lt_irrefl. simpl.
  by rewrite !Z.gtb_ltb, !Z.ltb_irrefl.
Qed.

Lemma engine_twice mode threshold f h s :
  mode ∈ ["exact"; "exact+perceptual"] →
  sha f = Ok h → os_path_getsize w f = Ok s →
  ∃ g,
    engine w sha ph mode threshold [f; f] = ([g], Ok tt)
    ∧ winner g = Some f ∧ duplicates g = []
    ∧ reason g = "alphabetically first path".
Proof.
  intros Hmode Hh Hs. unfold engine, exact_pass.
  rewrite bool_decide_eq_true_2 by done.
  assert (Hgroups : exact_groups sha [f; f] = [[f; f]]).
  { unfold exact_groups, exact_buckets. simpl. unfold bucket_step.
    rewrite Hh. simpl. by rewrite String.eqb_refl. }
  rewrite Hgroups. simpl. unfold build_group.
  rewrite (select_winner_twice f s Hs). simpl.
  rewrite !filter_cons_False by (by intros ?). rewrite filter_nil.
  unfold file_metadata, get_file_size. rewrite Hs, Hh.
  destruct (get_image_dimensions w f) as [width height]. simpl.
  set (g := {| group_id := 0; detection_type := "exact" |}).
  assert (Hp : perceptual_pass w sha ph mode threshold [f; f] [g] (0 + 1)
               = ([], Ok (0 + 1))).
  { unfold perceptual_pass. case_bool_decide; [|done].
    unfold perceptual_groups, remaining_files_of.
    rewrite filter_none; [done|].
    intros x Hx Hnot. apply Hnot, processed_files_of_elem.
    assert (x = f) as -> by set_solver.
    exists g. split; [by left|]. unfold group_files_of. by left. }
  rewrite Hp. by exists g.
Qed.
End Twice.

(** X9.  A path listed twice in the input, alone with its digest, makes a
    group of its own in the exact pass: the path is the winner, the group
    has no duplicate, and no file is unique, so the three views hold one
    path where the input holds two. *)
Theorem path_listed_twice (w : World) (d : Deduplicator) (f h : string)
  (s : Z) :
  mode d ∈ ["exact"; "exact+perceptual"] →
  sha_view w (hash_calc d) f = Ok h →
  os_path_getsize w f = Ok s →
  let run := create_duplicate_groups w [f; f] d in
  ∃ g,
    run.1 = Ok [g]
    ∧ winner g = Some f ∧ duplicates g = []
    ∧ reason g = "alphabetically first path"
    ∧ get_all_winners run.2 = [Some f]
    ∧ get_all_duplicates run.2 = []
    ∧ get_unique_files run.2 [f; f] = [].
Proof.
  intros Hmode Hh Hs run.
  destruct (engine_twice w (sha_view w (hash_calc d))
              (phash_view w (hash_calc d)) (mode d) (phash_threshold d)
              f h s Hmode Hh Hs) as (g & E & Hw & Hd & Hr).
  exists g.
  assert (Hgroups : duplicate_groups run.2 = [g])
    by (unfold run; by rewrite duplicate_groups_after, E).
  assert (Hwin : get_all_winners run.2 = [Some f])
    by (unfold get_all_winners; by rewrite Hgroups, <- Hw).
  split_and!; try done.
  - unfold run. rewrite result_after. unfold engine_result. by rewrite E.
  - unfold get_all_duplicates. rewrite Hgroups. simpl. by rewrite Hd.
  - unfold get_unique_files. apply filter_none.
    intros x Hx Hnot. apply Hnot. rewrite Hwin.
    assert (x = f) as -> by set_solver.
    apply elem_of_list_to_set. by left.
Qed.

Lemma path_listed_twice_witness :
  ∃ g,
    (Example.run Example.photos "exact" 6 ["c.jpg"; "c.jpg"]).1 = Ok [g]
    ∧ winner g = Some "c.jpg" ∧ duplicates g = [].
Proof.
  destruct (path_listed_twice (Example.world Example.photos true)
              (Deduplicator_init "exact" 6) "c.jpg" "d2" 10000)
    as (g & E & Hw & Hd & _);
    [by left | vm_compute; reflexivity | vm_compute; reflexivity |].
  by exists g.
Defined.

(** ** The three views and the input *)

Lemma get_all_duplicates_concat d :
  get_all_duplicates d = concat (duplicates <$> duplicate_groups d).
Proof.
  unfold get_all_duplicates.
  assert (Hgen : ∀ gs acc,
    foldl (fun dups group => dups ++ duplicates group) acc gs
    = acc ++ concat (duplicates <$> gs)).
  { induction gs as [|g gs IH]; intros acc; simpl.
    - by rewrite app_nil_r.
    - by rewrite IH, app_assoc. }
  by rewrite Hgen.
Qed.

Lemma group_files_flat gs :
  (winner <$> gs) ++ (Some <$> concat (duplicates <$> gs))
  ≡ₚ concat (group_files_of <$> gs).
Proof.
  induction gs as [|g gs IH]; [done|].
  rewrite !fmap_cons. simpl. unfold group_files_of at 1. simpl.
  constructor. rewrite fmap_app, <- IH.
  rewrite !app_assoc. f_equiv. apply Permutation_app_comm.
Qed.

Lemma elem_of_concat {A} (x : A) (ls : list (list A)) :
  x ∈ concat ls ↔ ∃ l, x ∈ l ∧ l ∈ ls.
Proof.
  induction ls as [|l ls IH]; simpl.
  - split; [by intros ?%elem_of_nil|]. by intros (l & _ & ?%elem_of_nil).
  - rewrite elem_of_app, IH. split.
    + intros [?|(l' & ? & ?)]; [exists l|exists l']; split; try done;
        [by left|by right].
    + intros (l' & ? & [->|?]%elem_of_cons); [by left|].
      right. by exists l'.
Qed.

Lemma group_files_NoDup cands gs :
  Forall2 built_from cands gs → pairwise_disjoint cands →
  (∀ c, c ∈ cands → NoDup c) →
  NoDup (concat (group_files_of <$> gs)).
Proof.
  induction 1 as [|c g cands gs Hb Hrest IH]; [constructor|].
  intros [Hhead Hdis] Hnd. rewrite fmap_cons, concat_cons.
  apply NoDup_app. split_and!.
  - destruct Hb as (wp & Hw & Hin & Hd). unfold group_files_of.
    rewrite Hw, Hd. apply NoDup_cons. split.
    + rewrite (list_elem_of_fmap_inj Some).
      by intros [? _]%list_elem_of_filter.
    + apply (NoDup_fmap_2 Some), NoDup_filter, Hnd. by left.
  - intros x Hx Hx'.
    assert (∃ f, x = Some f) as [f ->].
    { destruct Hb as (wp & Hw & _). unfold group_files_of in Hx.
      rewrite Hw in Hx.
      apply elem_of_cons in Hx as [->|(f & -> & _)%list_elem_of_fmap];
        by eexists. }
    apply (built_from_files c g f Hb) in Hx.
    apply elem_of_concat in Hx' as (l & Hf & Hl).
    apply list_elem_of_fmap in Hl as (g' & -> & [i Hi]%list_elem_of_lookup).
    destruct (Forall2_lookup_r _ _ _ _ _ Hrest Hi) as (c' & Hc' & Hb').
    apply (built_from_files c' g' f Hb') in Hf.
    rewrite Forall_forall in Hhead.
    eapply Hhead; [by eapply list_elem_of_lookup_2|done|done].
  - apply IH; [done|]. intros c' Hc'. apply Hnd. by right.
Qed.

(** X10.  On an input without a repeated path the three views are a
    rearrangement of the input: unique files, winners and duplicates
    together list every input file once and nothing else, however the run
    ended.  So the counts of unique files, winners and duplicates add up
    to the number of input files. *)
Theorem views_rearrange_input (w : World) (files : list string)
  (d : Deduplicator) :
  NoDup files →
  let d' := (create_duplicate_groups w files d).2 in
  Some <$> files
  ≡ₚ (Some <$> get_unique_files d' files) ++ get_all_winners d'
       ++ (Some <$> get_all_duplicates d')
  ∧ (length (get_unique_files d' files) + length (get_all_winners d')
     + length (get_all_duplicates d') = length files)%nat.
Proof.
  intros Hnd d'.
  assert (Hperm : Some <$> files
    ≡ₚ (Some <$> get_unique_files d' files) ++ get_all_winners d'
         ++ (Some <$> get_all_duplicates d')).
  { destruct (engine_candidates w (sha_view w (hash_calc d))
                (phash_view w (hash_calc d)) (mode d) (phash_threshold d)
                files) as (cands & Hb & Hdis & Hin & Hcnd).
    rewrite <- duplicate_groups_after in Hb. fold d' in Hb.
    apply NoDup_Permutation.
    - by apply (NoDup_fmap_2 Some).
    - apply NoDup_app. split_and!.
      + apply (NoDup_fmap_2 Some). unfold get_unique_files.
        by apply NoDup_filter.
      + intros x (f & -> & Hf)%list_elem_of_fmap.
        apply elem_of_get_unique_files in Hf as (_ & Hw & Hd).
        rewrite elem_of_app, (list_elem_of_fmap_inj Some). tauto.
      + unfold get_all_winners. rewrite get_all_duplicates_concat.
        rewrite group_files_flat.
        eapply group_files_NoDup; [exact Hb|done|]. by apply Hcnd.
    - intros x. rewrite !elem_of_app. split.
      + intros (f & -> & Hf)%list_elem_of_fmap.
        rewrite !(list_elem_of_fmap_inj Some).
        rewrite elem_of_get_unique_files.
        destruct (decide (Some f ∈ get_all_winners d'));
          destruct (decide (f ∈ get_all_duplicates d')); tauto.
      + assert (Hgroup : ∀ g f, g ∈ duplicate_groups d' →
                  Some f ∈ group_files_of g → f ∈ files).
        { intros g f [i Hi]%list_elem_of_lookup Hf.
          destruct (Forall2_lookup_r _ _ _ _ _ Hb Hi) as (c & Hc & Hbc).
          apply (built_from_files c g f Hbc) in Hf.
          eapply Hin; [by eapply list_elem_of_lookup_2|done]. }
        intros [(f & -> & Hf)%list_elem_of_fmap|[Hx|Hx]].
        * apply list_elem_of_fmap_2.
          by apply elem_of_get_unique_files in Hf as (? & _).
        * apply elem_of_get_all_winners in Hx as (g & Hg & Hx).
          assert (∃ f, x = Some f) as [f ->].
          { apply list_elem_of_lookup in Hg as [i Hi].
            destruct (Forall2_lookup_r _ _ _ _ _ Hb Hi)
              as (c & _ & (wp & Hw & _)).
            exists wp. congruence. }
          apply list_elem_of_fmap_2, (Hgroup g f Hg).
          unfold group_files_of. rewrite Hx. by left.
        * apply list_elem_of_fmap in Hx as (f & -> & Hf).
          apply elem_of_get_all_duplicates in Hf as (g & Hg & Hf).
          apply list_elem_of_fmap_2, (Hgroup g f Hg).
          unfold group_files_of. right. by apply list_elem_of_fmap_2. }
  split; [done|].
  apply Permutation_length in Hperm.
  rewrite !length_app, !length_fmap in Hperm. lia.
Qed.

Lemma views_rearrange_input_witness :
  let d' :=
    (Example.run Example.photos "exact+perceptual" 6
       Example.photo_paths).2 in
  (length (get_unique_files d' Example.photo_paths)
   + length (get_all_winners d') + length (get_all_duplicates d')
   = length Example.photo_paths)%nat.
Proof.
  apply (views_rearrange_input (Example.world Example.photos true)
           Example.photo_paths (Deduplicator_init "exact+perceptual" 6)).
  refine (bool_decide_unpack _ _). vm_compute. exact I.
Defined.

(** ** Without the hashing library *)

Lemma phash_view_unavailable w hc f :
  IMAGEHASH_AVAILABLE w = false → phash_view w hc f = None.
Proof. intros H. unfold phash_view. by rewrite H. Qed.

Lemma fingerprints_none w ph files :
  (∀ f, ph f = None) → fingerprints w ph files = [].
Proof.
  intros Hph. unfold fingerprints.
  induction (filter _ files) as [|f l IH]; [done|].
  simpl. unfold fingerprint_step at 2. by rewrite Hph.
Qed.

Lemma perceptual_pass_none w sha ph mode threshold files groups next_id :
  (∀ f, ph f = None) →
  perceptual_pass w sha ph mode threshold files groups next_id
  = ([], Ok next_id).
Proof.
  intros Hph. unfold perceptual_pass, perceptual_groups.
  case_bool_decide; [|done]. by rewrite fingerprints_none.
Qed.

(** X11.  When [imagehash] could not be imported the perceptual pass
    finds nothing: in mode perceptual the run returns no group and every
    file is unique, and in mode exact+perceptual it returns and leaves
    the groups of a run in mode exact from the same caches. *)
Theorem without_imagehash (w : World) (files : list string)
  (d d0 : Deduplicator) :
  IMAGEHASH_AVAILABLE w = false →
  (mode d = "perceptual" →
   (create_duplicate_groups w files d).1 = Ok []
   ∧ get_unique_files (create_duplicate_groups w files d).2 files = files)
  ∧ (mode d = "exact+perceptual" → mode d0 = "exact" →
     hash_calc d0 = hash_calc d →
     (create_duplicate_groups w files d).1
     = (create_duplicate_groups w files d0).1
     ∧ duplicate_groups (create_duplicate_groups w files d).2
       = duplicate_groups (create_duplicate_groups w files d0).2).
Proof.
  intros Hno.
  assert (Hph : ∀ hc f, phash_view w hc f = None)
    by (intros; by apply phash_view_unavailable).
  split.
  - intros Hmode.
    assert (E : engine w (sha_view w (hash_calc d))
                  (phash_view w (hash_calc d)) (mode d) (phash_threshold d)
                  files = ([], Ok tt)).
    { unfold engine, exact_pass. rewrite Hmode.
      rewrite bool_decide_eq_false_2 by set_solver.
      by rewrite perceptual_pass_none. }
    split.
    + rewrite result_after. unfold engine_result. by rewrite E.
    + unfold get_unique_files, get_all_winners.
      rewrite get_all_duplicates_concat, duplicate_groups_after, E.
      apply filter_all. intros f _. simpl. set_solver.
  - intros Hmode Hmode0 Hhc.
    rewrite !result_after, !duplicate_groups_after. unfold engine_result.
    rewrite Hhc, Hmode, Hmode0. unfold engine, exact_pass.
    rewrite !bool_decide_eq_true_2 by set_solver.
    destruct (build_groups _ _ _ _ _) as [gs [next_id|e]]; [|done].
    rewrite perceptual_pass_none by done.
    unfold perceptual_pass.
    rewrite bool_decide_eq_false_2 by set_solver. done.
Qed.

Lemma without_imagehash_witness :
  let w := Example.world Example.photos false in
  (create_duplicate_groups w Example.photo_paths
     (Deduplicator_init "perceptual" 6)).1 = Ok []
  ∧ (create_duplicate_groups w Example.photo_paths
       (Deduplicator_init "exact+perceptual" 6)).1
    = (create_duplicate_groups w Example.photo_paths
         (Deduplicator_init "exact" 6)).1.
Proof.
  intros w.
  destruct (without_imagehash w Example.photo_paths
              (Deduplicator_init "perceptual" 6)
              (Deduplicator_init "exact" 6) eq_refl) as [[H1 _] _];
    [reflexivity|].
  destruct (without_imagehash w Example.photo_paths
              (Deduplicator_init "exact+perceptual" 6)
              (Deduplicator_init "exact" 6) eq_refl) as [_ [H2 _]];
    [reflexivity..|].
  by split.
Defined.

(** ** The winner does not depend on the order of the group *)

Lemma sorted_perm_unique {A} (R : A → A → Prop) (l1 l2 : list A) :
  (∀ x y, x ∈ l1 → y ∈ l1 → R x y → R y x → x = y) →
  StronglySorted R l1 → StronglySorted R l2 → l1 ≡ₚ l2 → l1 = l2.
Proof.
  revert l2. induction l1 as [|a l1 IH]; intros l2 Hanti H1 H2 Hp.
  { by apply Permutation_nil_l in Hp. }
  destruct l2 as [|b l2]; [by apply Permutation_nil_r in Hp|].
  apply StronglySorted_inv in H1 as [H1 Ha].
  apply StronglySorted_inv in H2 as [H2 Hb].
  rewrite List.Forall_forall in Ha, Hb.
  assert (a = b) as <-.
  { assert (Hain : a ∈ b :: l2) by (rewrite <- Hp; by left).
    assert (Hbin : b ∈ a :: l1) by (rewrite Hp; by left).
    apply elem_of_cons in Hain as [?|Hain]; [done|].
    apply elem_of_cons in Hbin as [?|Hbin]; [done|].
    apply Hanti; [by left|by right| |].
    - apply Ha. by apply list_elem_of_In.
    - apply Hb. by apply list_elem_of_In. }
  f_equal. apply IH; [|done|done|by apply Permutation_cons_inv in Hp].
  intros x y Hx Hy. apply Hanti; by right.
Qed.

(** X12.  [select_winner] sorts the group before it ranks: whenever it
    returns, it returns the same winner and the same reason on every
    rearrangement of the group. *)
Theorem select_winner_order_independent (w : World)
  (files files' : list string) (r : string * string) :
  files ≡ₚ files' →
  select_winner w files = Ok r → select_winner w files' = Ok r.
Proof.
  intros Hp Hsel.
  destruct (decide (length files < 2)%nat) as [Hshort|Hlong].
  { destruct files as [|f [|f2 files]]; [|..|simpl in Hshort; lia].
    - apply Permutation_nil_l in Hp. by subst.
    - apply Permutation_singleton_l in Hp. by subst. }
  assert (Hlen : (2 <= length files)%nat) by lia.
  assert (Hlen' : (2 <= length files')%nat)
    by (by rewrite <- (Permutation_length Hp)).
  assert (∃ cands, rfor_list (candidate_of w) files = Ok cands)
    as [cands Hcands].
  { destruct files as [|f1 [|f2 fs]]; [simpl in Hlen; lia..|].
    unfold select_winner in Hsel.
    destruct (rfor_list (candidate_of w) (sorted (f1 :: f2 :: fs)))
      as [cands'|] eqn:Hc; [|done].
    destruct (rfor_list_perm (candidate_of w) (sorted (f1 :: f2 :: fs))
                (f1 :: f2 :: fs) cands') as (cands & ? & _);
      [apply sort_with_perm | done | by exists cands]. }
  destruct (rfor_list_perm (candidate_of w) files files' cands Hp Hcands)
    as (cands' & Hcands' & Hpc).
  destruct (select_winner_sorted w files cands Hlen Hcands)
    as (c1 & c2 & rest & Hperm & Hsorted & E).
  destruct (select_winner_sorted w files' cands' Hlen' Hcands')
    as (c1' & c2' & rest' & Hperm' & Hsorted' & E').
  assert (Heq : c1 :: c2 :: rest = c1' :: c2' :: rest').
  { apply (sorted_perm_unique ranked_before); [|done|done|].
    - apply rfor_list_Forall2 in Hcands.
      assert (Hof : ∀ c, c ∈ c1 :: c2 :: rest →
                candidate_of w (c_path c) = Ok c).
      { intros c Hc. rewrite Hperm in Hc.
        apply list_elem_of_lookup in Hc as [i Hi].
        destruct (Forall2_lookup_r _ _ _ _ _ Hcands Hi) as (f & _ & Hf).
        by rewrite (candidate_of_path w f c Hf). }
      intros x y Hx Hy Hxy Hyx.
      destruct (ranked_before_antisym x y Hxy Hyx) as (_ & _ & Hpath).
      apply Hof in Hx, Hy. rewrite Hpath in Hx. congruence.
    - by rewrite Hperm, Hperm', Hpc. }
  injection Heq as <- <- <-. congruence.
Qed.

Lemma select_winner_order_independent_witness :
  let w := Example.world Example.photos true in
  select_winner w ["c.jpg"; "a.jpg"; "b.jpg"]
  = select_winner w ["a.jpg"; "b.jpg"; "c.jpg"].
Proof.
  intros w.
  assert (E : ∃ r, select_winner w ["a.jpg"; "b.jpg"; "c.jpg"] = Ok r)
    by (eexists; vm_compute; reflexivity).
  destruct E as [r E]. rewrite E.
  apply (select_winner_order_independent w ["a.jpg"; "b.jpg"; "c.jpg"]);
    [|done].
  symmetry. apply Permutation_cons_append.
Defined.

(** ** The caches of [HashCalculator] *)

(** X13.  What [get_sha256] does to the caches: on success the digest
    returned is the entry of the file afterwards; on failure nothing
    changes; in both cases no other entry and no fingerprint is touched.
    The file is read exactly when the cache is off or has no entry. *)
Theorem get_sha256_frame (w : World) (file_path : string)
  (use_cache : bool) (hc : HashCalculator) :
  let '(r, hc') := get_sha256 w file_path use_cache hc in
  phash_cache hc' = phash_cache hc
  ∧ (∀ f, f ≠ file_path → sha256_cache hc' !! f = sha256_cache hc !! f)
  ∧ match r with
    | Ok h => sha256_cache hc' !! file_path = Some h
    | Raise e => hc' = hc ∧ calculate_sha256 w file_path = Raise e
    end
  ∧ r = match (if use_cache then sha256_cache hc !! file_path else None)
        with
        | Some cached => Ok cached
        | None => calculate_sha256 w file_path
        end.
Proof.
  unfold get_sha256, bind, get, try_except, lift, put, ret, raise.
  destruct (if use_cache then sha256_cache hc !! file_path else None)
    as [cached|] eqn:Hc.
  - split_and!; try done.
    destruct use_cache; [done|discriminate].
  - destruct (calculate_sha256 w file_path) as [h|e]; simpl.
    + split_and!; try done.
      * intros f Hne. by rewrite lookup_insert_ne.
      * by rewrite lookup_insert_eq.
    + by split_and!.
Qed.

(** X14.  A digest once returned is served from the cache whatever the
    file holds later, until the cache is cleared or passed by: with the
    cache off, or after [clear_cache], the file is read again. *)
Theorem cached_digest_is_served (w w' : World) (file_path h : string)
  (use_cache : bool) (hc hc1 : HashCalculator) :
  get_sha256 w file_path use_cache hc = (Ok h, hc1) →
  get_sha256 w' file_path true hc1 = (Ok h, hc1)
  ∧ (get_sha256 w' file_path false hc1).1 = calculate_sha256 w' file_path
  ∧ (clear_cache hc1).2 = HashCalculator_init
  ∧ (get_sha256 w' file_path true (clear_cache hc1).2).1
    = calculate_sha256 w' file_path.
Proof.
  intros Hrun.
  pose proof (get_sha256_frame w file_path use_cache hc) as Hf.
  rewrite Hrun in Hf. destruct Hf as (_ & _ & Hentry & _).
  split_and!.
  - unfold get_sha256, bind, get, ret. by rewrite Hentry.
  - pose proof (get_sha256_frame w' file_path false hc1) as Hf.
    destruct (get_sha256 w' file_path false hc1) as [r hc2].
    by destruct Hf as (_ & _ & _ & ->).
  - done.
  - pose proof (get_sha256_frame w' file_path true (clear_cache hc1).2)
      as Hf.
    destruct (get_sha256 w' file_path true (clear_cache hc1).2)
      as [r hc2].
    destruct Hf as (_ & _ & _ & ->). done.
Qed.

Lemma cached_digest_is_served_witness :
  ∃ hc1,
    get_sha256 (Example.world Example.photos true) "c.jpg" true
      HashCalculator_init = (Ok "d2", hc1)
    ∧ get_sha256 (Example.world Example.damaged true) "c.jpg" true hc1
      = (Ok "d2", hc1)
    ∧ (get_sha256 (Example.world Example.damaged true) "c.jpg" false hc1).1
      = Raise OSError.
Proof.
  eexists. split; [reflexivity|].
  destruct (cached_digest_is_served (Example.world Example.photos true)
              (Example.world Example.damaged true) "c.jpg" "d2" true
              HashCalculator_init _ eq_refl) as (H1 & H2 & _).
  split; [exact H1 | exact H2].
Defined.

(** X15.  What [get_phash] does to the caches: it never raises and never
    touches a digest nor the entry of another file; a fingerprint it
    returns is the entry of the file afterwards, and the file has an
    image extension and the library is there, even when the cache held
    an entry for the path; when it returns [None] nothing changes, so a
    failure is not remembered. *)
Theorem get_phash_frame (w : World) (file_path : string)
  (use_cache : bool) (hc : HashCalculator) :
  let '(r, hc') := get_phash w file_path use_cache hc in
  sha256_cache hc' = sha256_cache hc
  ∧ (∀ f, f ≠ file_path → phash_cache hc' !! f = phash_cache hc !! f)
  ∧ match r with
    | Ok (Some h) =>
        phash_cache hc' !! file_path = Some h
        ∧ IMAGEHASH_AVAILABLE w = true
        ∧ is_supported_image w file_path = true
    | Ok None => hc' = hc
    | Raise _ => False
    end.
Proof.
  unfold get_phash, bind, get, try_except, lift, put, ret.
  destruct (IMAGEHASH_AVAILABLE w); simpl; [|done].
  destruct (is_supported_image w file_path); simpl; [|done].
  destruct (if use_cache then phash_cache hc !! file_path else None)
    as [cached|] eqn:Hc.
  - split_and!; try done.
    destruct use_cache; [done|discriminate].
  - destruct (Image_phash w file_path) as [h|e]; simpl; [|done].
    split_and!; try done.
    + intros f Hne. by rewrite lookup_insert_ne.
    + by rewrite lookup_insert_eq.
Qed.

(** ** The distance between fingerprints *)

Lemma count_nonzero_ne_sym h1 h2 :
  count_nonzero_ne h1 h2 = count_nonzero_ne h2 h1.
Proof.
  revert h2. induction h1 as [|b1 h1 IH]; intros [|b2 h2]; simpl; try done.
  rewrite (IH h2). by destruct b1, b2.
Qed.

Lemma count_nonzero_ne_refl h : count_nonzero_ne h h = 0.
Proof.
  induction h as [|b h IH]; simpl; [done|].
  rewrite IH. by destruct b.
Qed.

Lemma count_nonzero_ne_length h1 h2 :
  count_nonzero_ne h1 h2 <= Z.of_nat (length h1).
Proof.
  revert h2. induction h1 as [|b1 h1 IH]; intros [|b2 h2]; simpl; try lia.
  specialize (IH h2). destruct (Bool.eqb b1 b2); lia.
Qed.

(** X16.  [hamming_distance] does not depend on the order of its
    arguments, the sentinel included; a hash is at distance 0 from
    itself unless it cannot be decoded, and then at 999; and a distance
    other than the sentinel is at most the number of bits of the decoded
    hashes. *)
Theorem hamming_distance_symmetric (w : World) (hash1 hash2 : string) :
  hamming_distance w hash1 hash2 = hamming_distance w hash2 hash1
  ∧ hamming_distance w hash1 hash1
    = (if IMAGEHASH_AVAILABLE w
          && negb (is_Ok (imagehash_hex_to_hash w hash1))
       then 999 else 0)
  ∧ (hamming_distance w hash1 hash2 = 999
     ∨ (∃ h1, imagehash_hex_to_hash w hash1 = Ok h1
              ∧ hamming_distance w hash1 hash2 <= Z.of_nat (length h1))
     ∨ IMAGEHASH_AVAILABLE w = false).
Proof.
  unfold hamming_distance, hamming_distance_try, ImageHash_sub.
  destruct (IMAGEHASH_AVAILABLE w); simpl.
  2:{ split_and!; [done|done|]. right. by right. }
  destruct (imagehash_hex_to_hash w hash1) as [h1|] eqn:E1; simpl.
  2:{ split_and!; [|done|by left].
      by destruct (imagehash_hex_to_hash w hash2). }
  split_and!.
  - destruct (imagehash_hex_to_hash w hash2) as [h2|]; simpl; [|done].
    rewrite (Nat.eqb_sym (length h2)).
    destruct (length h1 =? length h2)%nat; simpl; [|done].
    apply count_nonzero_ne_sym.
  - rewrite Nat.eqb_refl. simpl. apply count_nonzero_ne_refl.
  - destruct (imagehash_hex_to_hash w hash2) as [h2|]; simpl; [|by left].
    destruct (length h1 =? length h2)%nat; simpl; [|by left].
    right. left. exists h1. split; [done|]. apply count_nonzero_ne_length.
Qed.

(** ** Comparing two files *)

(** X17.  [are_perceptually_similar] never raises.  It answers
    [(False, -1)] exactly when the library is missing or [get_phash] has
    no fingerprint for one of the files; otherwise it answers with the
    distance of the two fingerprints, which is not negative, and says
    similar exactly when that distance is within the threshold.  It
    changes nothing but the caches, and these show the same digests and
    fingerprints as before. *)
Theorem are_perceptually_similar_returns (w : World) (file1 file2 : string)
  (threshold : Z) (hc : HashCalculator) :
  ∃ is_similar distance hc',
    are_perceptually_similar w file1 file2 threshold hc
    = (Ok (is_similar, distance), hc')
    ∧ agrees w (sha_view w hc) (phash_view w hc) hc'
    ∧ match phash_view w hc file1, phash_view w hc file2 with
      | Some h1, Some h2 =>
          distance = hamming_distance w h1 h2
          ∧ 0 <= distance
          ∧ is_similar = (distance <=? threshold)
      | _, _ => is_similar = false ∧ distance = -1
      end.
Proof.
  unfold are_perceptually_similar.
  destruct (IMAGEHASH_AVAILABLE w) eqn:Hav; simpl.
  2:{ exists false, (-1), hc. split; [done|].
      split; [apply agrees_view|].
      by rewrite (phash_view_unavailable w hc file1 Hav). }
  unfold bind.
  destruct (get_phash_agrees w (sha_view w hc) (phash_view w hc) hc file1
              (agrees_view w hc)) as (hc1 & Hag1 & ->).
  destruct (get_phash_agrees w (sha_view w hc) (phash_view w hc) hc1 file2
              Hag1) as (hc2 & Hag2 & ->).
  destruct (phash_view w hc file1) as [h1|];
    [|by exists false, (-1), hc2].
  destruct (phash_view w hc file2) as [h2|];
    [|by exists false, (-1), hc2].
  do 3 eexists. split; [reflexivity|]. split; [done|].
  split; [done|]. split; [apply hamming_distance_nonneg|done].
Qed.

(** X18.  [are_perceptually_similar] and the clustering agree on two
    files: when the fingerprints are not empty strings,
    [find_perceptual_duplicates] on the two files returns the pair with
    the distance the comparison reports if it says similar, and nothing
    otherwise. *)
Theorem similar_pair_is_clustered (w : World) (d : Deduplicator)
  (file1 file2 : string) (is_similar : bool) (distance : Z) :
  file1 ≠ file2 →
  phash_view w (hash_calc d) file1 ≠ Some "" →
  phash_view w (hash_calc d) file2 ≠ Some "" →
  (are_perceptually_similar w file1 file2 (phash_threshold d)
     (hash_calc d)).1 = Ok (is_similar, distance) →
  (find_perceptual_duplicates w [file1; file2] d).1
  = Ok (if is_similar then [([file1; file2], distance)] else []).
Proof.
  intros Hne Hne1 Hne2 Hsim.
  set (ph := phash_view w (hash_calc d)) in *.
  destruct (find_perceptual_duplicates_run w (sha_view w (hash_calc d)) ph
              [file1; file2] d (agrees_view w _)) as (hc' & _ & ->).
  simpl. unfold perceptual_groups.
  rewrite cluster_greedy by apply fingerprints_NoDup.
  rewrite fingerprints_in_order
    by (apply NoDup_cons; split; [set_solver|apply NoDup_singleton]).
  f_equal.
  destruct (are_perceptually_similar_returns w file1 file2
              (phash_threshold d) (hash_calc d))
    as (b & dist & hc1 & E & _ & Hres).
  rewrite E in Hsim. injection Hsim as -> ->. fold ph in Hres.
  assert (Hentry : ∀ f, ph f ≠ Some "" →
    fingerprint_entry w ph f
    = match ph f with Some h => Some (f, h) | None => None end).
  { intros f Hf. unfold fingerprint_entry.
    destruct (ph f) as [h|] eqn:Hph.
    - assert (Himg : is_supported_image w f = true).
      { unfold ph, phash_view in Hph.
        destruct (IMAGEHASH_AVAILABLE w); simpl in Hph; [|done].
        by destruct (is_supported_image w f). }
      rewrite Himg. simpl.
      destruct (String.eqb_spec h ""); [congruence|done].
    - by destruct (is_supported_image w f). }
  simpl. rewrite (Hentry file1 Hne1), (Hentry file2 Hne2).
  destruct (ph file1) as [h1|], (ph file2) as [h2|]; simpl.
  - destruct Hres as (-> & _ & ->).
    rewrite bool_decide_eq_false_2 by set_solver.
    destruct (Z.leb_spec (hamming_distance w h1 h2) (phash_threshold d)).
    + rewrite filter_cons_True by (simpl; split; [set_solver|lia]).
      rewrite filter_nil. simpl.
      rewrite bool_decide_eq_true_2 by set_solver. done.
    + rewrite filter_cons_False by (simpl; intros [_ ?]; lia).
      rewrite filter_nil. simpl.
      rewrite bool_decide_eq_false_2 by set_solver. done.
  - destruct Hres as [-> _]. by rewrite bool_decide_eq_false_2 by set_solver.
  - destruct Hres as [-> _]. by rewrite bool_decide_eq_false_2 by set_solver.
  - by destruct Hres as [-> _].
Qed.

Lemma similar_pair_is_clustered_witness :
  (find_perceptual_duplicates (Example.world Example.similar true)
     ["x.png"; "y.png"] (Deduplicator_init "perceptual" 6)).1
  = Ok [(["x.png"; "y.png"], 3)].
Proof.
  apply (similar_pair_is_clustered (Example.world Example.similar true)
           (Deduplicator_init "perceptual" 6) "x.png" "y.png" true 3);
    [done | by vm_compute | by vm_compute | vm_compute; reflexivity].
Defined.

(** ** The configuration *)

Lemma for_raise_None {A} (bad : A → bool) err (l : list A) :
  config.for_raise bad err l = None ↔ Forall (fun x => bad x = false) l.
Proof.
  induction l as [|x l IH]; simpl; [by split|].
  destruct (bad x) eqn:Hx.
  - split; [done|]. intros H. apply Forall_inv in H. congruence.
  - rewrite IH. split; [by constructor | by intros ?%Forall_inv_tail].
Qed.

Lemma for_raise_Some {A} (bad : A → bool) err (l : list A) e :
  config.for_raise bad err l = Some e →
  ∃ l1 x l2,
    l = l1 ++ x :: l2 ∧ Forall (fun y => bad y = false) l1
    ∧ bad x = true ∧ e = err x.
Proof.
  induction l as [|x l IH]; simpl; [done|].
  destruct (bad x) eqn:Hx.
  - intros [= <-]. by exists [], x, l.
  - intros (l1 & y & l2 & -> & Hl1 & Hy & He)%IH.
    exists (x :: l1), y, l2. split_and!; try done. by constructor.
Qed.

(** X19.  [validate] returns exactly when the configuration is well
    formed (inputs and output directory given, mode and action among the
    known ones, threshold not negative, at least one worker, known date
    sources and time zone mode) and every input directory exists. *)
Theorem validate_returns_iff (Path_exists : string → bool)
  (c : config.Config) :
  config.validate Path_exists c = None
  ↔ well_formed c
    ∧ Forall (fun input_dir => Path_exists input_dir = true)
        (config.inputs c).
Proof.
  unfold config.validate, well_formed.
  case_bool_decide as Hin; simpl; [|split; [done|tauto]].
  destruct (String.eqb_spec (config.out_dir c) ""); simpl;
    [split; [done|tauto]|].
  case_bool_decide as Hmode; simpl; [|split; [done|tauto]].
  case_bool_decide as Hact; simpl; [|split; [done|tauto]].
  destruct (Z.ltb_spec (config.phash_threshold c) 0);
    [split; [done|lia]|].
  destruct (Z.ltb_spec (config.workers c) 1); [split; [done|lia]|].
  destruct (config.for_raise _ _ (config.date_source_priority c))
    as [e|] eqn:Hsrc.
  { split; [done|]. intros ((_ & _ & _ & _ & _ & _ & Hall & _) & _).
    assert (Hnone : config.for_raise
      (fun source =>
         negb (bool_decide (source ∈ config.valid_date_sources)))
      (fun source =>
         config.ValueError
           ("Invalid date source: " +:+ source
            +:+ ". Must be one of ['takeout_json', 'exif', 'mtime']"))
      (config.date_source_priority c) = None).
    { apply for_raise_None. eapply Forall_impl; [exact Hall|].
      intros source Hs. simpl. by rewrite bool_decide_eq_true_2. }
    congruence. }
  apply for_raise_None in Hsrc.
  assert (Hall : Forall (fun source => source ∈ config.valid_date_sources)
                   (config.date_source_priority c)).
  { eapply Forall_impl; [exact Hsrc|]. intros source Hs. simpl in Hs.
    apply negb_false_iff in Hs. by apply bool_decide_eq_true in Hs. }
  case_bool_decide as Htz; simpl; [|split; [done|tauto]].
  rewrite for_raise_None. split.
  - intros Hex. split; [by split_and!|].
    eapply Forall_impl; [exact Hex|]. intros d Hd. simpl in Hd.
    by apply negb_false_iff in Hd.
  - intros [_ Hex]. eapply Forall_impl; [exact Hex|].
    intros d Hd. simpl. by rewrite Hd.
Qed.

(** X20.  Directories are looked at last: [validate] raises
    [FileNotFoundError] only for a well-formed configuration, and names
    the first input directory that does not exist. *)
Theorem validate_missing_directory (Path_exists : string → bool)
  (c : config.Config) (message : string) :
  config.validate Path_exists c = Some (config.FileNotFoundError message) →
  well_formed c
  ∧ ∃ before input_dir after,
      config.inputs c = before ++ input_dir :: after
      ∧ Forall (fun d => Path_exists d = true) before
      ∧ Path_exists input_dir = false
      ∧ message = "Input directory not found: " +:+ input_dir.
Proof.
  unfold config.validate, well_formed.
  case_bool_decide as Hin; simpl; [|done].
  destruct (String.eqb_spec (config.out_dir c) ""); simpl; [done|].
  case_bool_decide as Hmode; simpl; [|done].
  case_bool_decide as Hact; simpl; [|done].
  destruct (Z.ltb_spec (config.phash_threshold c) 0); [done|].
  destruct (Z.ltb_spec (config.workers c) 1); [done|].
  destruct (config.for_raise _ _ (config.date_source_priority c))
    as [e|] eqn:Hsrc.
  { intros [= ->]. by apply for_raise_Some in Hsrc as (? & ? & ? & _ & _ & _ & ?). }
  apply for_raise_None in Hsrc.
  assert (Hall : Forall (fun source => source ∈ config.valid_date_sources)
                   (config.date_source_priority c)).
  { eapply Forall_impl; [exact Hsrc|]. intros source Hs. simpl in Hs.
    apply negb_false_iff in Hs. by apply bool_decide_eq_true in Hs. }
  case_bool_decide as Htz; simpl; [|done].
  intros (l1 & d & l2 & Hl & Hl1 & Hd & [= ->])%for_raise_Some.
  split; [by split_and!|].
  exists l1, d, l2. split_and!; try done.
  - eapply Forall_impl; [exact Hl1|]. intros x Hx. simpl in Hx.
    by apply negb_false_iff in Hx.
  - by apply negb_true_iff in Hd.
Qed.

Lemma validate_missing_directory_witness :
  let c := config.merge_args
             {| config.args_config := None;
                config.args_inputs := Some ["a"; "b"; "c"];
                config.args_out_dir := None;
                config.args_mode := None;
                config.args_action := None;
                config.args_phash_threshold := None;
                config.args_workers := None;
                config.args_keep_structure := false;
                config.args_verbose := false |}
             config.Config_init in
  config.validate (String.eqb "a") c
  = Some (config.FileNotFoundError "Input directory not found: b")
  ∧ well_formed c.
Proof.
  intros c. split; [reflexivity|].
  by destruct (validate_missing_directory (String.eqb "a") c
                 "Input directory not found: b" eq_refl) as [? _].
Defined.

(** X21.  The defaults of [Config()] are valid: with input directories
    given on the command line, all of them existing, and the other
    options left out or given within their ranges, the merged
    configuration passes [validate]. *)
Theorem defaults_pass_validation (Path_exists : string → bool)
  (args : config.Namespace) (input_dir : string)
  (input_dirs : list string) :
  config.args_inputs args = Some (input_dir :: input_dirs) →
  Forall (fun d => Path_exists d = true) (input_dir :: input_dirs) →
  from_choices config.valid_modes (config.args_mode args) →
  from_choices config.valid_actions (config.args_action args) →
  (∀ n, config.args_phash_threshold args = Some n → 0 <= n) →
  (∀ n, config.args_workers args = Some n → 1 <= n) →
  config.validate Path_exists (config.merge_args args config.Config_init)
  = None.
Proof.
  intros Hin Hex Hmode Hact Hth Hwk.
  apply validate_returns_iff. unfold well_formed. simpl. rewrite Hin. simpl.
  split; [|done]. split_and!.
  - done.
  - unfold config.given_str.
    destruct (config.args_out_dir args) as [s|]; simpl; [|done].
    by destruct (String.eqb_spec s "").
  - unfold config.given_str.
    destruct (config.args_mode args) as [s|]; simpl;
      [|unfold config.valid_modes; set_solver].
    destruct (String.eqb_spec s ""); simpl;
      [unfold config.valid_modes; set_solver|done].
  - unfold config.given_str.
    destruct (config.args_action args) as [s|]; simpl;
      [|unfold config.valid_actions; set_solver].
    destruct (String.eqb_spec s ""); simpl;
      [unfold config.valid_actions; set_solver|done].
  - destruct (config.args_phash_threshold args) as [n|]; simpl; [|lia].
    by apply Hth.
  - destruct (config.args_workers args) as [n|]; simpl; [|lia].
    by apply Hwk.
  - unfold config.valid_date_sources.
    repeat (constructor; [set_solver|]). constructor.
  - unfold config.valid_timezone_modes. set_solver.
Qed.

Lemma defaults_pass_validation_witness :
  config.validate (fun _ => true)
    (config.merge_args
       {| config.args_config := None;
          config.args_inputs := Some ["exports/account1"];
          config.args_out_dir := None;
          config.args_mode := Some "exact+perceptual";
          config.args_action := None;
          config.args_phash_threshold := Some 0;
          config.args_workers := None;
          config.args_keep_structure := false;
          config.args_verbose := false |}
       config.Config_init)
  = None.
Proof.
  eapply (defaults_pass_validation (fun _ => true)); simpl.
  - reflexivity.
  - by repeat constructor.
  - unfold config.valid_modes. set_solver.
  - done.
  - intros n [= <-]. lia.
  - by intros n ?.
Defined.

(** X22.  Merging the same command line twice changes nothing more, and
    after a merge [keep_structure] is the flag of the command line,
    whatever the configuration held: a [store_true] flag is never
    [None]. *)
Theorem merge_args_idempotent (args : config.Namespace)
  (c : config.Config) :
  config.merge_args args (config.merge_args args c)
  = config.merge_args args c
  ∧ config.keep_structure (config.merge_args args c)
    = config.args_keep_structure args.
Proof.
  split; [|done]. unfold config.merge_args. simpl. f_equal.
  - by destruct (config.given_list (config.args_inputs args)).
  - by destruct (config.given_str (config.args_out_dir args)).
  - by destruct (config.given_str (config.args_mode args)).
  - by destruct (config.given_str (config.args_action args)).
  - by destruct (config.args_phash_threshold args).
  - by destruct (config.args_workers args).
Qed.

(** ** Processing the files *)

Section ProcessFilesFacts.
Variable FS : Type.
Variable world_of : FS → World.
Variable Path_mkdir : string → M FS unit.
Variable Path_exists : string → FS → result bool.
Variable shutil_copy2 : string → string → M FS unit.
Variable shutil_move : string → string → M FS unit.
Variable Path_name : string → string.
Variable Path_stem : string → string.
Variable Path_truediv : string → string → string.
Variable get_capture_year :
  string → list string → string → string → cli.C FS string.

Local Abbreviation process_files :=
  (cli.process_files FS world_of Path_mkdir Path_exists shutil_copy2
     shutil_move Path_name Path_stem Path_truediv get_capture_year).

Lemma for_each_try_log {A} (body : A → cli.C FS unit) (l : list A) fs :
  ∃ fs', cli.for_each (fun x => cli.try_log (body x)) l fs
         = (cli.Returned tt, fs').
Proof.
  revert fs. induction l as [|x l IH]; intros fs; simpl.
  - by exists fs.
  - unfold cli.bind, cli.try_log.
    destruct (body x fs) as [[[]|e] fs1]; apply IH.
Qed.

Lemma for_each_skip {A} (body : A → cli.C FS unit) (l : list A) fs :
  (∀ x fs0, body x fs0 = (cli.Returned tt, fs0)) →
  cli.for_each (fun x => cli.try_log (body x)) l fs = (cli.Returned tt, fs).
Proof.
  intros Hbody. induction l as [|x l IH]; [done|].
  simpl. unfold cli.bind at 1. unfold cli.try_log at 1.
  by rewrite Hbody.
Qed.

Lemma loops_return {A B} (body1 : A → cli.C FS unit)
  (body2 : B → cli.C FS unit) (l1 : list A) (l2 : list B) fs :
  ∃ fs',
    cli.bind (cli.for_each (fun x => cli.try_log (body1 x)) l1)
      (fun _ => cli.for_each (fun x => cli.try_log (body2 x)) l2) fs
    = (cli.Returned tt, fs')
    ∧ ((∀ x fs0, body1 x fs0 = (cli.Returned tt, fs0)) →
       (∀ x fs0, body2 x fs0 = (cli.Returned tt, fs0)) → fs' = fs).
Proof.
  unfold cli.bind.
  destruct (for_each_try_log body1 l1 fs) as [fs1 E1].
  destruct (for_each_try_log body2 l2 fs1) as [fs2 E2].
  exists fs2. rewrite E1, E2. split; [done|]. intros H1 H2.
  rewrite (for_each_skip body1 l1 fs H1) in E1.
  rewrite (for_each_skip body2 l2 fs1 H2) in E2. congruence.
Qed.

Lemma copy_or_move_other action file_path dst keep_structure :
  action ≠ "copy" → action ≠ "move" →
  cli.copy_or_move FS world_of Path_mkdir Path_exists shutil_copy2
    shutil_move Path_name Path_stem Path_truediv action file_path dst
    keep_structure
  = cli.ret tt.
Proof.
  intros Hc Hm. unfold cli.copy_or_move.
  destruct (String.eqb_spec action "copy"); [done|].
  by destruct (String.eqb_spec action "move").
Qed.

Lemma process_files_by_year files action unique_dir duplicates_dir winners
  duplicates keep_structure c g gs fs :
  action ≠ "dry-run" → config.group_by_year c = true →
  process_files files action unique_dir duplicates_dir winners duplicates
    keep_structure (Some c) (Some (g :: gs)) fs
  = (cli.Raised
       (match winner g with
        | Some _ => cli.AttributeError
        | None => cli.Builtin TypeError
        end), fs).
Proof.
  intros Hdry Hyear. unfold cli.process_files.
  destruct (String.eqb_spec action "dry-run"); [done|].
  rewrite Hyear. simpl. unfold cli.bind at 1 2. unfold cli.year_of_group.
  by destruct (winner g).
Qed.

(** X23.  With [group_by_year] on and an action other than ['dry-run'],
    [process_files] stops at the first duplicate group before any file
    is touched: it hands the winner's [Path] to
    [get_capture_year_for_group], which reads its [winner] attribute and
    raises [AttributeError] ([TypeError] from [Path(None)] for a group
    without winner).  The exception is raised outside every [try]. *)
Theorem process_files_by_year_raises (files : list string)
  (action unique_dir duplicates_dir : string)
  (winners : list (option string)) (duplicates : list string)
  (keep_structure : bool) (c : config.Config) (g : DuplicateGroup)
  (gs : list DuplicateGroup) (fs : FS) :
  action ≠ "dry-run" → config.group_by_year c = true →
  process_files files action unique_dir duplicates_dir winners duplicates
    keep_structure (Some c) (Some (g :: gs)) fs
  = (cli.Raised
       (match winner g with
        | Some _ => cli.AttributeError
        | None => cli.Builtin TypeError
        end), fs).
Proof. apply process_files_by_year. Qed.

(** X24.  The same in [main]: after a run of the engine that found a
    duplicate group, step 4 with [group_by_year] raises
    [AttributeError] and no file has been copied or moved, whatever the
    dates of the files are. *)
Theorem year_mode_copies_nothing (w : World) (all_files : list string)
  (d : Deduplicator) (action unique_dir duplicates_dir : string)
  (keep_structure : bool) (c : config.Config) (fs : FS) :
  let d' := (create_duplicate_groups w all_files d).2 in
  let all_unique :=
    (Some <$> get_unique_files d' all_files) ++ get_all_winners d' in
  duplicate_groups d' ≠ [] →
  action ≠ "dry-run" → config.group_by_year c = true →
  process_files all_files action unique_dir duplicates_dir all_unique
    (get_all_duplicates d') keep_structure (Some c)
    (Some (duplicate_groups d')) fs
  = (cli.Raised cli.AttributeError, fs).
Proof.
  intros d' all_unique Hne Hdry Hyear.
  destruct (duplicate_groups d') as [|g gs] eqn:Hgroups; [done|].
  rewrite process_files_by_year by done.
  assert (Hg : g ∈ duplicate_groups d') by (rewrite Hgroups; by left).
  unfold d' in Hg. rewrite duplicate_groups_after in Hg.
  destruct (engine_candidates w (sha_view w (hash_calc d))
              (phash_view w (hash_calc d)) (mode d) (phash_threshold d)
              all_files) as (cands & Hb & _).
  apply list_elem_of_lookup in Hg as [i Hi].
  destruct (Forall2_lookup_r _ _ _ _ _ Hb Hi) as (_ & _ & (wp & -> & _)).
  done.
Qed.

(** X25.  In every other case [process_files] returns: with
    ['dry-run'] it returns at once, whatever the year mode and the
    groups are, and outside the year mode each copy or move is inside a
    [try] that logs the exception and goes on.  With an action that is
    neither ['copy'] nor ['move'] the file system is left as it was. *)
Theorem process_files_plain_returns (files : list string)
  (action unique_dir duplicates_dir : string)
  (winners : list (option string)) (duplicates : list string)
  (keep_structure : bool) (config : option config.Config)
  (duplicate_groups : option (list DuplicateGroup)) (fs : FS) :
  action = "dry-run"
  ∨ match config, duplicate_groups with
    | Some c, Some (_ :: _) => config.group_by_year c = false
    | _, _ => True
    end →
  ∃ fs',
    process_files files action unique_dir duplicates_dir winners duplicates
      keep_structure config duplicate_groups fs
    = (cli.Returned tt, fs')
    ∧ (action ≠ "copy" → action ≠ "move" → fs' = fs).
Proof.
  intros Hcase. unfold cli.process_files.
  destruct (String.eqb_spec action "dry-run") as [Hdry|Hdry];
    [by exists fs|].
  destruct Hcase as [?|Hplain]; [done|].
  set (plain := cli.bind _ _).
  assert (Hp : ∃ fs', plain fs = (cli.Returned tt, fs')
                      ∧ (action ≠ "copy" → action ≠ "move" → fs' = fs)).
  { unfold plain.
    destruct (loops_return
                (fun file_path =>
                   cli.copy_or_move FS world_of Path_mkdir Path_exists
                     shutil_copy2 shutil_move Path_name Path_stem
                     Path_truediv action file_path unique_dir
                     keep_structure)
                (fun file_path =>
                   cli.copy_or_move FS world_of Path_mkdir Path_exists
                     shutil_copy2 shutil_move Path_name Path_stem
                     Path_truediv action (Some file_path) duplicates_dir
                     keep_structure)
                winners duplicates fs) as (fs' & E & Hsame).
    exists fs'. split; [done|]. intros Hc Hm.
    apply Hsame; intros x fs0; by rewrite copy_or_move_other. }
  destruct config as [c|]; [|done].
  destruct duplicate_groups as [[|g gs]|]; [done| |done].
  by rewrite Hplain.
Qed.
End ProcessFilesFacts.

Lemma process_files_by_year_raises_witness :
  ∃ g,
    winner g = Some "a.jpg"
    ∧ ExampleFS.process_files Example.photo_paths "copy" "out/UNIQUE"
        "out/DUPLICATES" [Some "a.jpg"] ["b.jpg"] false
        (Some ExampleFS.by_year) (Some [g]) []
      = (cli.Raised cli.AttributeError, []).
Proof.
  exists {| group_id := 0; detection_type := "exact";
            winner := Some "a.jpg"; duplicates := ["b.jpg"];
            winner_metadata := None; duplicate_metadata := [];
            reason := ""; phash_distance := None |}.
  split; [done|].
  apply (process_files_by_year_raises ExampleFS.FS ExampleFS.world_of
           ExampleFS.Path_mkdir ExampleFS.Path_exists
           ExampleFS.shutil_copy2 ExampleFS.shutil_copy2
           ExampleFS.Path_name ExampleFS.Path_name ExampleFS.Path_truediv
           ExampleFS.get_capture_year); done.
Defined.

Lemma year_mode_copies_nothing_witness :
  let d' := (Example.run Example.photos "exact" 6 Example.photo_paths).2 in
  ExampleFS.process_files Example.photo_paths "copy" "out/UNIQUE"
    "out/DUPLICATES"
    ((Some <$> get_unique_files d' Example.photo_paths)
       ++ get_all_winners d')
    (get_all_duplicates d') false (Some ExampleFS.by_year)
    (Some (duplicate_groups d')) []
  = (cli.Raised cli.AttributeError, []).
Proof.
  apply (year_mode_copies_nothing ExampleFS.FS ExampleFS.world_of
           ExampleFS.Path_mkdir ExampleFS.Path_exists
           ExampleFS.shutil_copy2 ExampleFS.shutil_copy2
           ExampleFS.Path_name ExampleFS.Path_name ExampleFS.Path_truediv
           ExampleFS.get_capture_year
           (Example.world Example.photos true) Example.photo_paths
           (Deduplicator_init "exact" 6)); [|done|done].
  by vm_compute.
Defined.

Lemma process_files_plain_returns_witness :
  let d' := (Example.run Example.photos "exact" 6 Example.photo_paths).2 in
  let all_unique :=
    (Some <$> get_unique_files d' Example.photo_paths)
      ++ get_all_winners d' in
  (∃ fs',
     ExampleFS.process_files Example.photo_paths "copy" "out/UNIQUE"
       "out/DUPLICATES" all_unique (get_all_duplicates d') false
       (Some config.Config_init) (Some (duplicate_groups d')) []
     = (cli.Returned tt, fs'))
  ∧ ExampleFS.process_files Example.photo_paths "dry-run" "out/UNIQUE"
      "out/DUPLICATES" all_unique (get_all_duplicates d') false
      (Some ExampleFS.by_year) (Some (duplicate_groups d')) []
    = (cli.Returned tt, []).
Proof.
  intros d' all_unique. split.
  - destruct (process_files_plain_returns ExampleFS.FS ExampleFS.world_of
                ExampleFS.Path_mkdir ExampleFS.Path_exists
                ExampleFS.shutil_copy2 ExampleFS.shutil_copy2
                ExampleFS.Path_name ExampleFS.Path_name
                ExampleFS.Path_truediv ExampleFS.get_capture_year
                Example.photo_paths "copy" "out/UNIQUE" "out/DUPLICATES"
                all_unique (get_all_duplicates d') false
                (Some config.Config_init) (Some (duplicate_groups d')) [])
      as (fs' & E & _).
    { right. by destruct (duplicate_groups d'). }
    by exists fs'.
  - destruct (process_files_plain_returns ExampleFS.FS ExampleFS.world_of
                ExampleFS.Path_mkdir ExampleFS.Path_exists
                ExampleFS.shutil_copy2 ExampleFS.shutil_copy2
                ExampleFS.Path_name ExampleFS.Path_name
                ExampleFS.Path_truediv ExampleFS.get_capture_year
                Example.photo_paths "dry-run" "out/UNIQUE" "out/DUPLICATES"
                all_unique (get_all_duplicates d') false
                (Some ExampleFS.by_year) (Some (duplicate_groups d')) [])
      as (fs' & E & Hsame); [by left|].
    assert (fs' = []) as -> by (by apply Hsame).
    exact E.
Defined.

(** The same files with the year mode off: three files go to [UNIQUE]
    and one to [DUPLICATES]. *)
Example process_files_copies :
  let d' := (Example.run Example.photos "exact" 6 Example.photo_paths).2 in
  ExampleFS.process_files Example.photo_paths "copy" "out/UNIQUE"
    "out/DUPLICATES"
    ((Some <$> get_unique_files d' Example.photo_paths)
       ++ get_all_winners d')
    (get_all_duplicates d') false (Some config.Config_init)
    (Some (duplicate_groups d')) []
  = (cli.Returned tt,
     [("c.jpg", "out/UNIQUE/c.jpg"); ("d.jpg", "out/UNIQUE/d.jpg");
      ("a.jpg", "out/UNIQUE/a.jpg"); ("b.jpg", "out/DUPLICATES/b.jpg")]).
Proof. vm_compute. reflexivity. Qed.

(** ** Scanning the inputs *)

Section ScanFacts.
Variable w : World.
Variable os_walk : string → list (string * list string * list string).
Variable os_path_join : string → string → string.
Variable Path_truediv : string → string → string.
Variable relative_depth : string → string → nat.
Variable Path_exists : string → result bool.
Variable Path_is_dir : string → result bool.

Local Abbreviation scan_directory :=
  (scanner.scan_directory w os_walk os_path_join).
Local Abbreviation photos_folder_of :=
  (scanner.photos_folder_of w os_walk os_path_join Path_truediv
     relative_depth Path_exists Path_is_dir).
Local Abbreviation scan_input :=
  (scanner.scan_input w os_walk os_path_join Path_truediv relative_depth
     Path_exists Path_is_dir).
Local Abbreviation scan_inputs :=
  (scanner.scan_inputs w os_walk os_path_join Path_truediv relative_depth
     Path_exists Path_is_dir).

(** [e] is raised by [exists()] or [is_dir()] on some path. *)
Local Abbreviation stat_raises e :=
  (∃ p, Path_exists p = Raise e ∨ Path_is_dir p = Raise e).

Lemma scan_directory_media self root_dir :
  Forall (fun f => is_supported_media w f = true)
    (scan_directory self root_dir).
Proof.
  unfold scanner.scan_directory.
  generalize (os_walk root_dir). intros walk.
  assert (Hgen : ∀ acc,
    Forall (fun f => is_supported_media w f = true) acc →
    Forall (fun f => is_supported_media w f = true)
      (foldl
         (fun media_files '(root, dirs, files) =>
            foldl
              (fun media_files file =>
                 let file_path := os_path_join root file in
                 if scanner.ignore_json self
                    && scanner.endswith (str_lower w file) ".json"
                 then media_files
                 else if is_supported_media w file_path
                 then media_files ++ [file_path]
                 else media_files)
              media_files files)
         acc walk)).
  { induction walk as [|[[root dirs] files] walk IH]; intros acc Hacc;
      [done|].
    simpl. apply IH. clear IH. revert acc Hacc.
    induction files as [|file files IH]; intros acc Hacc; [done|].
    simpl. apply IH.
    destruct (scanner.ignore_json self && _); [done|].
    destruct (is_supported_media w (os_path_join root file)) eqn:Hm;
      [|done].
    apply Forall_app. split; [done|]. by repeat constructor. }
  by apply Hgen.
Qed.

Lemma scan_directory_ignore_json self self' root_dir :
  scanner.ignore_json self' = scanner.ignore_json self →
  scan_directory self' root_dir = scan_directory self root_dir.
Proof. intros H. unfold scanner.scan_directory. by rewrite H. Qed.

Lemma detect_pattern_raises input_dir patterns e :
  scanner.detect_pattern Path_truediv Path_exists Path_is_dir input_dir
    patterns = Raise e →
  stat_raises e.
Proof.
  induction patterns as [|pattern patterns IH]; simpl; [done|].
  destruct (Path_exists (Path_truediv input_dir pattern)) as [found|e']
    eqn:Hex; simpl.
  2:{ intros [= ->]. eexists. by left. }
  destruct found; simpl; [|done].
  destruct (Path_is_dir (Path_truediv input_dir pattern)) as [is_dir|e']
    eqn:Hdir; simpl.
  2:{ intros [= ->]. eexists. by right. }
  by destruct is_dir.
Qed.

Lemma photos_folder_of_raises photos_subpath input_dir e :
  photos_folder_of photos_subpath input_dir = Raise e → stat_raises e.
Proof.
  unfold scanner.photos_folder_of.
  destruct (truthy_str photos_subpath).
  - destruct (Path_exists _) as [found|e'] eqn:Hex; simpl.
    + by destruct found.
    + intros [= ->]. eexists. by left.
  - unfold scanner.auto_detect_photos_folder.
    destruct (scanner.detect_pattern _ _ _ _ _) as [detected|e'] eqn:Hd;
      simpl.
    + destruct detected as [p|]; simpl.
      * by match goal with
           | |- context [if ?b then _ else _] => destruct b
           end.
      * destruct (scanner._contains_media_files _ _ _ _ _ _); simpl;
          [|done].
        by match goal with
           | |- context [if ?b then _ else _] => destruct b
           end.
    + intros [= ->]. by eapply detect_pattern_raises.
Qed.

(** What one input does, whatever was found before it: it is skipped, or
    its root is recorded and its media files are added, or [exists()] or
    [is_dir()] raises. *)
Lemma scan_input_spec photos_subpath ignore input_dir :
  ∃ roots,
    (length roots <= 1)%nat
    ∧ ((∃ files,
          Forall (fun f => is_supported_media w f = true) files
          ∧ ∀ all_files s,
              scanner.ignore_json s = ignore →
              scan_input photos_subpath all_files input_dir s
              = (Ok (all_files ++ files),
                 {| scanner.ignore_json := ignore;
                    scanner.detected_roots :=
                      scanner.detected_roots s ++ roots |}))
       ∨ (∃ e,
            stat_raises e
            ∧ ∀ all_files s,
                scanner.ignore_json s = ignore →
                scan_input photos_subpath all_files input_dir s
                = (Raise e,
                   {| scanner.ignore_json := ignore;
                      scanner.detected_roots :=
                        scanner.detected_roots s ++ roots |}))).
Proof.
  unfold scanner.scan_input.
  destruct (photos_folder_of photos_subpath input_dir) as [[pf|]|e] eqn:Hpf.
  - exists [pf]. split; [done|]. left.
    exists (scan_directory
              {| scanner.ignore_json := ignore;
                 scanner.detected_roots := [] |} pf).
    split; [apply scan_directory_media|].
    intros all_files s <-. unfold bind, lift, get, put, ret. simpl.
    by rewrite (scan_directory_ignore_json
                  {| scanner.ignore_json := scanner.ignore_json s;
                     scanner.detected_roots := [] |}).
  - exists []. split; [simpl; lia|]. left. exists []. split; [done|].
    intros all_files [ig roots] <-. unfold bind, lift, ret. simpl.
    by rewrite !app_nil_r.
  - exists []. split; [simpl; lia|]. right. exists e.
    split; [by eapply photos_folder_of_raises|].
    intros all_files [ig roots] <-. unfold bind, lift. simpl.
    by rewrite app_nil_r.
Qed.

Lemma scan_loop_spec photos_subpath ignore input_dirs :
  ∃ roots,
    (length roots <= length input_dirs)%nat
    ∧ ((∃ files,
          Forall (fun f => is_supported_media w f = true) files
          ∧ ∀ all_files s,
              scanner.ignore_json s = ignore →
              for_fold (scan_input photos_subpath) input_dirs all_files s
              = (Ok (all_files ++ files),
                 {| scanner.ignore_json := ignore;
                    scanner.detected_roots :=
                      scanner.detected_roots s ++ roots |}))
       ∨ (∃ e,
            stat_raises e
            ∧ ∀ all_files s,
                scanner.ignore_json s = ignore →
                for_fold (scan_input photos_subpath) input_dirs all_files s
                = (Raise e,
                   {| scanner.ignore_json := ignore;
                      scanner.detected_roots :=
                        scanner.detected_roots s ++ roots |}))).
Proof.
  induction input_dirs as [|input_dir input_dirs IH].
  { exists []. split; [done|]. left. exists []. split; [done|].
    intros all_files [ig roots] <-. unfold ret. simpl.
    by rewrite !app_nil_r. }
  destruct (scan_input_spec photos_subpath ignore input_dir)
    as (roots1 & Hl1 & [(files1 & Hm1 & E1)|(e & He & E1)]).
  2:{ exists roots1. split; [simpl; lia|]. right. exists e.
      split; [done|]. intros all_files s Hs. simpl. unfold bind at 1.
      by rewrite (E1 all_files s Hs). }
  destruct IH as (roots2 & Hl2 & [(files2 & Hm2 & E2)|(e & He & E2)]);
    exists (roots1 ++ roots2);
    (split; [rewrite length_app; simpl; lia|]).
  - left. exists (files1 ++ files2). split; [by apply Forall_app|].
    intros all_files s Hs. simpl. unfold bind at 1.
    rewrite (E1 all_files s Hs), E2 by done. simpl.
    by rewrite !app_assoc.
  - right. exists e. split; [done|].
    intros all_files s Hs. simpl. unfold bind at 1.
    rewrite (E1 all_files s Hs), E2 by done. simpl.
    by rewrite !app_assoc.
Qed.


Lemma for_fold_app {S A B} (body : B → A → M S B) (l1 l2 : list A)
  (acc : B) (s : S) :
  for_fold body (l1 ++ l2) acc s
  = bind (for_fold body l1 acc) (fun acc' => for_fold body l2 acc') s.
Proof.
  revert acc s. induction l1 as [|x l1 IH]; intros acc s; simpl; [done|].
  unfold bind.
  destruct (body acc x s) as [[acc'|e] s1]; [|done].
  rewrite IH. reflexivity.
Qed.

(** X27.  Scanning a list of inputs gives what scanning its parts gives,
    one after the other: the files of the first part followed by those
    of the second when both scans return, and otherwise the first
    exception.  Nothing removes a repetition: an input listed twice, or
    two inputs with the same photos folder, give every file twice. *)
Theorem scan_inputs_app (input_dirs1 input_dirs2 : list string)
  (photos_subpath : option string) (s : scanner.Scanner) :
  (scan_inputs (input_dirs1 ++ input_dirs2) photos_subpath s).1
  = match (scan_inputs input_dirs1 photos_subpath s).1 with
    | Ok files1 =>
        match (scan_inputs input_dirs2 photos_subpath s).1 with
        | Ok files2 => Ok (files1 ++ files2)
        | Raise e => Raise e
        end
    | Raise e => Raise e
    end.
Proof.
  unfold scanner.scan_inputs. rewrite for_fold_app. unfold bind.
  destruct (scan_loop_spec photos_subpath (scanner.ignore_json s)
              input_dirs1)
    as (roots1 & _ & [(files1 & _ & E1)|(e1 & _ & E1)]);
    rewrite (E1 [] s eq_refl); simpl; [|done].
  destruct (scan_loop_spec photos_subpath (scanner.ignore_json s)
              input_dirs2)
    as (roots2 & _ & [(files2 & _ & E2)|(e2 & _ & E2)]);
    rewrite (E2 [] s eq_refl), E2 by done; done.
Qed.
End ScanFacts.

(** The folder of [ExampleScan] listed twice gives its two media files
    twice, the sidecar and the text file left out; with an input that
    cannot be looked at the scan raises, the root of the first input
    already recorded. *)
Example scan_inputs_twice :
  ExampleScan.scan_inputs ["in"; "in"] None (scanner.Scanner_init true)
  = (Ok ["in/a.jpg"; "in/clip.mp4"; "in/a.jpg"; "in/clip.mp4"],
     {| scanner.ignore_json := true;
        scanner.detected_roots := ["in"; "in"] |})
  ∧ ExampleScan.scan_inputs ["in"; "locked"; "in"] None
      (scanner.Scanner_init true)
    = (Raise OSError,
       {| scanner.ignore_json := true;
          scanner.detected_roots := ["in"] |}).
Proof. split; vm_compute; reflexivity. Qed.

(** ** The rows of the CSV report *)

Lemma rows_of_duplicates g (dups : list string) (k : nat)
  (rows : list reporters.Row) :
  (k + length dups <= length (duplicate_metadata g))%nat →
  rfor_fold
    (fun rows entry =>
       rbind (reporters.row_of g entry) (fun row => Ok (rows ++ [row])))
    (imap (fun i dup => ((k + i)%nat, dup)) dups) rows
  = Ok (rows
          ++ zip_with (reporters.row g) dups
               (drop k (duplicate_metadata g))).
Proof.
  revert k rows. induction dups as [|dup dups IH]; intros k rows Hlen.
  { simpl. by rewrite app_nil_r. }
  simpl in Hlen. rewrite imap_cons. simpl.
  destruct (lookup_lt_is_Some_2 (duplicate_metadata g) k) as [md Hmd];
    [lia|].
  unfold list_getitem. rewrite Nat.add_0_r, Hmd. simpl.
  rewrite (drop_S _ md k Hmd). simpl.
  rewrite (imap_ext _ (fun i dup0 => ((S k + i)%nat, dup0)))
    by (intros; simpl; f_equal; lia).
  rewrite IH by lia. by rewrite <- app_assoc.
Qed.

Lemma csv_rows_aligned (groups : list DuplicateGroup) :
  Forall (fun g => length (duplicate_metadata g) = length (duplicates g))
    groups →
  reporters.csv_rows groups
  = Ok (concat
          ((fun g =>
              zip_with (reporters.row g) (duplicates g)
                (duplicate_metadata g)) <$> groups)).
Proof.
  unfold reporters.csv_rows.
  assert (Hgen : ∀ rows,
    Forall (fun g => length (duplicate_metadata g) = length (duplicates g))
      groups →
    rfor_fold
      (fun rows group =>
         rfor_fold
           (fun rows entry =>
              rbind (reporters.row_of group entry)
                (fun row => Ok (rows ++ [row])))
           (enumerate (duplicates group)) rows)
      groups rows
    = Ok (rows
            ++ concat
                 ((fun g =>
                     zip_with (reporters.row g) (duplicates g)
                       (duplicate_metadata g)) <$> groups))).
  { induction groups as [|g groups IH]; intros rows Hall.
    { simpl. by rewrite app_nil_r. }
    apply Forall_cons in Hall as [Hg Hall]. simpl.
    unfold enumerate.
    change (imap pair (duplicates g))
      with (imap (fun i dup => ((0 + i)%nat, dup)) (duplicates g)).
    rewrite (rows_of_duplicates g (duplicates g) 0 rows) by (simpl; lia).
    simpl. rewrite IH by done. by rewrite <- app_assoc. }
  apply Hgen.
Qed.

Lemma zip_with_row_paths g (dups : list string) (mds : list FileMetadata) :
  length mds = length dups →
  reporters.duplicate_path <$> zip_with (reporters.row g) dups mds = dups.
Proof.
  revert mds. induction dups as [|dup dups IH]; intros [|md mds] Hlen;
    simpl in *; try done.
  f_equal. apply IH. lia.
Qed.

Lemma csv_rows_paths (groups : list DuplicateGroup) :
  Forall (fun g => length (duplicate_metadata g) = length (duplicates g))
    groups →
  reporters.duplicate_path
    <$> concat
          ((fun g =>
              zip_with (reporters.row g) (duplicates g)
                (duplicate_metadata g)) <$> groups)
  = concat (duplicates <$> groups).
Proof.
  induction 1 as [|g gs Hg Hgs IH]; [done|].
  rewrite !fmap_cons, !concat_cons, fmap_app, IH.
  by rewrite zip_with_row_paths.
Qed.

Section Kinds.
Variable w : World.
Variable sha : string → result string.
Variable ph : string → option string.

(** The kind of a group, its distance, and the common digest of an exact
    group, as its metadata hold it. *)
Lemma engine_group_kind mode threshold files i g :
  (engine w sha ph mode threshold files).1 !! i = Some g →
  length (duplicate_metadata g) = length (duplicates g)
  ∧ ((detection_type g = "exact" ∧ phash_distance g = None
      ∧ ∃ h md,
          winner_metadata g = Some md ∧ md_sha256 md = h
          ∧ Forall (fun md' => md_sha256 md' = h) (duplicate_metadata g))
     ∨ (detection_type g = "perceptual"
        ∧ ∃ m, phash_distance g = Some m ∧ 0 <= m <= threshold)).
Proof.
  intros Hi.
  apply engine_lookup in Hi as [(_ & c & Hc & Hb)|(_ & [c m] & Hc & Hb)].
  - pose proof (build_group_metadata w sha _ _ _ _ _ Hb)
      as [(wp & md & Hw & Hmd & Hdesc) Hdups].
    apply build_group_spec in Hb as (Hfrom & _ & Hty & Hdist & _).
    split; [symmetry; by eapply Forall2_length|]. left.
    split; [done|]. split; [done|].
    apply exact_groups_elem in Hc as (k & -> & _).
    assert (Hdigest : ∀ f md0,
      Some f ∈ group_files_of g → describes w sha f md0 →
      md_sha256 md0 = k).
    { intros f md0 Hf (_ & Hsha & _).
      apply (built_from_files _ g f Hfrom) in Hf.
      apply list_elem_of_filter in Hf as [Hk _].
      apply has_digest_iff in Hk. congruence. }
    exists k, md. split; [done|]. split.
    + apply (Hdigest wp); [|done]. unfold group_files_of.
      rewrite Hw. by left.
    + apply Forall_forall. intros md' [j Hj]%list_elem_of_lookup.
      destruct (Forall2_lookup_r _ _ _ _ _ Hdups Hj) as (f & Hf & Hd).
      apply (Hdigest f); [|done]. unfold group_files_of. right.
      apply list_elem_of_fmap_2. by eapply list_elem_of_lookup_2.
  - pose proof (build_group_metadata w sha _ _ _ _ _ Hb) as [_ Hdups].
    apply build_group_spec in Hb as (_ & _ & Hty & Hdist & _).
    split; [symmetry; by eapply Forall2_length|]. right.
    split; [done|]. exists m. split; [done|].
    apply greedy_clusters_seed in Hc
      as (seed & fp & near & _ & _ & _ & Hnear & [Hm _]).
    apply list_elem_of_fmap in Hm as (h & -> & Hh).
    apply list_elem_of_fmap in Hh as (x & -> & Hx).
    split; [apply hamming_distance_nonneg | by apply Hnear].
Qed.
End Kinds.

(** X28.  The CSV report of a run: [duplicate_metadata[i]] never raises;
    there is one row for each duplicate, in the order of
    [get_all_duplicates], so a group without duplicates has no row; in
    the rows of an exact group the digest of the winner is the digest of
    the duplicate and the distance cell is the empty string; in the rows
    of a perceptual group the distance is a number between 0 and the
    threshold. *)
Theorem csv_rows_of_run (w : World) (files : list string)
  (d : Deduplicator) :
  let d' := (create_duplicate_groups w files d).2 in
  ∃ rows,
    reporters.csv_rows (duplicate_groups d') = Ok rows
    ∧ reporters.duplicate_path <$> rows = get_all_duplicates d'
    ∧ Forall
        (fun r =>
           (reporters.row_detection_type r = "exact"
            ∧ reporters.winner_sha256 r = reporters.duplicate_sha256 r
            ∧ reporters.row_phash_distance r = reporters.Str "")
           ∨ (reporters.row_detection_type r = "perceptual"
              ∧ ∃ m, reporters.row_phash_distance r = reporters.Int m
                     ∧ 0 <= m <= phash_threshold d))
        rows.
Proof.
  intros d'.
  set (sha := sha_view w (hash_calc d)).
  set (ph := phash_view w (hash_calc d)).
  assert (Hkind : ∀ i g, duplicate_groups d' !! i = Some g →
    length (duplicate_metadata g) = length (duplicates g)
    ∧ ((detection_type g = "exact" ∧ phash_distance g = None
        ∧ ∃ h md,
            winner_metadata g = Some md ∧ md_sha256 md = h
            ∧ Forall (fun md' => md_sha256 md' = h) (duplicate_metadata g))
       ∨ (detection_type g = "perceptual"
          ∧ ∃ m, phash_distance g = Some m ∧ 0 <= m <= phash_threshold d))).
  { intros i g Hi. unfold d' in Hi. rewrite duplicate_groups_after in Hi.
    by eapply engine_group_kind. }
  assert (Hal : Forall
    (fun g => length (duplicate_metadata g) = length (duplicates g))
    (duplicate_groups d')).
  { apply Forall_forall. intros g [i Hi]%list_elem_of_lookup.
    by destruct (Hkind i g Hi). }
  eexists. split; [by apply csv_rows_aligned|]. split.
  - rewrite get_all_duplicates_concat. by apply csv_rows_paths.
  - apply Forall_forall. intros r Hr.
    apply elem_of_concat in Hr as (rows_g & Hr & Hg).
    apply list_elem_of_fmap in Hg as (g & -> & [i Hi]%list_elem_of_lookup).
    apply elem_of_lookup_zip_with in Hr as (j & dup & md & -> & Hdup & Hmd).
    destruct (Hkind i g Hi) as [_ [(Hty & Hdist & h & mdw & Hw & Hh & Hall)
                                  |(Hty & m & Hdist & Hm)]].
    + left. simpl. rewrite Hw, Hdist. simpl. split_and!; [done| |done].
      rewrite Forall_forall in Hall. f_equal.
      rewrite Hh. symmetry. apply Hall. by eapply list_elem_of_lookup_2.
    + right. simpl. rewrite Hdist. split; [done|]. by exists m.
Qed.
